(** * ext_shmht: the Python binding of the shared-memory hash table

    A shallow embedding of [shmht.c]: the process-wide handle registry
    ([ht_map], [ht_idx]), the six entry points of the extension module
    ([shmht_open], [shmht_close], [shmht_getval], [shmht_setval],
    [shmht_remove], [shmht_foreach]) and the part of the operating system
    they talk to (descriptors, [flock], [mmap] of a file shared with other
    processes).

    The hash-table engine itself ([hashtable.h]) is used by [shmht.c] only
    through its interface; it enters the development as the class [Engine],
    and every theorem about the binding holds for every engine. *)

From Stdlib Require Import ZArith List Lia Bool String.
From stdpp Require Import base option gmap strings list fin_maps fin_sets.

Local Open Scope Z_scope.

(** ** Plain data *)

Definition bytes := list Byte.byte.

(** [#define max_ht_map_entries 2048] *)
Definition max_ht_map_entries : Z := 2048.

(** Pointers are addresses; [NULL] and [MAP_FAILED] are the two
    distinguished ones. *)
Definition NULL : Z := 0.
Definition MAP_FAILED : Z := -1.

(** ** The engine interface, [hashtable.h]

    [hashtable] is what a mapped region holds, read as the engine reads it
    (bytes past the end of the file read as zero, so extending the file
    with zeros does not change it).  An [ht_str*] returned by the engine
    is an offset into the region; [ht_str_at] reads [p->str[0..p->size)]
    from the region as it is at the moment of the read. *)
Class Engine := {
  hashtable : Type;
  blank : hashtable;
  sizeof_hashtable : Z;
  ht_is_valid : hashtable -> bool;
  orig_capacity : hashtable -> Z;
  entry_count : hashtable -> Z;
  ht_memory_size : Z -> Z;
  ht_init : hashtable -> Z -> Z -> hashtable;
  ht_get : hashtable -> bytes -> option Z;
  ht_str_at : hashtable -> Z -> bytes;
  ht_set : hashtable -> bytes -> bytes -> hashtable * bool;
  ht_remove : hashtable -> bytes -> hashtable * bool;
  ht_iterate : hashtable -> list (Z * Z)
}.

(** ** Python objects and exceptions *)

Inductive pyobj :=
| PyInt (n : Z)
| PyTrue
| PyFalse
| PyNone
| PyString (s : bytes).

(** One constructor per [PyErr_Format]/[PyErr_SetString] call site of
    [shmht.c]; [Raised] is an exception set by user code. *)
Inductive pyexc :=
| Err_open_file_failed (name : string)
| Err_mmap_header_failed (map_size : Z)
| Err_smaller_capacity (req have : Z)
| Err_capacity_required
| Err_lseek_failed
| Err_write_failed
| Err_mmap_failed (mem_size : Z)
| Err_exceeded_max_ht_map_entries
| Err_invalid_ht_id (idx : Z)
| Err_munmap_failed
| Err_insert_failed (key : bytes)
| TypeError_not_callable
| Raised (tag : Z).

(** A [PyObject*] result: [None] is the C [NULL].  [Segfault] is a load or
    store through a pointer that maps nothing. *)
Inductive outcome :=
| Returned (r : option pyobj)
| Segfault.

(** The visitor handed to [foreach]: a callable that returns or raises,
    or an object that is not callable. *)
Inductive callback :=
| Callable (f : bytes -> bytes -> option pyexc)
| NotCallable.

(** ** Process and file-system state *)

Inductive flock_op := LOCK_EX | LOCK_UN.

Inductive event :=
| EvFlock (fd : Z) (op : flock_op)
| EvAccess (p : Z)
| EvCall (k v : bytes).

(** [struct mapnode] *)
Record mapnode := { fd : Z; mem_size : Z; ht : Z }.

Record mapping := { m_file : string; m_len : Z }.

(** What the kernel may refuse during one [open]. *)
Record faults := {
  open_fails : bool;
  mmap_header_fails : bool;
  lseek_fails : bool;
  write_fails : bool;
  mmap_fails : bool
}.

Definition no_faults : faults :=
  {| open_fails := false; mmap_header_fails := false; lseek_fails := false;
     write_fails := false; mmap_fails := false |}.

Section Binding.
Context `{E : Engine}.

Record file := { st_size : Z; contents : hashtable }.

(** [files] is shared with every other process; the rest is local to this
    one.  [log] has the newest event first. *)
Record world := {
  files : gmap string file;
  fds : gmap Z string;
  maps : gmap Z mapping;
  flocks : gset Z;
  ht_map : list mapnode;
  ht_idx : Z;
  pyerr : option pyexc;
  log : list event
}.

Definition zero_node : mapnode := {| fd := 0; mem_size := 0; ht := NULL |}.

(** The state after [init_shmht]: [bzero(ht_map, sizeof(ht_map))] and the
    static initialiser [ht_idx = -1]. *)
Definition init_world (fs : gmap string file) : world :=
  {| files := fs; fds := ∅; maps := ∅; flocks := ∅;
     ht_map := replicate (Z.to_nat max_ht_map_entries) zero_node;
     ht_idx := -1; pyerr := None; log := [] |}.

Definition with_files (x : gmap string file) (w : world) : world :=
  {| files := x; fds := fds w; maps := maps w; flocks := flocks w;
     ht_map := ht_map w; ht_idx := ht_idx w; pyerr := pyerr w; log := log w |}.
Definition with_fds (x : gmap Z string) (w : world) : world :=
  {| files := files w; fds := x; maps := maps w; flocks := flocks w;
     ht_map := ht_map w; ht_idx := ht_idx w; pyerr := pyerr w; log := log w |}.
Definition with_maps (x : gmap Z mapping) (w : world) : world :=
  {| files := files w; fds := fds w; maps := x; flocks := flocks w;
     ht_map := ht_map w; ht_idx := ht_idx w; pyerr := pyerr w; log := log w |}.
Definition with_flocks (x : gset Z) (w : world) : world :=
  {| files := files w; fds := fds w; maps := maps w; flocks := x;
     ht_map := ht_map w; ht_idx := ht_idx w; pyerr := pyerr w; log := log w |}.
Definition with_ht_map (x : list mapnode) (w : world) : world :=
  {| files := files w; fds := fds w; maps := maps w; flocks := flocks w;
     ht_map := x; ht_idx := ht_idx w; pyerr := pyerr w; log := log w |}.
Definition with_ht_idx (x : Z) (w : world) : world :=
  {| files := files w; fds := fds w; maps := maps w; flocks := flocks w;
     ht_map := ht_map w; ht_idx := x; pyerr := pyerr w; log := log w |}.
Definition with_pyerr (x : option pyexc) (w : world) : world :=
  {| files := files w; fds := fds w; maps := maps w; flocks := flocks w;
     ht_map := ht_map w; ht_idx := ht_idx w; pyerr := x; log := log w |}.
Definition emit (e : event) (w : world) : world :=
  {| files := files w; fds := fds w; maps := maps w; flocks := flocks w;
     ht_map := ht_map w; ht_idx := ht_idx w; pyerr := pyerr w;
     log := e :: log w |}.

(** [PyErr_Format(shmht_error, ...)] *)
Definition PyErr_Format (e : pyexc) (w : world) : world :=
  with_pyerr (Some e) w.

(** ** System calls *)

Definition empty_file : file := {| st_size := 0; contents := blank |}.

(** The lowest descriptor number not in use. *)
Fixpoint lowest_free (fuel : nat) (k : Z) (t : gmap Z string) : Z :=
  match fuel with
  | O => k
  | S fuel' =>
      match t !! k with
      | Some _ => lowest_free fuel' (k + 1) t
      | None => k
      end
  end.

(** [open(name, O_RDWR | O_CREAT, S_IRUSR | S_IWUSR)]: [-1] on failure;
    otherwise the file exists afterwards (created empty when it did not)
    and a new descriptor names it. *)
Definition sys_open (fails : bool) (name : string) (w : world) : Z * world :=
  if fails then (-1, w)
  else
    let d := lowest_free (size (fds w)) 0 (fds w) in
    let f := default empty_file (files w !! name) in
    (d, with_fds (<[d := name]> (fds w)) (with_files (<[name := f]> (files w)) w)).

(** [fstat(fd, &buf); buf.st_size] *)
Definition sys_fstat_size (d : Z) (w : world) : Z :=
  match fds w !! d ≫= (files w !!.) with
  | Some f => st_size f
  | None => 0
  end.

(** The first address above every live region. *)
Definition unmapped_base (m : gmap Z mapping) : Z :=
  map_fold (fun a r acc => Z.max acc (a + Z.max 1 (m_len r))) 4096 m.

(** [mmap(NULL, len, PROT_READ|PROT_WRITE, MAP_SHARED, fd, 0)] *)
Definition sys_mmap (fails : bool) (len : Z) (d : Z) (w : world) : Z * world :=
  if fails then (MAP_FAILED, w)
  else
    match fds w !! d with
    | None => (MAP_FAILED, w)
    | Some name =>
        let a := unmapped_base (maps w) in
        (a, with_maps (<[a := {| m_file := name; m_len := len |}]> (maps w)) w)
    end.

(** [munmap(p, len)]: [0] when [p] is the base of a live region. *)
Definition sys_munmap (p len : Z) (w : world) : Z * world :=
  match maps w !! p with
  | Some _ => (0, with_maps (delete p (maps w)) w)
  | None => (-1, w)
  end.

(** [close(fd)]: the descriptor goes, and with it the lock held through
    it. *)
Definition sys_close (d : Z) (w : world) : world :=
  with_flocks (flocks w ∖ {[d]}) (with_fds (delete d (fds w)) w).

(** [lseek(fd, len - 1, SEEK_SET)] followed by [write(fd, &t, 1)] with
    [t = 0], on a file shorter than [len]: the file becomes [len] bytes
    long, the new bytes are zero. *)
Definition sys_extend (d : Z) (len : Z) (w : world) : world :=
  match fds w !! d with
  | None => w
  | Some name =>
      with_files
        (alter (fun f => {| st_size := len; contents := contents f |}) name (files w)) w
  end.

(** [mylock] and [myunlock]: [flock(fd, LOCK_EX)] and [flock(fd, LOCK_UN)],
    return value ignored.  [flock] is taken to succeed; were it to fail,
    the operation would go on without the lock, since the code does not
    look at the result. *)
Definition mylock (d : Z) (w : world) : world :=
  emit (EvFlock d LOCK_EX) (with_flocks ({[d]} ∪ flocks w) w).

Definition myunlock (d : Z) (w : world) : world :=
  emit (EvFlock d LOCK_UN) (with_flocks (flocks w ∖ {[d]}) w).

(** ** Loads and stores through a pointer into a shared mapping *)

(** The file behind the region based at [p].  The length of the region
    is recorded ([m_len], [mem_size]) and not checked here: where in the
    table the engine reads and writes is not part of the sources. *)
Definition deref (w : world) (p : Z) : option (string * file) :=
  r ← maps w !! p;
  f ← files w !! m_file r;
  Some (m_file r, f).

Definition poke (name : string) (h : hashtable) (w : world) : world :=
  with_files
    (alter (fun f => {| st_size := st_size f; contents := h |}) name (files w)) w.

Definition touch (p : Z) (w : world) : world := emit (EvAccess p) w.

(** ** The handle registry *)

Definition slot (m : list mapnode) (i : Z) : mapnode :=
  default zero_node (m !! Z.to_nat i).

(** [idx < 0 || idx >= max_ht_map_entries || ht_map[idx].ht == NULL] *)
Definition bad_handle (w : world) (idx : Z) : bool :=
  (idx <? 0) || (max_ht_map_entries <=? idx) || (ht (slot (ht_map w) idx) =? NULL).

(** The search for a free slot in [shmht_open]:
<<
    for (count = 0; count < max_ht_map_entries; count++) {
        ht_idx = (ht_idx + 1) % max_ht_map_entries;
        count += 1;
        if (ht_map[ht_idx].ht == NULL) break;
    }
>>
    One unit of fuel per iteration; the result is [(count, ht_idx)] on
    leaving the loop. *)
Fixpoint probe_loop (fuel : nat) (m : list mapnode) (count idx : Z) : Z * Z :=
  match fuel with
  | O => (count, idx)
  | S fuel' =>
      if count <? max_ht_map_entries then
        let idx := Z.rem (idx + 1) max_ht_map_entries in
        let count := count + 1 in
        if ht (slot m idx) =? NULL then (count, idx)
        else probe_loop fuel' m (count + 1) idx
      else (count, idx)
  end.

Definition probe (w : world) : Z * Z :=
  probe_loop (Z.to_nat max_ht_map_entries) (ht_map w) 0 (ht_idx w).

(** ** Argument conversion

    [shmht_open] declares [size_t i_capacity = 0] and hands its address to
    [PyArg_ParseTuple] under the format unit ["i"], which stores a C [int]:
    the low four bytes of the object (little-endian, eight-byte [size_t])
    receive the two's-complement image of the argument, the high four keep
    what they held. *)
Definition PyArg_store_int (obj v : Z) : Z :=
  Z.lor (Z.shiftl (Z.shiftr obj 32) 32) (Z.land v (Z.ones 32)).

(** The cast [(int)x] of a [size_t], as used for the [%d] of an error
    message. *)
Definition to_int (x : Z) : Z :=
  let r := Z.land x (Z.ones 32) in
  if r <? 2 ^ 31 then r else r - 2 ^ 32.

(** ** [shmht_open] *)

(** The label [create_failed]. *)
Definition create_failed (d p len : Z) (w : world) : outcome * world :=
  let w := if 0 <=? d then sys_close d (myunlock d w) else w in
  let w := if p =? NULL then w else snd (sys_munmap p len w) in
  (Returned None, w).

(** From [if (capacity == 0)] to the end of the function.  [d] is the
    descriptor, [size] is [buf.st_size], [len] the value of [mem_size] on
    entry. *)
Definition open_tail (os : faults) (d size force_init capacity len : Z)
    (w : world) : outcome * world :=
  if capacity =? 0 then
    create_failed d NULL len (PyErr_Format Err_capacity_required w)
  else
    let len := ht_memory_size capacity in
    if (size <? len) && lseek_fails os then
      create_failed d NULL len (PyErr_Format Err_lseek_failed w)
    else if (size <? len) && write_fails os then
      create_failed d NULL len (PyErr_Format Err_write_failed w)
    else
      let w := if size <? len then sys_extend d len w else w in
      let '(p, w) := sys_mmap (mmap_fails os) len d w in
      if p =? MAP_FAILED then
        create_failed d p len (PyErr_Format (Err_mmap_failed len) w)
      else
        match deref w p with
        | None => (Segfault, w)
        | Some (name, f) =>
            let w := poke name (ht_init (contents f) capacity force_init) (touch p w) in
            let '(count, idx) := probe w in
            let w := with_ht_idx idx w in
            if max_ht_map_entries <=? count then
              create_failed d p len (PyErr_Format Err_exceeded_max_ht_map_entries w)
            else
              let w :=
                with_ht_map
                  (<[Z.to_nat idx := {| fd := d; mem_size := len; ht := p |}]> (ht_map w)) w in
              let w := myunlock d w in
              (Returned (Some (PyInt idx)), w)
        end.

(** [arg_capacity] and [arg_force_init] are the C [int]s that
    [PyArg_ParseTuple] delivers (both [0] when the caller omits them). *)
Definition shmht_open (os : faults) (w : world) (name : string)
    (arg_capacity arg_force_init : Z) : outcome * world :=
  let capacity := PyArg_store_int 0 arg_capacity in
  let force_init := arg_force_init in
  let '(d, w) := sys_open (open_fails os) name w in
  if d <? 0 then (Returned None, PyErr_Format (Err_open_file_failed name) w)
  else
    let w := mylock d w in
    let size := sys_fstat_size d w in
    if force_init =? 0 then
      let len := sizeof_hashtable in
      if sizeof_hashtable <=? size then
        let '(p, w) := sys_mmap (mmap_header_fails os) sizeof_hashtable d w in
        if p =? MAP_FAILED then
          create_failed d p len (PyErr_Format (Err_mmap_header_failed len) w)
        else
          match deref w p with
          | None => (Segfault, w)
          | Some (_, f) =>
              let w := touch p w in
              if ht_is_valid (contents f) then
                if negb (capacity =? 0) && (orig_capacity (contents f) <? capacity) then
                  create_failed d p len
                    (PyErr_Format
                       (Err_smaller_capacity (to_int capacity)
                          (to_int (orig_capacity (contents f)))) w)
                else
                  let capacity := orig_capacity (contents f) in
                  let w := snd (sys_munmap p sizeof_hashtable w) in
                  open_tail os d size force_init capacity len w
              else
                let w := snd (sys_munmap p sizeof_hashtable w) in
                open_tail os d size force_init capacity len w
          end
      else open_tail os d size force_init capacity len w
    else open_tail os d size force_init capacity 0 w.

(** ** [shmht_close] *)

(** Modelled from the spec: [ht_destroy] is defined in [hashtable.c], which
    is not among the sources at hand.  Section 4.2, teardown: "returns
    current entry count as a diagnostic when a process detaches, performs
    no data mutation". *)
Definition ht_destroy (h : hashtable) : hashtable * Z := (h, entry_count h).

Definition shmht_close (w : world) (idx : Z) : outcome * world :=
  if bad_handle w idx then (Returned None, PyErr_Format (Err_invalid_ht_id idx) w)
  else
    let n := slot (ht_map w) idx in
    match deref w (ht n) with
    | None => (Segfault, w)
    | Some (name, f) =>
        let '(h, ref_cnt) := ht_destroy (contents f) in
        let w := poke name h (touch (ht n) w) in
        let '(rc, w) := sys_munmap (ht n) (mem_size n) w in
        let w := if rc =? 0 then w else PyErr_Format Err_munmap_failed w in
        let w := sys_close (fd n) w in
        let w := with_ht_map (<[Z.to_nat idx := zero_node]> (ht_map w)) w in
        (Returned (Some PyTrue), w)
    end.

(** ** [shmht_getval]

    [others] is what the other processes sharing the files do between this
    process's [myunlock] and its next statement; they cannot run while
    the lock is held. *)
Definition shmht_getval (others : gmap string file -> gmap string file)
    (w : world) (idx : Z) (key : bytes) : outcome * world :=
  if bad_handle w idx then (Returned None, PyErr_Format (Err_invalid_ht_id idx) w)
  else
    let n := slot (ht_map w) idx in
    let w := mylock (fd n) w in
    match deref w (ht n) with
    | None => (Segfault, w)
    | Some (_, f) =>
        let w := touch (ht n) w in
        match ht_get (contents f) key with
        | None =>
            let w := myunlock (fd n) w in
            (Returned (Some PyNone), w)
        | Some value =>
            let w := myunlock (fd n) w in
            let w := with_files (others (files w)) w in
            match deref w (ht n) with
            | None => (Segfault, w)
            | Some (_, f') =>
                (Returned (Some (PyString (ht_str_at (contents f') value))),
                 touch (ht n) w)
            end
        end
    end.

(** ** [shmht_setval] and [shmht_remove] *)

Definition shmht_setval (w : world) (idx : Z) (key value : bytes) : outcome * world :=
  if bad_handle w idx then (Returned None, PyErr_Format (Err_invalid_ht_id idx) w)
  else
    let n := slot (ht_map w) idx in
    let w := mylock (fd n) w in
    match deref w (ht n) with
    | None => (Segfault, w)
    | Some (name, f) =>
        let '(h, result) := ht_set (contents f) key value in
        let w := poke name h (touch (ht n) w) in
        let w := myunlock (fd n) w in
        if result then (Returned (Some PyTrue), w)
        else (Returned None, PyErr_Format (Err_insert_failed key) w)
    end.

Definition shmht_remove (w : world) (idx : Z) (key : bytes) : outcome * world :=
  if bad_handle w idx then (Returned None, PyErr_Format (Err_invalid_ht_id idx) w)
  else
    let n := slot (ht_map w) idx in
    let w := mylock (fd n) w in
    match deref w (ht n) with
    | None => (Segfault, w)
    | Some (name, f) =>
        let '(h, result) := ht_remove (contents f) key in
        let w := poke name h (touch (ht n) w) in
        let w := myunlock (fd n) w in
        if result then (Returned (Some PyTrue), w)
        else (Returned (Some PyFalse), w)
    end.

(** ** [shmht_foreach] *)

(** One turn of the [while] loop: [ht_iter_next] has delivered the pair
    [kv] of [ht_str] pointers; the strings are read, the argument tuple is
    built and [PyEval_CallObject(cb, arglist)] runs.  Its result is not
    looked at.  The visitor is a function of the two strings that returns
    or raises; a visitor that calls back into the module is not covered. *)
Definition visit (f : bytes -> bytes -> option pyexc) (p : Z) (h : hashtable)
    (w : world) (kv : Z * Z) : world :=
  let w := touch p w in
  let k := ht_str_at h (fst kv) in
  let v := ht_str_at h (snd kv) in
  let w := emit (EvCall k v) w in
  match f k v with
  | None => w
  | Some e => with_pyerr (Some e) w
  end.

(** [ht_get_iterator] allocates the cursor with [malloc] before the lock
    is taken; the last [ht_iter_next], which ends the loop, reads the
    region once more. *)
Definition shmht_foreach (w : world) (idx : Z) (cb : callback) : outcome * world :=
  if bad_handle w idx then (Returned None, PyErr_Format (Err_invalid_ht_id idx) w)
  else
    match cb with
    | NotCallable => (Returned None, PyErr_Format TypeError_not_callable w)
    | Callable f =>
        let n := slot (ht_map w) idx in
        let w := mylock (fd n) w in
        match deref w (ht n) with
        | None => (Segfault, w)
        | Some (_, file) =>
            let w :=
              fold_left (visit f (ht n) (contents file)) (ht_iterate (contents file)) w in
            let w := touch (ht n) w in
            let w := myunlock (fd n) w in
            (Returned (Some PyNone), w)
        end
    end.

End Binding.

(** ** Vocabulary for the statements *)

Section Describing.
Context `{E : Engine}.

(** The descriptor [open] hands out, the file it finds or creates, and
    the world once the lock on it has been taken. *)
Definition new_fd (w : world) : Z := lowest_free (size (fds w)) 0 (fds w).

Definition file_at (w : world) (name : string) : file :=
  default empty_file (files w !! name).

Definition entered (name : string) (w : world) : world :=
  mylock (new_fd w)
    (with_fds (<[new_fd w := name]> (fds w))
       (with_files (<[name := file_at w name]> (files w)) w)).

(** [w1] is [w] after [open] and [mylock], with the events [pre] logged
    since the lock was taken. *)
Record inside (name : string) (pre : list event) (w w1 : world) : Prop := {
  in_files : files w1 = <[name := file_at w name]> (files w);
  in_fds : fds w1 = <[new_fd w := name]> (fds w);
  in_maps : maps w1 = maps w;
  in_flocks : flocks w1 = {[new_fd w]} ∪ flocks w;
  in_ht_map : ht_map w1 = ht_map w;
  in_ht_idx : ht_idx w1 = ht_idx w;
  in_pyerr : pyerr w1 = pyerr w;
  in_log : log w1 = pre ++ EvFlock (new_fd w) LOCK_EX :: log w
}.

(** The file as [open_tail] leaves it once the region has been
    initialised: extended when it was shorter than the region, and
    handed to [ht_init]. *)
Definition initialised (f : file) (size force_init capacity : Z) : file :=
  {| st_size := if size <? ht_memory_size capacity
                then ht_memory_size capacity else st_size f;
     contents := ht_init (contents f) capacity force_init |}.

(** The two ways [shmht_open] ends once the region has been mapped and
    initialised with [capacity]: no slot found, or a slot filled. *)
Definition refused (name : string) (pre : list event) (force_init capacity : Z)
    (w : world) : world :=
  {| files := <[name := initialised (file_at w name) (st_size (file_at w name))
                          force_init capacity]> (files w);
     fds := fds w; maps := maps w;
     flocks := flocks w ∖ {[new_fd w]};
     ht_map := ht_map w; ht_idx := snd (probe w);
     pyerr := Some Err_exceeded_max_ht_map_entries;
     log := EvFlock (new_fd w) LOCK_UN :: EvAccess (unmapped_base (maps w))
              :: pre ++ EvFlock (new_fd w) LOCK_EX :: log w |}.

Definition attached (name : string) (pre : list event) (force_init capacity : Z)
    (w : world) : world :=
  {| files := <[name := initialised (file_at w name) (st_size (file_at w name))
                          force_init capacity]> (files w);
     fds := <[new_fd w := name]> (fds w);
     maps := <[unmapped_base (maps w) :=
                 {| m_file := name; m_len := ht_memory_size capacity |}]> (maps w);
     flocks := flocks w ∖ {[new_fd w]};
     ht_map :=
       <[Z.to_nat (snd (probe w)) :=
           {| fd := new_fd w; mem_size := ht_memory_size capacity;
              ht := unmapped_base (maps w) |}]> (ht_map w);
     ht_idx := snd (probe w); pyerr := pyerr w;
     log := EvFlock (new_fd w) LOCK_UN :: EvAccess (unmapped_base (maps w))
              :: pre ++ EvFlock (new_fd w) LOCK_EX :: log w |}.

Definition late (name : string) (pre : list event) (force_init capacity : Z)
    (w : world) : outcome * world :=
  if max_ht_map_entries <=? fst (probe w)
  then (Returned None, refused name pre force_init capacity w)
  else (Returned (Some (PyInt (snd (probe w)))), attached name pre force_init capacity w).

(** The errors [open_tail] can end with before the region is mapped. *)
Definition early (e : pyexc) : Prop :=
  e = Err_capacity_required \/ e = Err_lseek_failed \/ e = Err_write_failed \/
  exists n, e = Err_mmap_failed n.

(** A failure of [shmht_open] after the lock was taken and before the
    registry is searched: the error is not the registry's, and the
    registry is as it was. *)
Definition rejected (w : world) (pre : list event) (r : outcome * world) : Prop :=
  exists e w',
    r = (Returned None, w') /\ pyerr w' = Some e /\
    e <> Err_exceeded_max_ht_map_entries /\
    ht_map w' = ht_map w /\ ht_idx w' = ht_idx w /\ maps w' ⊆ maps w /\
    fds w' = fds w /\
    flocks w' = flocks w ∖ {[new_fd w]} /\
    log w' = EvFlock (new_fd w) LOCK_UN :: pre ++ EvFlock (new_fd w) LOCK_EX :: log w.

(** *** Lock discipline *)

Definition quiet (e : event) : Prop :=
  match e with EvFlock _ _ => False | _ => True end.

Definition on_descriptor (d : Z) (e : event) : Prop :=
  match e with EvFlock d' _ => d' = d | _ => True end.

(** What a call that went from [w] to [w'] did with the lock on [d]: it
    holds no lock at the end that was not held at the start; every [flock]
    it issued was on [d]; and either it logged nothing at all, or the
    first thing it logged was [flock(d, LOCK_EX)] and [d] is unlocked at
    the end. *)
Definition disciplined (d : Z) (w w' : world) : Prop :=
  flocks w' ⊆ flocks w /\
  exists t,
    log w' = t ++ log w /\
    Forall (on_descriptor d) t /\
    (t = [] \/ (last t = Some (EvFlock d LOCK_EX) /\ d ∉ flocks w')).

(** The visitor calls recorded in a log, and the pair of strings behind a
    pair of [ht_str] pointers. *)
Definition calls (l : list event) : list (bytes * bytes) :=
  omap (fun e => match e with EvCall k v => Some (k, v) | _ => None end) l.

Definition read_pair (h : hashtable) (kv : Z * Z) : bytes * bytes :=
  (ht_str_at h (fst kv), ht_str_at h (snd kv)).

End Describing.

(** ** A concrete engine

    Modelled from the spec: [hashtable.c] is not among the sources at hand.
    The table below follows sections 3, 4.1, 4.2 and 6 of the
    specification: a header (magic, capacity, entry count) and an arena of
    [capacity] slots, each with a state tag, a key blob and a value blob;
    open addressing with linear probing from [hash mod capacity];
    tombstones on removal; iteration in arena-index order.  The hash
    function, the magic constant and the two sizes are configuration
    constants the specification leaves open.  It serves as the engine at
    which the theorems are instantiated. *)
Module SpecTable.

Inductive tag := Empty | Occupied | Tombstone.

Record cell := { state : tag; key : bytes; value : bytes }.

(** The arena is kept sparse: an index without an entry is a zero-filled,
    hence empty, slot. *)
Record table := { magic : Z; capacity : Z; count : Z; arena : gmap Z cell }.

Definition MAGIC : Z := 1936223592.
Definition header_size : Z := 32.
Definition slot_size : Z := 64.

Definition empty_cell : cell := {| state := Empty; key := []; value := [] |}.

Definition zero_table : table :=
  {| magic := 0; capacity := 0; count := 0; arena := ∅ |}.

Definition at_index (t : table) (i : Z) : cell := default empty_cell (arena t !! i).

Definition is_valid (t : table) : bool := (magic t =? MAGIC) && (0 <? capacity t).

Definition memory_size (c : Z) : Z := header_size + c * slot_size.

Definition fresh_table (c : Z) : table :=
  {| magic := MAGIC; capacity := c; count := 0; arena := ∅ |}.

Definition init (t : table) (c force_init : Z) : table :=
  if negb (force_init =? 0) || negb (is_valid t) then fresh_table c else t.

Definition hash (k : bytes) : Z :=
  fold_right (fun b acc => Z.of_N (Byte.to_N b) + acc) 0 k.

Fixpoint same_bytes (a b : bytes) : bool :=
  match a, b with
  | [], [] => true
  | x :: a', y :: b' => Byte.eqb x y && same_bytes a' b'
  | _, _ => false
  end.

Fixpoint find_key (fuel : nat) (t : table) (k : bytes) (i : Z) : option Z :=
  match fuel with
  | O => None
  | S fuel' =>
      let c := at_index t i in
      match state c with
      | Empty => None
      | Occupied =>
          if same_bytes (key c) k then Some i
          else find_key fuel' t k ((i + 1) mod capacity t)
      | Tombstone => find_key fuel' t k ((i + 1) mod capacity t)
      end
  end.

Fixpoint find_free (fuel : nat) (t : table) (i : Z) : option Z :=
  match fuel with
  | O => None
  | S fuel' =>
      match state (at_index t i) with
      | Occupied => find_free fuel' t ((i + 1) mod capacity t)
      | _ => Some i
      end
  end.

Definition home (t : table) (k : bytes) : Z := hash k mod capacity t.

Definition locate (t : table) (k : bytes) : option Z :=
  find_key (Z.to_nat (capacity t)) t k (home t k).

Definition put (t : table) (i : Z) (c : cell) (n : Z) : table :=
  {| magic := magic t; capacity := capacity t; count := n;
     arena := <[i := c]> (arena t) |}.

(** The [ht_str] of the key of slot [i] sits at offset [2 * i], that of
    its value at [2 * i + 1]. *)
Definition get (t : table) (k : bytes) : option Z :=
  (fun i => 2 * i + 1) <$> locate t k.

Definition str_at (t : table) (p : Z) : bytes :=
  let c := at_index t (p / 2) in
  if Z.even p then key c else value c.

Definition set (t : table) (k v : bytes) : table * bool :=
  match locate t k with
  | Some i => (put t i {| state := Occupied; key := k; value := v |} (count t), true)
  | None =>
      match find_free (Z.to_nat (capacity t)) t (home t k) with
      | Some i =>
          (put t i {| state := Occupied; key := k; value := v |} (count t + 1), true)
      | None => (t, false)
      end
  end.

Definition remove (t : table) (k : bytes) : table * bool :=
  match locate t k with
  | Some i =>
      let c := at_index t i in
      (put t i {| state := Tombstone; key := key c; value := value c |} (count t - 1),
       true)
  | None => (t, false)
  end.

Definition iterate (t : table) : list (Z * Z) :=
  omap (fun i =>
          match state (at_index t i) with
          | Occupied => Some (2 * i, 2 * i + 1)
          | _ => None
          end)
       (seqZ 0 (capacity t)).

End SpecTable.

#[export] Instance spec_engine : Engine := {|
  hashtable := SpecTable.table;
  blank := SpecTable.zero_table;
  sizeof_hashtable := SpecTable.header_size;
  ht_is_valid := SpecTable.is_valid;
  orig_capacity := SpecTable.capacity;
  entry_count := SpecTable.count;
  ht_memory_size := SpecTable.memory_size;
  ht_init := SpecTable.init;
  ht_get := SpecTable.get;
  ht_str_at := SpecTable.str_at;
  ht_set := SpecTable.set;
  ht_remove := SpecTable.remove;
  ht_iterate := SpecTable.iterate
|}.

(** ** Sample runs *)
Module Sample.

Definition w0 : @world spec_engine := init_world ∅.

Definition after (r : outcome * @world spec_engine) : world := snd r.

(** [open("t.db", 4)], then four [setval]s. *)
Definition w_open : world := after (shmht_open no_faults w0 "t.db" 4 0).

Definition a : bytes := [Byte.x61].
Definition b : bytes := [Byte.x62].
Definition v1 : bytes := [Byte.x31].
Definition v2 : bytes := [Byte.x32].

Definition w_ab : world :=
  after (shmht_setval (after (shmht_setval w_open 0 a v1)) 0 b v2).

(** The table file of [w_ab]. *)
Definition f_ab : file := file_at w_ab "t.db".

(** A registry with [ht_idx = idx], the slots below [busy] taken and the
    slots from [from] on free, over the table file of [w_ab]. *)
Record registry_state (idx busy from : Z) (w : world) : Prop := {
  rs_idx : ht_idx w = idx;
  rs_len : length (ht_map w) = Z.to_nat max_ht_map_entries;
  rs_busy : forall j, 0 <= j < busy -> ht (slot (ht_map w) j) <> NULL;
  rs_free : forall j, from <= j < max_ht_map_entries -> ht (slot (ht_map w) j) = NULL;
  rs_file : files w !! "t.db" = Some f_ab
}.

(** [n] further [open]s of the same file with default arguments. *)
Fixpoint reopen (n : nat) (w : world) : world :=
  match n with
  | O => w
  | S n' => reopen n' (after (shmht_open no_faults w "t.db" 0 0))
  end.

(** Every one of the 2048 registry slots in use. *)
Definition w_full : world := reopen 2047 w_ab.

(** [n] times: [open] the file and [close] the handle just obtained. *)
Fixpoint churn (n : nat) (w : world) : world :=
  match n with
  | O => w
  | S n' =>
      let r := shmht_open no_faults w "t.db" 0 0 in
      match fst r with
      | Returned (Some (PyInt h)) => churn n' (after (shmht_close (snd r) h))
      | _ => snd r
      end
  end.

(** Handles 0..1023 open; then 1024 tables opened and closed again, one
    after the other.  Slots 1024..2047 are free and [ht_idx] is 2047. *)
Definition w_half : world := churn 1024 (reopen 1023 w_ab).

(** [w_ab] with its one handle closed. *)
Definition w_closed : world := after (shmht_close w_ab 0).

(** A visitor that raises on every entry. *)
Definition raise_always : bytes -> bytes -> option pyexc := fun _ _ => Some (Raised 1).

(** Another process storing [v1] under [b]. *)
Definition rival (fs : gmap string (@file spec_engine)) : gmap string file :=
  alter (fun f => {| st_size := st_size f; contents := fst (ht_set (contents f) b v1) |})
        "t.db" fs.

End Sample.

(** ** The registry against the process state *)

Section Invariants.
Context `{E : Engine}.

(** The registry and the process agree: the table has its
    [max_ht_map_entries] slots and [ht_idx] is [-1] or indexes one of
    them; a slot in use holds the base of a live region over an existing
    file and an open descriptor of that same file; no two slots in use
    share a region or a descriptor; nothing is mapped at [MAP_FAILED]. *)
Record registry_ok (w : world) : Prop := {
  ok_len : length (ht_map w) = Z.to_nat max_ht_map_entries;
  ok_idx : -1 <= ht_idx w < max_ht_map_entries;
  ok_failed : maps w !! MAP_FAILED = None;
  ok_live :
    forall i, 0 <= i < max_ht_map_entries ->
              ht (slot (ht_map w) i) <> NULL ->
              exists r f,
                maps w !! ht (slot (ht_map w) i) = Some r /\
                files w !! m_file r = Some f /\
                fds w !! fd (slot (ht_map w) i) = Some (m_file r);
  ok_apart :
    forall i j, 0 <= i < max_ht_map_entries -> 0 <= j < max_ht_map_entries ->
                i <> j ->
                ht (slot (ht_map w) i) <> NULL -> ht (slot (ht_map w) j) <> NULL ->
                ht (slot (ht_map w) i) <> ht (slot (ht_map w) j) /\
                fd (slot (ht_map w) i) <> fd (slot (ht_map w) j)
}.

(** No file disappears and none gets shorter. *)
Definition files_kept (fs fs' : gmap string file) : Prop :=
  forall n f, fs !! n = Some f ->
              exists f', fs' !! n = Some f' /\ st_size f <= st_size f'.

(** The events of a call that took the lock on [d] first, released it
    last, and issued no other [flock] in between. *)
Definition bracketed (d : Z) (t : list event) : Prop :=
  exists mid, t = EvFlock d LOCK_UN :: mid ++ [EvFlock d LOCK_EX] /\ Forall quiet mid.

(** The slot the search of [shmht_open] looks at in its [k]-th turn. *)
Definition probed (w : world) (k : Z) : Z := (ht_idx w + k) mod max_ht_map_entries.

(** [w'] differs from [w] in neither the registry, nor the address space,
    nor the descriptor table. *)
Definition same_process (w w' : world) : Prop :=
  ht_map w' = ht_map w /\ ht_idx w' = ht_idx w /\ maps w' = maps w /\ fds w' = fds w.

(** The region of handle [idx] is long enough for the table that [f]
    holds: [mem_size] is what [mmap] was given when the handle was
    opened, [ht_memory_size] what a table of that capacity takes. *)
Definition covers (w : world) (idx : Z) (f : file) : Prop :=
  ht_memory_size (orig_capacity (contents f)) <= mem_size (slot (ht_map w) idx).

(** Other processes that delete no file. *)
Definition keeps_files (others : gmap string file -> gmap string file) : Prop :=
  forall fs n, is_Some (fs !! n) -> is_Some (others fs !! n).

End Invariants.

(** Two handles on one file: [w_ab], then a second [open] of its table. *)
Module Shared.
Import Sample.

Definition w_two : world := after (shmht_open no_faults w_ab "t.db" 0 0).

End Shared.

(** * Properties *)

(** ** Arithmetic of the argument conversion *)

Lemma PyArg_store_int_fresh (v : Z) : PyArg_store_int 0 v = v mod 2 ^ 32.
Proof.
  unfold PyArg_store_int.
  rewrite Z.shiftr_0_l, Z.shiftl_0_l, Z.lor_0_l.
  apply Z.land_ones. lia.
Qed.

Lemma PyArg_store_int_negative (v : Z) :
  - 2 ^ 31 <= v < 0 -> PyArg_store_int 0 v = v + 2 ^ 32.
Proof.
  intros Hv. rewrite PyArg_store_int_fresh.
  symmetry. apply Z.mod_unique with (q := -1); lia.
Qed.

Section Facts.
Context `{E : Engine}.

(** ** System calls *)

Lemma lowest_free_ge (fuel : nat) (k : Z) (t : gmap Z string) :
  k <= lowest_free fuel k t.
Proof.
  revert k. induction fuel as [|fuel IH]; intros k; simpl; [lia|].
  destruct (t !! k); [|lia]. specialize (IH (k + 1)). lia.
Qed.

Lemma unmapped_base_ge (m : gmap Z mapping) : 4096 <= unmapped_base m.
Proof.
  unfold unmapped_base.
  apply (map_fold_weak_ind (fun acc _ => 4096 <= acc)); [lia|].
  intros a r m' acc _ Hacc. lia.
Qed.

Lemma probe_ext (w1 w2 : world) :
  ht_map w1 = ht_map w2 -> ht_idx w1 = ht_idx w2 -> probe w1 = probe w2.
Proof. unfold probe. intros -> ->. reflexivity. Qed.

End Facts.

Section Registry.
Context `{E : Engine}.

(** ** The search for a free registry slot *)

Lemma probe_loop_busy (fuel : nat) (m : list mapnode) :
  forall (n : nat) (count idx : Z),
    (n <= fuel)%nat ->
    max_ht_map_entries <= count + 2 * Z.of_nat n ->
    -1 <= idx < max_ht_map_entries ->
    (forall k, 1 <= k <= Z.of_nat n ->
               ht (slot m ((idx + k) mod max_ht_map_entries)) <> NULL) ->
    max_ht_map_entries <= fst (probe_loop fuel m count idx).
Proof.
  induction fuel as [|fuel IH]; intros n count idx Hn Hc Hi Hbusy; simpl.
  - assert (n = 0%nat) by lia. subst n. simpl in Hc. lia.
  - destruct (Z.ltb_spec count max_ht_map_entries) as [Hlt|Hge]; [|simpl; lia].
    assert (Hrem : Z.rem (idx + 1) max_ht_map_entries = (idx + 1) mod max_ht_map_entries).
    { apply Z.rem_mod_nonneg; unfold max_ht_map_entries in *; lia. }
    rewrite Hrem.
    destruct n as [|n]; [simpl in Hc; lia|].
    destruct (Z.eqb_spec (ht (slot m ((idx + 1) mod max_ht_map_entries))) NULL) as [Hfree|_].
    + exfalso. apply (Hbusy 1); [lia|exact Hfree].
    + apply (IH n); [lia|lia| |].
      * pose proof (Z.mod_pos_bound (idx + 1) max_ht_map_entries).
        unfold max_ht_map_entries in *. lia.
      * intros k Hk. rewrite Zplus_mod_idemp_l.
        replace (idx + 1 + k) with (idx + (1 + k)) by lia.
        apply Hbusy. lia.
Qed.

Lemma probe_loop_found (fuel : nat) (m : list mapnode) :
  forall (count idx : Z),
    max_ht_map_entries <= count + 2 * Z.of_nat fuel ->
    -1 <= idx < max_ht_map_entries ->
    fst (probe_loop fuel m count idx) < max_ht_map_entries ->
    ht (slot m (snd (probe_loop fuel m count idx))) = NULL /\
    0 <= snd (probe_loop fuel m count idx) < max_ht_map_entries.
Proof.
  induction fuel as [|fuel IH]; intros count idx Hc Hi; simpl.
  - intros Hlt. simpl in Hc. lia.
  - destruct (Z.ltb_spec count max_ht_map_entries) as [Hlt|Hge]; [|simpl; lia].
    assert (Hrem : Z.rem (idx + 1) max_ht_map_entries = (idx + 1) mod max_ht_map_entries).
    { apply Z.rem_mod_nonneg; unfold max_ht_map_entries in *; lia. }
    rewrite Hrem.
    pose proof (Z.mod_pos_bound (idx + 1) max_ht_map_entries) as Hb.
    destruct (Z.eqb_spec (ht (slot m ((idx + 1) mod max_ht_map_entries))) NULL) as [Hfree|_].
    + simpl. intros _. split; [exact Hfree|]. unfold max_ht_map_entries in *. lia.
    + apply IH; unfold max_ht_map_entries in *; lia.
Qed.

Lemma probe_loop_first_free (fuel : nat) (m : list mapnode) :
  forall (k : nat) (count idx : Z),
    (k <= fuel)%nat -> (1 <= k)%nat ->
    count + 2 * Z.of_nat k <= max_ht_map_entries ->
    -1 <= idx < max_ht_map_entries ->
    ht (slot m ((idx + Z.of_nat k) mod max_ht_map_entries)) = NULL ->
    fst (probe_loop fuel m count idx) < max_ht_map_entries.
Proof.
  induction fuel as [|fuel IH]; intros k count idx Hk H1 Hc Hi Hfree; simpl; [lia|].
  destruct (Z.ltb_spec count max_ht_map_entries) as [Hlt|Hge]; [|lia].
  assert (Hrem : Z.rem (idx + 1) max_ht_map_entries = (idx + 1) mod max_ht_map_entries).
  { apply Z.rem_mod_nonneg; unfold max_ht_map_entries in *; lia. }
  rewrite Hrem.
  destruct (Z.eqb_spec (ht (slot m ((idx + 1) mod max_ht_map_entries))) NULL) as [_|Hbusy].
  - simpl. lia.
  - destruct k as [|[|k]]; [lia| |].
    + exfalso. apply Hbusy. exact Hfree.
    + apply (IH (S k)); [lia|lia|lia| |].
      * pose proof (Z.mod_pos_bound (idx + 1) max_ht_map_entries).
        unfold max_ht_map_entries in *. lia.
      * rewrite Zplus_mod_idemp_l.
        replace (idx + 1 + Z.of_nat (S k)) with (idx + Z.of_nat (S (S k))) by lia.
        exact Hfree.
Qed.

(** The search looks at the [max_ht_map_entries / 2] slots that follow
    [ht_idx] and at no other. *)
Lemma probe_window_busy (w : world) :
  -1 <= ht_idx w < max_ht_map_entries ->
  (forall k, 1 <= k <= 1024 ->
             ht (slot (ht_map w) ((ht_idx w + k) mod max_ht_map_entries)) <> NULL) ->
  max_ht_map_entries <= fst (probe w).
Proof.
  intros Hi Hbusy. unfold probe.
  apply (probe_loop_busy _ _ 1024%nat); [vm_compute; lia| vm_compute; discriminate |exact Hi|].
  intros k Hk. apply Hbusy. lia.
Qed.

Lemma probe_window_free (w : world) (k : Z) :
  -1 <= ht_idx w < max_ht_map_entries ->
  1 <= k <= 1024 ->
  ht (slot (ht_map w) ((ht_idx w + k) mod max_ht_map_entries)) = NULL ->
  fst (probe w) < max_ht_map_entries /\
  ht (slot (ht_map w) (snd (probe w))) = NULL /\
  0 <= snd (probe w) < max_ht_map_entries.
Proof.
  intros Hi Hk Hfree.
  assert (Hlt : fst (probe w) < max_ht_map_entries).
  { unfold probe. apply (probe_loop_first_free _ _ (Z.to_nat k)).
    - unfold max_ht_map_entries. lia.
    - lia.
    - unfold max_ht_map_entries. lia.
    - exact Hi.
    - rewrite Z2Nat.id by lia. exact Hfree. }
  split; [exact Hlt|].
  unfold probe in *. apply probe_loop_found; [|exact Hi|exact Hlt].
  unfold max_ht_map_entries. lia.
Qed.

Lemma probe_all_busy (w : world) :
  -1 <= ht_idx w < max_ht_map_entries ->
  (forall i, 0 <= i < max_ht_map_entries -> ht (slot (ht_map w) i) <> NULL) ->
  max_ht_map_entries <= fst (probe w).
Proof.
  intros Hi Hbusy. apply probe_window_busy; [exact Hi|].
  intros k _. apply Hbusy. apply Z.mod_pos_bound. unfold max_ht_map_entries. lia.
Qed.

End Registry.

Section Handles.
Context `{E : Engine}.

(** ** Handles *)

Lemma bad_handle_true (w : world) (idx : Z) :
  bad_handle w idx = true <->
  idx < 0 \/ max_ht_map_entries <= idx \/ ht (slot (ht_map w) idx) = NULL.
Proof.
  unfold bad_handle. rewrite !orb_true_iff, Z.ltb_lt, Z.leb_le, Z.eqb_eq. tauto.
Qed.

Lemma bad_handle_false (w : world) (idx : Z) :
  bad_handle w idx = false <->
  0 <= idx < max_ht_map_entries /\ ht (slot (ht_map w) idx) <> NULL.
Proof.
  unfold bad_handle. rewrite !orb_false_iff, Z.ltb_ge, Z.leb_gt, Z.eqb_neq. tauto.
Qed.

Lemma slot_cleared (m : list mapnode) (idx : Z) :
  slot (<[Z.to_nat idx := zero_node]> m) idx = zero_node.
Proof.
  unfold slot.
  destruct (decide (Z.to_nat idx < length m)%nat) as [Hlt|Hge].
  - rewrite list_lookup_insert_eq by exact Hlt. reflexivity.
  - rewrite list_insert_ge by lia. rewrite lookup_ge_None_2 by lia. reflexivity.
Qed.

Lemma slot_other (m : list mapnode) (idx j : Z) (n : mapnode) :
  0 <= idx -> 0 <= j -> j <> idx ->
  slot (<[Z.to_nat idx := n]> m) j = slot m j.
Proof.
  intros Hi Hj Hne. unfold slot.
  rewrite list_lookup_insert_ne by lia. reflexivity.
Qed.

Lemma poke_same (name : string) (f : file) (w : world) :
  files w !! name = Some f -> files (poke name (contents f) w) = files w.
Proof.
  intros Hf. unfold poke. simpl. apply alter_id.
  intros x Hx. rewrite Hf in Hx. injection Hx as <-. destruct f; reflexivity.
Qed.

Lemma deref_file (w : world) (p : Z) (name : string) (f : file) :
  deref w p = Some (name, f) -> files w !! name = Some f.
Proof.
  unfold deref. intros H.
  destruct (maps w !! p) as [r|]; simpl in H; [|discriminate].
  destruct (files w !! m_file r) as [f'|] eqn:Hf; simpl in H; [|discriminate].
  injection H as <- <-. exact Hf.
Qed.

Lemma deref_mapped (w : world) (p : Z) (name : string) (f : file) :
  deref w p = Some (name, f) -> is_Some (maps w !! p).
Proof.
  unfold deref. intros H.
  destruct (maps w !! p) as [r|]; simpl in H; [eauto|discriminate].
Qed.

Lemma close_result (w : world) (idx : Z) (w' : world) :
  shmht_close w idx = (Returned (Some PyTrue), w') ->
  bad_handle w idx = false /\
  ht_map w' = <[Z.to_nat idx := zero_node]> (ht_map w).
Proof.
  unfold shmht_close.
  destruct (bad_handle w idx); [discriminate|].
  destruct (deref w (ht (slot (ht_map w) idx))) as [[name f]|]; [|discriminate].
  unfold ht_destroy, sys_munmap. simpl.
  destruct (maps w !! ht (slot (ht_map w) idx)); simpl;
    intros H; injection H as <-; split; reflexivity.
Qed.

End Handles.

(** C5.  An operation on a handle that is negative, beyond the registry
    bound, or whose slot is empty fails with "invalid ht id" and leaves the
    process and the files as they were (only the error indicator is set: no
    load or store through any pointer, no lock, no event).  A handle that has
    just been closed is such a handle, so a second [close], or any other
    operation on it, fails the same way. *)
Theorem invalid_handle_rejected `{E : Engine} (w : world) (idx : Z) :
  (idx < 0 \/ max_ht_map_entries <= idx \/ ht (slot (ht_map w) idx) = NULL) \/
  (exists w0, shmht_close w0 idx = (Returned (Some PyTrue), w)) ->
  let w' := with_pyerr (Some (Err_invalid_ht_id idx)) w in
  shmht_close w idx = (Returned None, w') /\
  (forall others key, shmht_getval others w idx key = (Returned None, w')) /\
  (forall key value, shmht_setval w idx key value = (Returned None, w')) /\
  (forall key, shmht_remove w idx key = (Returned None, w')) /\
  (forall cb, shmht_foreach w idx cb = (Returned None, w')) /\
  files w' = files w /\ maps w' = maps w /\ fds w' = fds w /\
  flocks w' = flocks w /\ ht_map w' = ht_map w /\ ht_idx w' = ht_idx w /\
  log w' = log w.
Proof.
  intros H w'.
  assert (Hbad : bad_handle w idx = true).
  { apply bad_handle_true. destruct H as [H|[w0 H]]; [exact H|].
    apply close_result in H. destruct H as [_ Hm].
    right; right. rewrite Hm, slot_cleared. reflexivity. }
  unfold shmht_close, shmht_getval, shmht_setval, shmht_remove, shmht_foreach.
  rewrite Hbad. repeat split.
Qed.

(** C6.  On a valid handle [close] returns [True]; it takes the segment
    out of the address space, closes its descriptor and zeroes that one
    registry slot, every other slot and [ht_idx] staying as they were.
    The files, their names, sizes and contents, are what they were
    before. *)
Theorem close_detaches_only `{E : Engine} (w : world) (idx : Z) :
  bad_handle w idx = false ->
  is_Some (deref w (ht (slot (ht_map w) idx))) ->
  exists w',
    shmht_close w idx = (Returned (Some PyTrue), w') /\
    files w' = files w /\
    maps w' = delete (ht (slot (ht_map w) idx)) (maps w) /\
    fds w' = delete (fd (slot (ht_map w) idx)) (fds w) /\
    ht_map w' = <[Z.to_nat idx := zero_node]> (ht_map w) /\
    (forall j, 0 <= j -> j <> idx -> slot (ht_map w') j = slot (ht_map w) j) /\
    ht_idx w' = ht_idx w.
Proof.
  intros Hok [[name f] Hd].
  pose proof (deref_file _ _ _ _ Hd) as Hf.
  destruct (deref_mapped _ _ _ _ Hd) as [r Hr].
  pose proof (proj1 (bad_handle_false _ _) Hok) as [Hrange _].
  unfold shmht_close. rewrite Hok, Hd.
  unfold ht_destroy, sys_munmap. simpl. rewrite Hr. simpl.
  eexists. split; [reflexivity|]. simpl.
  repeat split.
  - apply (poke_same name f (touch (ht (slot (ht_map w) idx)) w)). exact Hf.
  - intros j Hj Hne. apply slot_other; lia.
Qed.

Section Open.
Context `{E : Engine}.

(** ** [shmht_open], path by path *)

Lemma mapped_not_failed (m : gmap Z mapping) :
  (unmapped_base m =? MAP_FAILED) = false /\ (unmapped_base m =? NULL) = false.
Proof.
  pose proof (unmapped_base_ge m). unfold MAP_FAILED, NULL.
  split; apply Z.eqb_neq; lia.
Qed.

Lemma open_tail_zero (os : faults) (d size force_init len : Z) (w : world) :
  0 <= d ->
  open_tail os d size force_init 0 len w =
  (Returned None,
   sys_close d (myunlock d (PyErr_Format Err_capacity_required w))).
Proof.
  intros Hd. unfold open_tail, create_failed. simpl.
  destruct (Z.leb_spec 0 d); [reflexivity|lia].
Qed.

Lemma open_tail_run (os : faults) (d size force_init capacity len : Z)
    (w : world) (name : string) (f : file) :
  0 <= d -> capacity <> 0 ->
  fds w !! d = Some name -> files w !! name = Some f ->
  (size <? ht_memory_size capacity) && lseek_fails os = false ->
  (size <? ht_memory_size capacity) && write_fails os = false ->
  mmap_fails os = false ->
  let p := unmapped_base (maps w) in
  let r := {| m_file := name; m_len := ht_memory_size capacity |} in
  let fs := <[name := initialised f size force_init capacity]> (files w) in
  open_tail os d size force_init capacity len w =
  if max_ht_map_entries <=? fst (probe w) then
    (Returned None,
     {| files := fs; fds := delete d (fds w);
        maps := delete p (<[p := r]> (maps w));
        flocks := flocks w ∖ {[d]} ∖ {[d]};
        ht_map := ht_map w; ht_idx := snd (probe w);
        pyerr := Some Err_exceeded_max_ht_map_entries;
        log := EvFlock d LOCK_UN :: EvAccess p :: log w |})
  else
    (Returned (Some (PyInt (snd (probe w)))),
     {| files := fs; fds := fds w; maps := <[p := r]> (maps w);
        flocks := flocks w ∖ {[d]};
        ht_map :=
          <[Z.to_nat (snd (probe w)) :=
              {| fd := d; mem_size := ht_memory_size capacity; ht := p |}]> (ht_map w);
        ht_idx := snd (probe w); pyerr := pyerr w;
        log := EvFlock d LOCK_UN :: EvAccess p :: log w |}).
Proof.
  intros Hd Hcap Hfd Hf Hls Hwr Hmm p r fs.
  unfold open_tail.
  destruct (Z.eqb_spec capacity 0) as [|_]; [contradiction|].
  rewrite Hls, Hwr, Hmm.
  destruct (mapped_not_failed (maps w)) as [HnF HnN]. fold p in HnF, HnN.
  set (w1 := if size <? ht_memory_size capacity
             then sys_extend d (ht_memory_size capacity) w else w).
  assert (Hw1 : fds w1 = fds w /\ maps w1 = maps w /\ flocks w1 = flocks w /\
                ht_map w1 = ht_map w /\ ht_idx w1 = ht_idx w /\
                pyerr w1 = pyerr w /\ log w1 = log w /\
                files w1 !! name
                = Some {| st_size := st_size (initialised f size force_init capacity);
                          contents := contents f |}).
  { unfold w1, initialised, sys_extend. rewrite Hfd.
    destruct (size <? ht_memory_size capacity); simpl; repeat split.
    - apply lookup_alter_Some. eauto.
    - rewrite Hf. destruct f; reflexivity. }
  destruct Hw1 as (H1 & H2 & H3 & H4 & H5 & H6 & H7 & H8).
  assert (Hfs : <[name := initialised f size force_init capacity]> (files w1) = fs).
  { unfold fs, w1, sys_extend. rewrite Hfd.
    destruct (size <? ht_memory_size capacity); simpl; [|reflexivity].
    rewrite (alter_alt_Some _ _ _ _ Hf), insert_insert_eq. reflexivity. }
  clearbody w1.
  unfold sys_mmap. rewrite H1, Hfd, H2. fold p. rewrite HnF.
  unfold deref. cbn [maps files with_maps]. rewrite lookup_insert_eq.
  cbn [mbind option_bind m_file]. rewrite H8. cbn [mbind option_bind].
  match goal with |- context [probe ?x] => rewrite (probe_ext x w) by (cbn; assumption) end.
  destruct (probe w) as [c i]. cbn [fst snd].
  unfold create_failed. destruct (Z.leb_spec 0 d) as [_|]; [|lia]. rewrite HnN.
  unfold sys_munmap, sys_close, myunlock, PyErr_Format, poke, touch, emit.
  cbn [maps files fds flocks ht_map ht_idx pyerr log with_maps with_files with_fds
       with_flocks with_ht_map with_ht_idx with_pyerr contents st_size fst snd].
  rewrite lookup_insert_eq.
  cbn [maps files fds flocks ht_map ht_idx pyerr log with_maps with_files with_fds
       with_flocks with_ht_map with_ht_idx with_pyerr contents st_size fst snd].
  rewrite ?H1, ?H3, ?H4, ?H6, ?H7.
  rewrite (alter_alt_Some _ _ _ _ H8).
  match goal with
  | |- context [<[name := ?g]> (files w1)] =>
      change g with (initialised f size force_init capacity)
  end.
  rewrite Hfs.
  destruct (max_ht_map_entries <=? c); reflexivity.
Qed.

(** Every way out of [open_tail]. *)
Lemma open_tail_cases (os : faults) (d size force_init capacity len : Z)
    (w : world) (name : string) (f : file) :
  0 <= d -> fds w !! d = Some name -> files w !! name = Some f ->
  (exists e w',
      open_tail os d size force_init capacity len w = (Returned None, w') /\
      pyerr w' = Some e /\ early e /\
      ht_map w' = ht_map w /\ ht_idx w' = ht_idx w /\
      flocks w' = flocks w ∖ {[d]} ∖ {[d]} /\
      maps w' ⊆ maps w /\ fds w' = delete d (fds w) /\
      log w' = EvFlock d LOCK_UN :: log w) \/
  (capacity <> 0 /\
   (size <? ht_memory_size capacity) && lseek_fails os = false /\
   (size <? ht_memory_size capacity) && write_fails os = false /\
   mmap_fails os = false).
Proof.
  intros Hd Hfd Hf.
  destruct (Z.eqb_spec capacity 0) as [->|Hcap].
  { left. rewrite open_tail_zero by exact Hd.
    eexists _, _. split; [reflexivity|]. cbn.
    repeat split; try reflexivity. left; reflexivity. }
  destruct ((size <? ht_memory_size capacity) && lseek_fails os) eqn:Hls.
  { left. unfold open_tail. rewrite (proj2 (Z.eqb_neq _ _) Hcap), Hls.
    unfold create_failed. destruct (Z.leb_spec 0 d) as [_|]; [|lia]. cbn.
    eexists _, _. split; [reflexivity|]. cbn.
    repeat split; try reflexivity. right; left; reflexivity. }
  destruct ((size <? ht_memory_size capacity) && write_fails os) eqn:Hwr.
  { left. unfold open_tail. rewrite (proj2 (Z.eqb_neq _ _) Hcap), Hls, Hwr.
    unfold create_failed. destruct (Z.leb_spec 0 d) as [_|]; [|lia]. cbn.
    eexists _, _. split; [reflexivity|]. cbn.
    repeat split; try reflexivity. right; right; left; reflexivity. }
  destruct (mmap_fails os) eqn:Hmm; [|right; repeat split; assumption].
  left. unfold open_tail. rewrite (proj2 (Z.eqb_neq _ _) Hcap), Hls, Hwr.
  unfold sys_mmap. rewrite Hmm.
  change (MAP_FAILED =? MAP_FAILED) with true. cbv iota beta.
  unfold create_failed. destruct (Z.leb_spec 0 d) as [_|]; [|lia].
  change (MAP_FAILED =? NULL) with false. cbv iota.
  set (w1 := if size <? ht_memory_size capacity
             then sys_extend d (ht_memory_size capacity) w else w).
  assert (Hw1 : flocks w1 = flocks w /\ ht_map w1 = ht_map w /\
                ht_idx w1 = ht_idx w /\ log w1 = log w /\
                maps w1 = maps w /\ fds w1 = fds w).
  { unfold w1, sys_extend. rewrite Hfd.
    destruct (size <? ht_memory_size capacity); repeat split. }
  destruct Hw1 as (H3 & H4 & H5 & H7 & H8 & H9). clearbody w1.
  unfold sys_munmap.
  destruct (maps _ !! MAP_FAILED); cbn;
    (eexists _, _; split; [reflexivity|]; cbn; rewrite ?H3, ?H4, ?H5, ?H7, ?H8, ?H9;
     repeat split; [right; right; right; eexists; reflexivity|]).
  - apply delete_subseteq.
  - reflexivity.
Qed.

End Open.

Section Fresh.
Context `{E : Engine}.

Lemma lowest_free_unused (fuel : nat) (t : gmap Z string) :
  forall k : Z,
    (size (filter (fun x : Z => (k <= x)%Z) (dom t)) <= fuel)%nat ->
    t !! lowest_free fuel k t = None.
Proof.
  induction fuel as [|fuel IH]; intros k Hsize; simpl.
  - apply not_elem_of_dom. intros Hk.
    assert (Hin : k ∈ filter (fun x : Z => (k <= x)%Z) (dom t)).
    { apply elem_of_filter. split; [lia|exact Hk]. }
    assert (Hz : size (filter (fun x : Z => (k <= x)%Z) (dom t)) = 0%nat) by lia.
    apply size_empty_inv in Hz. set_solver.
  - destruct (t !! k) as [v|] eqn:Hk; [|exact Hk].
    apply IH.
    assert (Hsplit : filter (fun x : Z => (k <= x)%Z) (dom t)
                     = {[k]} ∪ filter (fun x : Z => (k + 1 <= x)%Z) (dom t)).
    { apply set_eq. intros x. rewrite elem_of_union, !elem_of_filter, elem_of_singleton.
      split.
      - intros [Hle Hx]. destruct (decide (x = k)); [left; assumption|right; split; [lia|exact Hx]].
      - intros [->|[Hle Hx]]; (split; [lia|]); [|exact Hx].
        apply elem_of_dom. eauto. }
    rewrite Hsplit, size_union, size_singleton in Hsize; [lia|].
    intros x Hx1 Hx2. apply elem_of_singleton in Hx1. subst x.
    apply elem_of_filter in Hx2. lia.
Qed.

Lemma new_fd_unused (t : gmap Z string) : t !! lowest_free (size t) 0 t = None.
Proof.
  apply lowest_free_unused. rewrite <- size_dom.
  apply subseteq_size. intros x Hx. apply elem_of_filter in Hx. tauto.
Qed.

Lemma unmapped_base_above (m : gmap Z mapping) (a : Z) :
  is_Some (m !! a) -> a < unmapped_base m.
Proof.
  unfold unmapped_base. revert a.
  apply (map_fold_weak_ind (fun acc m' => forall a, is_Some (m' !! a) -> a < acc)).
  - intros a [r Hr]. rewrite lookup_empty in Hr. discriminate.
  - intros i x m' acc Hi IH a Ha.
    destruct (decide (a = i)) as [->|Hne]; [lia|].
    rewrite lookup_insert_ne in Ha by congruence.
    specialize (IH a Ha). lia.
Qed.

Lemma unmapped_base_unused (m : gmap Z mapping) : m !! unmapped_base m = None.
Proof.
  destruct (m !! unmapped_base m) as [r|] eqn:Hr; [|reflexivity].
  pose proof (unmapped_base_above m (unmapped_base m) (ex_intro _ r Hr)). lia.
Qed.

End Fresh.

Section OpenPaths.
Context `{E : Engine}.

Lemma new_fd_nonneg (w : world) : 0 <= new_fd w.
Proof. apply lowest_free_ge. Qed.

Lemma entered_fd (name : string) (w : world) :
  fds (entered name w) !! new_fd w = Some name.
Proof. unfold entered. cbn. apply lookup_insert_eq. Qed.

Lemma entered_file (name : string) (w : world) :
  files (entered name w) !! name = Some (file_at w name).
Proof. unfold entered. cbn. apply lookup_insert_eq. Qed.

Lemma entered_size (name : string) (w : world) :
  sys_fstat_size (new_fd w) (entered name w) = st_size (file_at w name).
Proof.
  unfold sys_fstat_size. rewrite entered_fd. cbn [mbind option_bind].
  rewrite entered_file. reflexivity.
Qed.

Lemma entered_probe (name : string) (w : world) : probe (entered name w) = probe w.
Proof. apply probe_ext; reflexivity. Qed.

Lemma shmht_open_enter (os : faults) (w : world) (name : string) (c force_init : Z) :
  open_fails os = false ->
  shmht_open os w name c force_init =
  let capacity := PyArg_store_int 0 c in
  let d := new_fd w in
  let w1 := entered name w in
  let size := st_size (file_at w name) in
  if force_init =? 0 then
    if sizeof_hashtable <=? size then
      let '(p, w2) := sys_mmap (mmap_header_fails os) sizeof_hashtable d w1 in
      if p =? MAP_FAILED then
        create_failed d p sizeof_hashtable
          (PyErr_Format (Err_mmap_header_failed sizeof_hashtable) w2)
      else
        match deref w2 p with
        | None => (Segfault, w2)
        | Some (_, f) =>
            if ht_is_valid (contents f) then
              if negb (capacity =? 0) && (orig_capacity (contents f) <? capacity) then
                create_failed d p sizeof_hashtable
                  (PyErr_Format
                     (Err_smaller_capacity (to_int capacity)
                        (to_int (orig_capacity (contents f)))) (touch p w2))
              else
                open_tail os d size force_init (orig_capacity (contents f))
                  sizeof_hashtable (snd (sys_munmap p sizeof_hashtable (touch p w2)))
            else
              open_tail os d size force_init capacity sizeof_hashtable
                (snd (sys_munmap p sizeof_hashtable (touch p w2)))
        end
    else open_tail os d size force_init capacity sizeof_hashtable w1
  else open_tail os d size force_init capacity 0 w1.
Proof.
  intros Hop. unfold shmht_open, sys_open. rewrite Hop.
  fold (new_fd w). fold (file_at w name). fold (entered name w).
  pose proof (new_fd_nonneg w) as Hd.
  destruct (Z.ltb_spec (new_fd w) 0) as [|_]; [lia|].
  rewrite entered_size. reflexivity.
Qed.

(** Mapping the header and unmapping it again costs one access and leaves
    the address space as it was. *)
Lemma header_round_trip (name : string) (w : world) :
  let d := new_fd w in
  let p := unmapped_base (maps w) in
  sys_mmap false sizeof_hashtable d (entered name w)
  = (p, with_maps (<[p := {| m_file := name; m_len := sizeof_hashtable |}]> (maps w))
          (entered name w)) /\
  deref (with_maps (<[p := {| m_file := name; m_len := sizeof_hashtable |}]> (maps w))
           (entered name w)) p = Some (name, file_at w name) /\
  snd (sys_munmap p sizeof_hashtable
         (touch p (with_maps (<[p := {| m_file := name; m_len := sizeof_hashtable |}]> (maps w))
                     (entered name w))))
  = touch p (entered name w).
Proof.
  intros d p. unfold d. split; [|split].
  - unfold sys_mmap. rewrite entered_fd. reflexivity.
  - unfold deref. cbn [maps with_maps]. rewrite lookup_insert_eq.
    cbn [mbind option_bind m_file files with_maps]. rewrite entered_file. reflexivity.
  - unfold sys_munmap. cbn [maps with_maps touch emit]. rewrite lookup_insert_eq.
    cbn [snd]. unfold with_maps, touch, emit. cbn.
    rewrite delete_insert_id by apply unmapped_base_unused. reflexivity.
Qed.

End OpenPaths.

Section OpenCases.
Context `{E : Engine}.

Lemma inside_entered (name : string) (w : world) : inside name [] w (entered name w).
Proof. split; reflexivity. Qed.

Lemma inside_touch (name : string) (w : world) (p : Z) :
  inside name [EvAccess p] w (touch p (entered name w)).
Proof. split; reflexivity. Qed.

Lemma early_not_exceeded (e : pyexc) : early e -> e <> Err_exceeded_max_ht_map_entries.
Proof. intros [->|[->|[->|[n ->]]]]; discriminate. Qed.

Lemma unlock_twice (s : gset Z) (d : Z) : ({[d]} ∪ s) ∖ {[d]} ∖ {[d]} = s ∖ {[d]}.
Proof. set_solver. Qed.

Lemma unlock_once (s : gset Z) (d : Z) : ({[d]} ∪ s) ∖ {[d]} = s ∖ {[d]}.
Proof. set_solver. Qed.

Lemma open_tail_inside_run (os : faults) (force_init capacity len : Z)
    (name : string) (pre : list event) (w w1 : world) :
  inside name pre w w1 ->
  capacity <> 0 ->
  (st_size (file_at w name) <? ht_memory_size capacity) && lseek_fails os = false ->
  (st_size (file_at w name) <? ht_memory_size capacity) && write_fails os = false ->
  mmap_fails os = false ->
  open_tail os (new_fd w) (st_size (file_at w name)) force_init capacity len w1
  = late name pre force_init capacity w.
Proof.
  intros [Hfiles Hfds Hmaps Hflocks Hmap Hidx Herr Hlog] Hcap Hls Hwr Hmm.
  pose proof (new_fd_nonneg w) as Hd.
  assert (Hfd : fds w1 !! new_fd w = Some name)
    by (rewrite Hfds; apply lookup_insert_eq).
  assert (Hf : files w1 !! name = Some (file_at w name))
    by (rewrite Hfiles; apply lookup_insert_eq).
  rewrite (open_tail_run os _ _ _ _ _ _ name (file_at w name) Hd Hcap Hfd Hf Hls Hwr Hmm).
  rewrite (probe_ext w1 w Hmap Hidx).
  unfold late, refused, attached.
  rewrite Hfiles, Hfds, Hmaps, Hflocks, Hmap, Herr, Hlog.
  rewrite insert_insert_eq, unlock_twice, unlock_once.
  rewrite (delete_insert_id (fds w)) by apply new_fd_unused.
  rewrite (delete_insert_id (maps w)) by apply unmapped_base_unused.
  reflexivity.
Qed.

Lemma open_tail_inside (os : faults) (force_init capacity len : Z)
    (name : string) (pre : list event) (w w1 : world) :
  inside name pre w w1 ->
  let r := open_tail os (new_fd w) (st_size (file_at w name)) force_init capacity len w1 in
  rejected w pre r \/
  (capacity <> 0 /\ r = late name pre force_init capacity w).
Proof.
  intros Hin r.
  pose proof Hin as [Hfiles Hfds Hmaps Hflocks Hmap Hidx Herr Hlog].
  pose proof (new_fd_nonneg w) as Hd.
  assert (Hfd : fds w1 !! new_fd w = Some name)
    by (rewrite Hfds; apply lookup_insert_eq).
  assert (Hf : files w1 !! name = Some (file_at w name))
    by (rewrite Hfiles; apply lookup_insert_eq).
  destruct (open_tail_cases os (new_fd w) (st_size (file_at w name)) force_init
              capacity len w1 name (file_at w name) Hd Hfd Hf)
    as [(e & w' & Hr & He & Hearly & H1 & H2 & H3 & H4 & H5 & H6)
       |(Hcap & Hls & Hwr & Hmm)].
  - left. exists e, w'. split; [exact Hr|]. split; [exact He|].
    split; [apply early_not_exceeded; exact Hearly|].
    rewrite H1, H2, H3, H5, H6, Hmap, Hidx, Hflocks, Hlog, Hfds, unlock_twice.
    rewrite <- Hmaps.
    rewrite delete_insert_id by apply new_fd_unused.
    repeat split. exact H4.
  - right. split; [exact Hcap|].
    apply open_tail_inside_run; assumption.
Qed.

(** Every way out of [shmht_open]. *)
Lemma shmht_open_cases (os : faults) (w : world) (name : string) (c force_init : Z) :
  let r := shmht_open os w name c force_init in
  (open_fails os = true /\
   r = (Returned None, PyErr_Format (Err_open_file_failed name) w)) \/
  (open_fails os = false /\
   exists pre, (pre = [] \/ pre = [EvAccess (unmapped_base (maps w))]) /\
     (rejected w pre r \/
      exists capacity,
        capacity <> 0 /\
        (force_init <> 0 -> capacity = PyArg_store_int 0 c) /\
        r = late name pre force_init capacity w)).
Proof.
  intros r. destruct (open_fails os) eqn:Hop.
  { left. split; [reflexivity|]. unfold r, shmht_open, sys_open. rewrite Hop. reflexivity. }
  right. split; [reflexivity|].
  unfold r. rewrite (shmht_open_enter os w name c force_init Hop). cbv zeta.
  destruct (Z.eqb_spec force_init 0) as [Hf0|Hf1].
  2: { exists []. split; [left; reflexivity|].
       destruct (open_tail_inside os force_init (PyArg_store_int 0 c) 0 name [] w _
                   (inside_entered name w)) as [Hrej|[Hcap Hlate]].
       - left. exact Hrej.
       - right. eexists. split; [exact Hcap|]. split; [reflexivity|exact Hlate]. }
  destruct (sizeof_hashtable <=? st_size (file_at w name)).
  2: { exists []. split; [left; reflexivity|].
       destruct (open_tail_inside os force_init (PyArg_store_int 0 c) sizeof_hashtable
                   name [] w _ (inside_entered name w)) as [Hrej|[Hcap Hlate]].
       - left. exact Hrej.
       - right. eexists. split; [exact Hcap|]. split; [intros; reflexivity|exact Hlate]. }
  destruct (mmap_header_fails os) eqn:Hmh.
  { exists []. split; [left; reflexivity|]. left.
    unfold sys_mmap. change (MAP_FAILED =? MAP_FAILED) with true. cbv iota beta.
    unfold create_failed. destruct (Z.leb_spec 0 (new_fd w)) as [_|Hneg];
      [|pose proof (new_fd_nonneg w); lia].
    change (MAP_FAILED =? NULL) with false. cbv iota.
    unfold sys_munmap.
    destruct (maps _ !! MAP_FAILED); cbn;
      (eexists _, _; split; [reflexivity|]; cbn;
       rewrite unlock_twice, (delete_insert_id (fds w)) by apply new_fd_unused;
       repeat split; try discriminate; try reflexivity).
    apply delete_subseteq. }
  destruct (header_round_trip name w) as (Hmap & Hderef & Hunmap).
  rewrite Hmap. destruct (mapped_not_failed (maps w)) as [HnF HnN]. rewrite HnF, Hderef.
  exists [EvAccess (unmapped_base (maps w))]. split; [right; reflexivity|].
  destruct (ht_is_valid (contents (file_at w name))).
  - destruct (negb (PyArg_store_int 0 c =? 0) &&
              (orig_capacity (contents (file_at w name)) <? PyArg_store_int 0 c)).
    + left. unfold create_failed. destruct (Z.leb_spec 0 (new_fd w)) as [_|Hneg];
        [|pose proof (new_fd_nonneg w); lia].
      rewrite HnN. unfold sys_munmap. cbn [maps sys_close myunlock PyErr_Format touch
        emit with_maps with_pyerr with_flocks with_fds].
      rewrite lookup_insert_eq. cbn.
      eexists _, _. split; [reflexivity|]. cbn.
      rewrite unlock_twice.
      rewrite (delete_insert_id (fds w)) by apply new_fd_unused.
      rewrite (delete_insert_id (maps w)) by apply unmapped_base_unused.
      repeat split; try discriminate; try reflexivity.
    + rewrite Hunmap.
      destruct (open_tail_inside os force_init (orig_capacity (contents (file_at w name)))
                  sizeof_hashtable name _ w _ (inside_touch name w (unmapped_base (maps w))))
        as [Hrej|[Hcap Hlate]].
      * left. exact Hrej.
      * right. eexists. split; [exact Hcap|]. split; [intros; contradiction|exact Hlate].
  - rewrite Hunmap.
    destruct (open_tail_inside os force_init (PyArg_store_int 0 c)
                sizeof_hashtable name _ w _ (inside_touch name w (unmapped_base (maps w))))
      as [Hrej|[Hcap Hlate]].
    + left. exact Hrej.
    + right. eexists. split; [exact Hcap|]. split; [intros; reflexivity|exact Hlate].
Qed.

End OpenCases.

Section OpenClaims.
Context `{E : Engine}.

Lemma file_at_existing (w : world) (name : string) (f : file) :
  files w !! name = Some f -> file_at w name = f.
Proof. intros H. unfold file_at. rewrite H. reflexivity. Qed.

Lemma shmht_open_create (os : faults) (w : world) (name : string) (c force_init : Z) :
  open_fails os = false -> force_init <> 0 -> PyArg_store_int 0 c <> 0 ->
  lseek_fails os = false -> write_fails os = false -> mmap_fails os = false ->
  shmht_open os w name c force_init
  = late name [] force_init (PyArg_store_int 0 c) w.
Proof.
  intros Hop Hforce Hcap Hls Hwr Hmm.
  rewrite (shmht_open_enter os w name c force_init Hop). cbv zeta.
  destruct (Z.eqb_spec force_init 0) as [|_]; [contradiction|].
  apply open_tail_inside_run;
    [apply inside_entered|exact Hcap|rewrite Hls|rewrite Hwr|exact Hmm];
    apply andb_false_r.
Qed.

End OpenClaims.

Section Runs.
Context `{E : Engine}.

(** [open] without [force_init] on a valid table whose capacity the request
    does not exceed, the system calls succeeding. *)
Lemma reopen_run (os : faults) (w : world) (name : string) (c : Z) (f : file) :
  open_fails os = false -> mmap_header_fails os = false ->
  lseek_fails os = false -> write_fails os = false -> mmap_fails os = false ->
  files w !! name = Some f ->
  sizeof_hashtable <= st_size f ->
  ht_is_valid (contents f) = true ->
  orig_capacity (contents f) <> 0 ->
  ~ (PyArg_store_int 0 c <> 0 /\ orig_capacity (contents f) < PyArg_store_int 0 c) ->
  shmht_open os w name c 0
  = late name [EvAccess (unmapped_base (maps w))] 0 (orig_capacity (contents f)) w.
Proof.
  intros Hop Hmh Hls Hwr Hmm Hf Hsize Hvalid Hstored Hfit.
  pose proof (file_at_existing w name f Hf) as Hat. subst f.
  rewrite (shmht_open_enter os w name c 0 Hop). cbv zeta.
  change (0 =? 0) with true. cbv iota.
  destruct (Z.leb_spec sizeof_hashtable (st_size (file_at w name))) as [_|]; [|lia].
  rewrite Hmh.
  destruct (header_round_trip name w) as (Hmap & Hderef & Hunmap).
  rewrite Hmap. destruct (mapped_not_failed (maps w)) as [HnF HnN].
  rewrite HnF, Hderef, Hvalid, Hunmap.
  assert (Hcond : negb (PyArg_store_int 0 c =? 0) &&
                  (orig_capacity (contents (file_at w name)) <? PyArg_store_int 0 c)
                  = false).
  { destruct (Z.eqb_spec (PyArg_store_int 0 c) 0) as [|Hne]; [reflexivity|].
    destruct (Z.ltb_spec (orig_capacity (contents (file_at w name)))
                (PyArg_store_int 0 c)) as [Hlt|]; [|reflexivity].
    exfalso. apply Hfit. split; assumption. }
  rewrite Hcond.
  apply open_tail_inside_run;
    [apply inside_touch|exact Hstored|rewrite Hls|rewrite Hwr|exact Hmm];
    apply andb_false_r.
Qed.

(** [close] on a handle whose region is mapped. *)
Lemma close_run (w : world) (idx : Z) (name : string) (f : file) :
  bad_handle w idx = false ->
  deref w (ht (slot (ht_map w) idx)) = Some (name, f) ->
  shmht_close w idx
  = (Returned (Some PyTrue),
     {| files := files w;
        fds := delete (fd (slot (ht_map w) idx)) (fds w);
        maps := delete (ht (slot (ht_map w) idx)) (maps w);
        flocks := flocks w ∖ {[fd (slot (ht_map w) idx)]};
        ht_map := <[Z.to_nat idx := zero_node]> (ht_map w);
        ht_idx := ht_idx w; pyerr := pyerr w;
        log := EvAccess (ht (slot (ht_map w) idx)) :: log w |}).
Proof.
  intros Hok Hd.
  pose proof (deref_file _ _ _ _ Hd) as Hf.
  destruct (deref_mapped _ _ _ _ Hd) as [r Hr].
  unfold shmht_close. rewrite Hok, Hd.
  unfold ht_destroy, sys_munmap.
  cbn [maps poke touch emit with_files]. rewrite Hr.
  change (0 =? 0) with true. cbv iota.
  unfold sys_close, with_ht_map, with_flocks, with_fds, with_maps, poke, touch, emit,
    with_files.
  cbn [files fds maps flocks ht_map ht_idx pyerr log].
  rewrite alter_id; [reflexivity|].
  intros x Hx. rewrite Hf in Hx. injection Hx as <-. destruct f; reflexivity.
Qed.

(** One turn of the search when the slot after [ht_idx] is free. *)
Lemma probe_next_free (w : world) :
  0 <= ht_idx w + 1 < max_ht_map_entries ->
  ht (slot (ht_map w) (ht_idx w + 1)) = NULL ->
  probe w = (1, ht_idx w + 1).
Proof.
  intros Hi Hfree. unfold probe.
  destruct (Z.to_nat max_ht_map_entries) as [|fuel] eqn:Hfuel;
    [vm_compute in Hfuel; discriminate|].
  cbn [probe_loop]. change (0 <? max_ht_map_entries) with true. cbv iota.
  rewrite Z.rem_small by exact Hi. cbv zeta.
  rewrite Hfree. change (NULL =? NULL) with true. reflexivity.
Qed.

End Runs.

(** C7.  When a table has to be created -- [force_init] is set, or the
    file is too short to hold a header, or the header was mapped and is
    not valid -- and the requested capacity is zero, [open] returns [NULL]
    with "please specify 'capacity'".  Nothing is left behind: the
    registry and [ht_idx] are untouched, no region stays mapped, the
    descriptor is closed again and the lock on it is gone.  (The file
    exists afterwards, empty if it had to be created; no existing file
    is changed.) *)
Theorem create_needs_capacity `{E : Engine} (os : faults) (w : world)
    (name : string) (force_init : Z) :
  open_fails os = false ->
  force_init <> 0 \/
  st_size (file_at w name) < sizeof_hashtable \/
  (mmap_header_fails os = false /\
   ht_is_valid (contents (file_at w name)) = false) ->
  exists w',
    shmht_open os w name 0 force_init = (Returned None, w') /\
    pyerr w' = Some Err_capacity_required /\
    ht_map w' = ht_map w /\ ht_idx w' = ht_idx w /\
    maps w' = maps w /\ fds w' = fds w /\
    (new_fd w ∉ flocks w') /\
    files w' = <[name := file_at w name]> (files w).
Proof.
  intros Hop Hnew.
  rewrite (shmht_open_enter os w name 0 force_init Hop). cbv zeta.
  change (PyArg_store_int 0 0) with 0.
  pose proof (new_fd_nonneg w) as Hd.
  assert (Hend : forall len pre w1, inside name pre w w1 ->
            exists w',
              open_tail os (new_fd w) (st_size (file_at w name)) force_init 0 len w1
              = (Returned None, w') /\
              pyerr w' = Some Err_capacity_required /\
              ht_map w' = ht_map w /\ ht_idx w' = ht_idx w /\
              maps w' = maps w /\ fds w' = fds w /\
              (new_fd w ∉ flocks w') /\
              files w' = <[name := file_at w name]> (files w)).
  { intros len pre w1 [Hfiles Hfds Hmaps Hflocks Hmap Hidx Herr Hlog].
    rewrite open_tail_zero by exact Hd.
    eexists. split; [reflexivity|]. cbn.
    rewrite Hfds, Hflocks, delete_insert_id by apply new_fd_unused.
    repeat split; try assumption. set_solver. }
  destruct (Z.eqb_spec force_init 0) as [Hf0|Hf1];
    [|apply (Hend 0 [] _ (inside_entered name w))].
  destruct (Z.leb_spec sizeof_hashtable (st_size (file_at w name))) as [Hbig|Hsmall];
    [|apply (Hend _ [] _ (inside_entered name w))].
  destruct Hnew as [Hnew|[Hnew|[Hmh Hinvalid]]]; [contradiction|lia|].
  rewrite Hmh.
  destruct (header_round_trip name w) as (Hmap & Hderef & Hunmap).
  rewrite Hmap. destruct (mapped_not_failed (maps w)) as [HnF _].
  rewrite HnF, Hderef, Hinvalid, Hunmap.
  apply (Hend _ _ _ (inside_touch name w _)).
Qed.

(** C1 (amended).  [open] without [force_init] on a file that holds a
    valid header: a non-zero request above the stored capacity is refused
    with "file has smaller capacity than requested", nothing being
    changed.  Any other request is ignored in favour of the stored
    capacity: the region is sized and initialised from it, and, the system
    calls succeeding, [open] returns the handle the registry search finds
    when it finds one and fails with "exceeded max_ht_map_entries" when it
    finds none. *)
Theorem reopen_keeps_stored_capacity `{E : Engine} (os : faults) (w : world)
    (name : string) (c : Z) (f : file) :
  open_fails os = false ->
  mmap_header_fails os = false ->
  files w !! name = Some f ->
  sizeof_hashtable <= st_size f ->
  ht_is_valid (contents f) = true ->
  orig_capacity (contents f) <> 0 ->
  let stored := orig_capacity (contents f) in
  let requested := PyArg_store_int 0 c in
  let p := unmapped_base (maps w) in
  (requested <> 0 /\ stored < requested ->
   exists w',
     shmht_open os w name c 0 = (Returned None, w') /\
     pyerr w' = Some (Err_smaller_capacity (to_int requested) (to_int stored)) /\
     files w' = files w /\ maps w' = maps w /\ fds w' = fds w /\
     ht_map w' = ht_map w /\ ht_idx w' = ht_idx w) /\
  (~ (requested <> 0 /\ stored < requested) ->
   lseek_fails os = false -> write_fails os = false -> mmap_fails os = false ->
   (fst (probe w) < max_ht_map_entries ->
    shmht_open os w name c 0
    = (Returned (Some (PyInt (snd (probe w)))),
       attached name [EvAccess p] 0 stored w)) /\
   (max_ht_map_entries <= fst (probe w) ->
    shmht_open os w name c 0
    = (Returned None, refused name [EvAccess p] 0 stored w))).
Proof.
  intros Hop Hmh Hf Hsize Hvalid Hstored stored requested p. split.
  - intros [Hreq Hlt].
    pose proof (file_at_existing w name f Hf) as Hat. subst f.
    rewrite (shmht_open_enter os w name c 0 Hop). cbv zeta.
    change (0 =? 0) with true. cbv iota.
    destruct (Z.leb_spec sizeof_hashtable (st_size (file_at w name))) as [_|]; [|lia].
    rewrite Hmh.
    destruct (header_round_trip name w) as (Hmap & Hderef & Hunmap).
    rewrite Hmap. destruct (mapped_not_failed (maps w)) as [HnF HnN].
    rewrite HnF, Hderef, Hvalid.
    fold stored requested p.
    destruct (Z.eqb_spec requested 0) as [|_]; [contradiction|].
    destruct (Z.ltb_spec stored requested) as [_|]; [|lia].
    cbn [negb andb].
    unfold create_failed.
    pose proof (new_fd_nonneg w).
    destruct (Z.leb_spec 0 (new_fd w)) as [_|]; [|lia].
    fold p in HnN. rewrite HnN. unfold sys_munmap.
    cbn [maps sys_close myunlock PyErr_Format touch emit with_maps with_pyerr
         with_flocks with_fds].
    rewrite lookup_insert_eq. cbn.
    eexists. split; [reflexivity|]. cbn.
    rewrite (delete_insert_id (fds w)) by apply new_fd_unused.
    rewrite (delete_insert_id (maps w)) by apply unmapped_base_unused.
    rewrite (insert_id _ _ _ Hf).
    repeat split.
  - intros Hfit Hls Hwr Hmm.
    rewrite (reopen_run os w name c f Hop Hmh Hls Hwr Hmm Hf Hsize Hvalid Hstored Hfit).
    fold stored p. unfold late. split; intros Hprobe.
    + destruct (Z.leb_spec max_ht_map_entries (fst (probe w))); [lia|reflexivity].
    + destruct (Z.leb_spec max_ht_map_entries (fst (probe w))); [reflexivity|lia].
Qed.

(** C8.  Whenever [open] returns [NULL] with "exceeded
    max_ht_map_entries", the file has already been extended to the size the
    capacity asks for and handed to [ht_init] with the caller's
    [force_init]: that is what the file holds afterwards.  With
    [force_init] set the capacity is the requested one.  The registry
    slots, the address space and the descriptor table are back to what
    they were; the file is not. *)
Theorem failed_open_keeps_file_changes `{E : Engine} (os : faults) (w : world)
    (name : string) (c force_init : Z) (w' : world) :
  shmht_open os w name c force_init = (Returned None, w') ->
  pyerr w' = Some Err_exceeded_max_ht_map_entries ->
  exists capacity,
    capacity <> 0 /\
    (force_init <> 0 -> capacity = PyArg_store_int 0 c) /\
    files w' !! name
    = Some (initialised (file_at w name) (st_size (file_at w name)) force_init capacity) /\
    ht_map w' = ht_map w /\ maps w' = maps w /\ fds w' = fds w.
Proof.
  intros Hret Herr.
  destruct (shmht_open_cases os w name c force_init)
    as [[_ Hfail]|[_ (pre & _ & [Hrej|(capacity & Hcap & Hforce & Hlate)])]];
    cbv zeta in *; rewrite Hret in *.
  - injection Hfail as ->. cbn in Herr. discriminate.
  - destruct Hrej as (e & w'' & Heq & He & Hne & _).
    injection Heq as <-. rewrite Herr in He. injection He as <-. contradiction.
  - exists capacity. split; [exact Hcap|]. split; [exact Hforce|].
    unfold late in Hlate.
    destruct (max_ht_map_entries <=? fst (probe w)); [|discriminate].
    injection Hlate as ->. cbn.
    rewrite lookup_insert_eq. repeat split.
Qed.

Section CapacityPaths.
Context `{E : Engine}.

(** The paths of [shmht_open] on which the capacity is the caller's:
    [force_init] set, a file shorter than a header, a header that is not
    valid. *)
Lemma shmht_open_new (os : faults) (w : world) (name : string) (c force_init : Z) :
  open_fails os = false ->
  force_init <> 0 \/
  st_size (file_at w name) < sizeof_hashtable \/
  (mmap_header_fails os = false /\
   ht_is_valid (contents (file_at w name)) = false) ->
  exists len pre w1,
    (pre = [] \/ pre = [EvAccess (unmapped_base (maps w))]) /\
    inside name pre w w1 /\
    shmht_open os w name c force_init
    = open_tail os (new_fd w) (st_size (file_at w name)) force_init
        (PyArg_store_int 0 c) len w1.
Proof.
  intros Hop Hnew.
  rewrite (shmht_open_enter os w name c force_init Hop). cbv zeta.
  destruct (Z.eqb_spec force_init 0) as [Hf0|Hf1].
  2: { exists 0, [], (entered name w).
       split; [left; reflexivity|]. split; [apply inside_entered|reflexivity]. }
  destruct (Z.leb_spec sizeof_hashtable (st_size (file_at w name))) as [Hbig|Hsmall].
  2: { exists sizeof_hashtable, [], (entered name w).
       split; [left; reflexivity|]. split; [apply inside_entered|reflexivity]. }
  destruct Hnew as [Hnew|[Hnew|[Hmh Hinvalid]]]; [contradiction|lia|].
  rewrite Hmh.
  destruct (header_round_trip name w) as (Hmap & Hderef & Hunmap).
  rewrite Hmap. destruct (mapped_not_failed (maps w)) as [HnF _].
  rewrite HnF, Hderef, Hinvalid, Hunmap.
  exists sizeof_hashtable, [EvAccess (unmapped_base (maps w))],
    (touch (unmapped_base (maps w)) (entered name w)).
  split; [right; reflexivity|]. split; [apply inside_touch|reflexivity].
Qed.

(** [open] without [force_init] on a valid table, header mapped. *)
Lemma shmht_open_valid (os : faults) (w : world) (name : string) (c : Z) :
  open_fails os = false -> mmap_header_fails os = false ->
  sizeof_hashtable <= st_size (file_at w name) ->
  ht_is_valid (contents (file_at w name)) = true ->
  let capacity := PyArg_store_int 0 c in
  let stored := orig_capacity (contents (file_at w name)) in
  let d := new_fd w in
  let p := unmapped_base (maps w) in
  let w2 := with_maps (<[p := {| m_file := name; m_len := sizeof_hashtable |}]> (maps w))
              (entered name w) in
  shmht_open os w name c 0
  = if negb (capacity =? 0) && (stored <? capacity) then
      create_failed d p sizeof_hashtable
        (PyErr_Format (Err_smaller_capacity (to_int capacity) (to_int stored))
           (touch p w2))
    else
      open_tail os d (st_size (file_at w name)) 0 stored sizeof_hashtable
        (touch p (entered name w)).
Proof.
  intros Hop Hmh Hsize Hvalid capacity stored d p w2.
  rewrite (shmht_open_enter os w name c 0 Hop). cbv zeta.
  change (0 =? 0) with true. cbv iota.
  destruct (Z.leb_spec sizeof_hashtable (st_size (file_at w name))) as [_|]; [|lia].
  rewrite Hmh.
  destruct (header_round_trip name w) as (Hmap & Hderef & Hunmap).
  rewrite Hmap. destruct (mapped_not_failed (maps w)) as [HnF HnN].
  rewrite HnF, Hderef, Hvalid, Hunmap. reflexivity.
Qed.

(** The failure label after the header has been mapped: everything the
    call set up is undone, the file it may have created stays. *)
Lemma header_refused (name : string) (e : pyexc) (w : world) :
  let d := new_fd w in
  let p := unmapped_base (maps w) in
  let w2 := with_maps (<[p := {| m_file := name; m_len := sizeof_hashtable |}]> (maps w))
              (entered name w) in
  exists w',
    create_failed d p sizeof_hashtable (PyErr_Format e (touch p w2)) = (Returned None, w') /\
    pyerr w' = Some e /\
    files w' = <[name := file_at w name]> (files w) /\
    maps w' = maps w /\ fds w' = fds w /\
    ht_map w' = ht_map w /\ ht_idx w' = ht_idx w.
Proof.
  intros d p w2. unfold create_failed.
  pose proof (new_fd_nonneg w).
  destruct (Z.leb_spec 0 d) as [_|]; [|unfold d in *; lia].
  destruct (mapped_not_failed (maps w)) as [_ HnN]. fold p in HnN. rewrite HnN.
  unfold sys_munmap, w2.
  cbn [maps sys_close myunlock PyErr_Format touch emit with_maps with_pyerr
       with_flocks with_fds entered mylock with_files].
  rewrite lookup_insert_eq. cbn.
  eexists. split; [reflexivity|]. cbn.
  rewrite (delete_insert_id (fds w)) by apply new_fd_unused.
  rewrite (delete_insert_id (maps w)) by apply unmapped_base_unused.
  repeat split.
Qed.

Lemma late_cases (name : string) (pre : list event) (force_init capacity : Z)
    (w : world) (r : outcome * world) :
  r = late name pre force_init capacity w ->
  (fst (probe w) < max_ht_map_entries ->
   r = (Returned (Some (PyInt (snd (probe w)))),
        attached name pre force_init capacity w)) /\
  (max_ht_map_entries <= fst (probe w) ->
   r = (Returned None, refused name pre force_init capacity w)).
Proof.
  intros ->. unfold late. split; intros Hprobe.
  - destruct (Z.leb_spec max_ht_map_entries (fst (probe w))); [lia|reflexivity].
  - destruct (Z.leb_spec max_ht_map_entries (fst (probe w))); [reflexivity|lia].
Qed.

Lemma wrapped_capacity (c : Z) :
  - 2 ^ 31 <= c < 0 ->
  PyArg_store_int 0 c = c + 2 ^ 32 /\ to_int (c + 2 ^ 32) = c.
Proof.
  intros Hc. split; [apply PyArg_store_int_negative; exact Hc|].
  unfold to_int. rewrite Z.land_ones by lia.
  rewrite Z.mod_small by lia. cbv zeta.
  destruct (Z.ltb_spec (c + 2 ^ 32) (2 ^ 31)); lia.
Qed.

End CapacityPaths.

(** C10 (amended).  A negative capacity argument [c] reaches the code as
    the unsigned value [c + 2^32], and [open] never turns it down for
    being negative.  Where the capacity is the caller's -- [force_init]
    set, or a file shorter than a header, or a header that is not valid --
    the value passes the "please specify 'capacity'" test and is the
    capacity the region is sized by ([ht_memory_size (c + 2^32)]) and the
    table initialised with; the call then ends as the registry search
    decides.  On a valid table opened without [force_init] the value is
    compared, as that large number, with the stored capacity: when it is
    larger [open] returns [NULL] with "file has smaller capacity than
    requested (req c, ...)" and maps nothing; otherwise it is dropped in
    favour of the stored capacity. *)
Theorem negative_capacity_wraps `{E : Engine} (os : faults) (w : world)
    (name : string) (c force_init : Z) :
  - 2 ^ 31 <= c < 0 ->
  open_fails os = false ->
  let requested := c + 2 ^ 32 in
  let f := file_at w name in
  let p := unmapped_base (maps w) in
  let proceeds (pre : list event) (capacity : Z) :=
    lseek_fails os = false -> write_fails os = false -> mmap_fails os = false ->
    (fst (probe w) < max_ht_map_entries ->
     shmht_open os w name c force_init
     = (Returned (Some (PyInt (snd (probe w)))),
        attached name pre force_init capacity w)) /\
    (max_ht_map_entries <= fst (probe w) ->
     shmht_open os w name c force_init
     = (Returned None, refused name pre force_init capacity w)) in
  (force_init <> 0 \/ st_size f < sizeof_hashtable \/
   (mmap_header_fails os = false /\ ht_is_valid (contents f) = false) ->
   exists pre, (pre = [] \/ pre = [EvAccess p]) /\ proceeds pre requested) /\
  (force_init = 0 -> sizeof_hashtable <= st_size f ->
   mmap_header_fails os = false -> ht_is_valid (contents f) = true ->
   let stored := orig_capacity (contents f) in
   (stored < requested ->
    exists w',
      shmht_open os w name c force_init = (Returned None, w') /\
      pyerr w' = Some (Err_smaller_capacity c (to_int stored)) /\
      files w' = <[name := f]> (files w) /\
      maps w' = maps w /\ fds w' = fds w /\
      ht_map w' = ht_map w /\ ht_idx w' = ht_idx w) /\
   (requested <= stored -> proceeds [EvAccess p] stored)).
Proof.
  intros Hc Hop requested f p proceeds.
  destruct (wrapped_capacity c Hc) as [Hwrap Hback]. fold requested in Hwrap, Hback.
  split.
  - intros Hnew.
    destruct (shmht_open_new os w name c force_init Hop Hnew)
      as (len & pre & w1 & Hpre & Hin & Hrun).
    exists pre. split; [exact Hpre|]. intros Hls Hwr Hmm.
    apply late_cases. rewrite Hrun, Hwrap.
    apply open_tail_inside_run;
      [exact Hin|unfold requested; lia|rewrite Hls|rewrite Hwr|exact Hmm];
      apply andb_false_r.
  - intros -> Hsize Hmh Hvalid stored.
    pose proof (shmht_open_valid os w name c Hop Hmh Hsize Hvalid) as Hrun.
    cbv zeta in Hrun. rewrite Hwrap in Hrun. fold f stored p in Hrun.
    destruct (Z.eqb_spec requested 0) as [H0|_]; [unfold requested in H0; lia|].
    cbn [negb andb] in Hrun. split.
    + intros Hlt. destruct (Z.ltb_spec stored requested) as [_|]; [|lia].
      rewrite Hrun, Hback. apply header_refused.
    + intros Hle Hls Hwr Hmm. destruct (Z.ltb_spec stored requested) as [|_]; [lia|].
      apply late_cases. rewrite Hrun.
      apply open_tail_inside_run;
        [apply inside_touch|unfold requested in Hle; lia|rewrite Hls|rewrite Hwr|exact Hmm];
        apply andb_false_r.
Qed.

Section Traces.
Context `{E : Engine}.

Lemma quiet_on_descriptor (d : Z) (t : list event) :
  Forall quiet t -> Forall (on_descriptor d) t.
Proof.
  intros H. eapply Forall_impl; [exact H|].
  intros [d' op|p|k v]; simpl; [contradiction|trivial|trivial].
Qed.

Lemma deref_ext (w1 w2 : world) (p : Z) :
  maps w1 = maps w2 -> files w1 = files w2 -> deref w1 p = deref w2 p.
Proof. unfold deref. intros -> ->. reflexivity. Qed.

Lemma visit_fields (f : bytes -> bytes -> option pyexc) (p : Z) (h : hashtable)
    (w : world) (kv : Z * Z) :
  let w' := visit f p h w kv in
  log w' = EvCall (fst (read_pair h kv)) (snd (read_pair h kv)) :: EvAccess p :: log w /\
  flocks w' = flocks w /\ files w' = files w /\ maps w' = maps w /\
  fds w' = fds w /\ ht_map w' = ht_map w /\ ht_idx w' = ht_idx w /\
  (f (fst (read_pair h kv)) (snd (read_pair h kv)) = None -> pyerr w' = pyerr w) /\
  (forall e, f (fst (read_pair h kv)) (snd (read_pair h kv)) = Some e -> pyerr w' = Some e).
Proof.
  unfold visit, read_pair. cbn.
  destruct (f (ht_str_at h (fst kv)) (ht_str_at h (snd kv))); cbn;
    repeat split; congruence.
Qed.

Lemma visits_fields (f : bytes -> bytes -> option pyexc) (p : Z) (h : hashtable)
    (entries : list (Z * Z)) :
  forall w : world,
    let w' := fold_left (visit f p h) entries w in
    (exists t, log w' = t ++ log w /\ Forall quiet t /\
               calls t = rev (map (read_pair h) entries)) /\
    flocks w' = flocks w /\ files w' = files w /\ maps w' = maps w /\
    fds w' = fds w /\ ht_map w' = ht_map w /\ ht_idx w' = ht_idx w /\
    (is_Some (pyerr w) \/
     Exists (fun kv => f (fst kv) (snd kv) <> None) (map (read_pair h) entries) ->
     is_Some (pyerr w')).
Proof.
  induction entries as [|kv entries IH]; intros w; cbn [fold_left map].
  - split; [exists []; repeat split; constructor|].
    repeat split. intros [H|H]; [exact H|inversion H].
  - destruct (visit_fields f p h w kv) as (Hl & H1 & H2 & H3 & H4 & H5 & H6 & H7 & H8).
    destruct (IH (visit f p h w kv)) as ((t & Ht & Hq & Hc) & G1 & G2 & G3 & G4 & G5 & G6 & G7).
    split.
    + exists (t ++ [EvCall (fst (read_pair h kv)) (snd (read_pair h kv)); EvAccess p]).
      rewrite Ht, Hl, <- app_assoc. split; [reflexivity|]. split.
      * apply Forall_app. split; [exact Hq|]. repeat constructor.
      * unfold calls in *. rewrite omap_app, Hc. cbn [rev omap]. reflexivity.
    + rewrite G1, G2, G3, G4, G5, G6, H1, H2, H3, H4, H5, H6.
      repeat split. intros Hraise. apply G7.
      destruct Hraise as [Hset|Hex].
      * left. destruct (f (fst (read_pair h kv)) (snd (read_pair h kv))) as [e|] eqn:Hf.
        -- rewrite (H8 e eq_refl). eauto.
        -- rewrite (H7 eq_refl). exact Hset.
      * apply Exists_cons in Hex. destruct Hex as [Hhere|Hlater]; [|right; exact Hlater].
        left. destruct (f (fst (read_pair h kv)) (snd (read_pair h kv))) as [e|] eqn:Hf.
        -- rewrite (H8 e eq_refl). eauto.
        -- contradiction.
Qed.

Lemma foreach_run (w : world) (idx : Z) (f : bytes -> bytes -> option pyexc)
    (name : string) (file : file) :
  bad_handle w idx = false ->
  deref w (ht (slot (ht_map w) idx)) = Some (name, file) ->
  let n := slot (ht_map w) idx in
  exists w' t,
    shmht_foreach w idx (Callable f) = (Returned (Some PyNone), w') /\
    log w' = EvFlock (fd n) LOCK_UN :: EvAccess (ht n) :: t
               ++ EvFlock (fd n) LOCK_EX :: log w /\
    Forall quiet t /\
    calls t = rev (map (read_pair (contents file)) (ht_iterate (contents file))) /\
    flocks w' = ({[fd n]} ∪ flocks w) ∖ {[fd n]} /\
    files w' = files w /\
    (Exists (fun kv => f (fst kv) (snd kv) <> None)
            (map (read_pair (contents file)) (ht_iterate (contents file))) ->
     is_Some (pyerr w')).
Proof.
  intros Hok Hd n. unfold shmht_foreach. rewrite Hok. fold n.
  rewrite (deref_ext (mylock (fd n) w) w) by reflexivity. fold n in Hd. rewrite Hd.
  destruct (visits_fields f (ht n) (contents file) (ht_iterate (contents file))
              (mylock (fd n) w))
    as ((t & Ht & Hq & Hc) & G1 & G2 & G3 & G4 & G5 & G6 & G7).
  eexists _, t. split; [reflexivity|]. cbn. rewrite Ht, G1, G2. cbn.
  repeat split; try assumption.
  intros Hex. apply G7. right. exact Hex.
Qed.

End Traces.

(** C3.  [foreach] on a valid handle with a callable visitor returns
    [None] -- never [NULL] -- whatever the visitor does: the result of
    [PyEval_CallObject] is not looked at, so after a visit that raises the
    loop goes on to the remaining entries (all of them are visited, in
    order) and the exception stays behind in the error indicator.  The
    lock is released before the return. *)
Theorem foreach_ignores_raise `{E : Engine} (w : world) (idx : Z)
    (f : bytes -> bytes -> option pyexc) (name : string) (file : file) :
  bad_handle w idx = false ->
  deref w (ht (slot (ht_map w) idx)) = Some (name, file) ->
  let n := slot (ht_map w) idx in
  let entries := map (read_pair (contents file)) (ht_iterate (contents file)) in
  exists w',
    shmht_foreach w idx (Callable f) = (Returned (Some PyNone), w') /\
    calls (log w') = rev entries ++ calls (log w) /\
    (fd n ∉ flocks w') /\
    (Exists (fun kv => f (fst kv) (snd kv) <> None) entries -> is_Some (pyerr w')).
Proof.
  intros Hok Hd n entries.
  destruct (foreach_run w idx f name file Hok Hd)
    as (w' & t & Hrun & Hlog & Hq & Hc & Hfl & _ & Herr).
  exists w'. split; [exact Hrun|]. split; [|split; [|exact Herr]].
  - rewrite Hlog. unfold calls in *.
    change (omap ?g (?a :: ?b :: ?l)) with (omap g l).
    rewrite omap_app, Hc. reflexivity.
  - rewrite Hfl. set_solver.
Qed.

Section Locks.
Context `{E : Engine}.

Lemma disciplined_idle (d : Z) (w w' : world) :
  flocks w' = flocks w -> log w' = log w -> disciplined d w w'.
Proof.
  intros Hf Hl. split; [rewrite Hf; reflexivity|].
  exists []. split; [exact Hl|]. split; [constructor|left; reflexivity].
Qed.

Lemma disciplined_bracket (d : Z) (w w' : world) (t : list event) :
  flocks w' = ({[d]} ∪ flocks w) ∖ {[d]} ->
  log w' = t ++ EvFlock d LOCK_EX :: log w ->
  Forall (on_descriptor d) t ->
  disciplined d w w'.
Proof.
  intros Hf Hl Ht. split; [rewrite Hf; set_solver|].
  exists (t ++ [EvFlock d LOCK_EX]). split; [|split].
  - rewrite Hl, <- app_assoc. reflexivity.
  - apply Forall_app. split; [exact Ht|]. repeat constructor.
  - right. split; [apply last_snoc|]. rewrite Hf. set_solver.
Qed.

Lemma open_disciplined (os : faults) (w : world) (name : string) (c force_init : Z) :
  exists r, fst (shmht_open os w name c force_init) = Returned r /\
            disciplined (new_fd w) w (snd (shmht_open os w name c force_init)).
Proof.
  destruct (shmht_open_cases os w name c force_init)
    as [[_ Hfail]|[_ (pre & Hpre & [Hrej|(capacity & _ & _ & Hlate)])]];
    cbv zeta in *.
  - rewrite Hfail. eexists. split; [reflexivity|].
    apply disciplined_idle; reflexivity.
  - destruct Hrej as (e & w' & Heq & _ & _ & _ & _ & _ & _ & Hfl & Hlog).
    rewrite Heq. eexists. split; [reflexivity|]. cbn [snd].
    apply (disciplined_bracket _ _ _ (EvFlock (new_fd w) LOCK_UN :: pre)).
    + rewrite Hfl, unlock_once. reflexivity.
    + exact Hlog.
    + destruct Hpre as [->| ->]; repeat constructor.
  - rewrite Hlate. unfold late.
    destruct (max_ht_map_entries <=? fst (probe w)); (eexists; split; [reflexivity|]);
      cbn [snd];
      apply (disciplined_bracket _ _ _
               (EvFlock (new_fd w) LOCK_UN :: EvAccess (unmapped_base (maps w)) :: pre));
      try (cbn; rewrite unlock_once; reflexivity);
      try reflexivity;
      destruct Hpre as [->| ->]; repeat constructor.
Qed.

End Locks.

(** C4.  [getval] touches the mapping without the lock.  On a hit the
    lookup is made in a state that holds the lock on the segment's
    descriptor; [myunlock] then releases it; and the bytes of the value
    are read from the region in the state after the release, in which
    the lock is not held and the other processes have had their turn.
    What [getval] returns is what that unguarded read finds. *)
Theorem getval_reads_mapping_unlocked `{E : Engine}
    (others : gmap string file -> gmap string file) (w : world) (idx : Z)
    (key : bytes) (name name' : string) (f f' : file) (value : Z) :
  bad_handle w idx = false ->
  let n := slot (ht_map w) idx in
  deref w (ht n) = Some (name, f) ->
  ht_get (contents f) key = Some value ->
  deref (with_files (others (files w)) w) (ht n) = Some (name', f') ->
  exists w_in w_out,
    w_in = touch (ht n) (mylock (fd n) w) /\
    (fd n ∈ flocks w_in) /\
    w_out = with_files (others (files w)) (myunlock (fd n) w_in) /\
    (fd n ∉ flocks w_out) /\
    shmht_getval others w idx key
    = (Returned (Some (PyString (ht_str_at (contents f') value))),
       touch (ht n) w_out).
Proof.
  intros Hok n Hd Hget Hd'.
  exists (touch (ht n) (mylock (fd n) w)).
  exists (with_files (others (files w))
            (myunlock (fd n) (touch (ht n) (mylock (fd n) w)))).
  split; [reflexivity|].
  split; [cbn [touch mylock emit with_flocks flocks];
          apply elem_of_union_l, elem_of_singleton; reflexivity|].
  split; [reflexivity|].
  split.
  { cbn [touch mylock myunlock emit with_flocks with_files flocks].
    intros Hin. apply elem_of_difference in Hin. destruct Hin as [_ Hin].
    apply Hin, elem_of_singleton. reflexivity. }
  unfold shmht_getval. rewrite Hok. fold n. cbv zeta.
  rewrite (deref_ext (mylock (fd n) w) w) by reflexivity. rewrite Hd, Hget.
  match goal with
  | |- context [deref ?x (ht n)] =>
      rewrite (deref_ext x (with_files (others (files w)) w)) by reflexivity
  end.
  rewrite Hd'. reflexivity.
Qed.

(** C9.  On a hit, [getval] logs, in this order: lock, the lookup,
    unlock, and only then the read of the value's bytes.  What it returns
    is what the region holds at that last read, after whatever the other
    processes did once the lock was free -- not what it held while the
    lock was on. *)
Theorem getval_copies_after_unlock `{E : Engine}
    (others : gmap string file -> gmap string file) (w : world) (idx : Z)
    (key : bytes) (name name' : string) (f f' : file) (value : Z) :
  bad_handle w idx = false ->
  let n := slot (ht_map w) idx in
  deref w (ht n) = Some (name, f) ->
  ht_get (contents f) key = Some value ->
  deref (with_files (others (files w)) w) (ht n) = Some (name', f') ->
  exists w',
    shmht_getval others w idx key
    = (Returned (Some (PyString (ht_str_at (contents f') value))), w') /\
    log w' = EvAccess (ht n) :: EvFlock (fd n) LOCK_UN :: EvAccess (ht n)
               :: EvFlock (fd n) LOCK_EX :: log w /\
    files w' = others (files w) /\
    (fd n ∉ flocks w').
Proof.
  intros Hok n Hd Hget Hd'. unfold shmht_getval. rewrite Hok. fold n.
  rewrite (deref_ext (mylock (fd n) w) w) by reflexivity. rewrite Hd, Hget.
  match goal with
  | |- context [deref ?x (ht n)] =>
      rewrite (deref_ext x (with_files (others (files w)) w)) by reflexivity
  end.
  rewrite Hd'. eexists. split; [reflexivity|]. cbn.
  repeat split. set_solver.
Qed.

(** ** The claims at concrete inputs *)

Import Sample.

(** An equation between closed terms, decided by evaluating both sides. *)
Ltac by_evaluation :=
  match goal with
  | |- @eq ?T _ ?r => vm_cast_no_check (@eq_refl T r)
  end.

(** Whatever the other half of the registry holds, [open] returns [NULL]
    when the [max_ht_map_entries / 2] slots after [ht_idx] are taken. *)
Lemma open_with_busy_window `{E : Engine} (os : faults) (w : world)
    (name : string) (c force_init : Z) :
  -1 <= ht_idx w < max_ht_map_entries ->
  (forall k, 1 <= k <= 1024 ->
             ht (slot (ht_map w) ((ht_idx w + k) mod max_ht_map_entries)) <> NULL) ->
  exists w', shmht_open os w name c force_init = (Returned None, w').
Proof.
  intros Hi Hbusy. pose proof (probe_window_busy w Hi Hbusy) as Hprobe.
  destruct (shmht_open_cases os w name c force_init)
    as [[_ Hfail]|[_ (pre & _ & [Hrej|(capacity & _ & _ & Hlate)])]];
    cbv zeta in *.
  - eexists. exact Hfail.
  - destruct Hrej as (e & w' & Heq & _). eexists. exact Heq.
  - rewrite Hlate. unfold late.
    destruct (Z.leb_spec max_ht_map_entries (fst (probe w))); [|lia].
    eexists. reflexivity.
Qed.

(** *** The registry after many [open]s *)

Lemma f_ab_facts :
  sizeof_hashtable <= st_size f_ab /\
  ht_is_valid (contents f_ab) = true /\
  orig_capacity (contents f_ab) = 4 /\
  initialised f_ab (st_size f_ab) 0 4 = f_ab.
Proof. vm_compute. repeat split. discriminate. Qed.

Lemma slot_stored (m : list mapnode) (i : Z) (n : mapnode) :
  (Z.to_nat i < length m)%nat -> slot (<[Z.to_nat i := n]> m) i = n.
Proof. intros H. unfold slot. rewrite list_lookup_insert_eq by exact H. reflexivity. Qed.

Lemma w_ab_state : registry_state 0 1 1 w_ab.
Proof.
  assert (Hmap : ht_map w_ab
                 = <[0%nat := {| fd := 0; mem_size := 288; ht := 4096 |}]>
                     (replicate (Z.to_nat max_ht_map_entries) zero_node))
    by by_evaluation.
  split.
  - by_evaluation.
  - rewrite Hmap, length_insert, length_replicate. reflexivity.
  - intros j Hj. assert (j = 0) as -> by lia. rewrite Hmap.
    change 0%nat with (Z.to_nat 0). rewrite slot_stored.
    + discriminate.
    + rewrite length_replicate. vm_compute. lia.
  - intros j Hj. rewrite Hmap. change 0%nat with (Z.to_nat 0).
    rewrite slot_other by lia. unfold slot.
    rewrite lookup_replicate_2 by (unfold max_ht_map_entries in *; lia). reflexivity.
  - vm_compute. reflexivity.
Qed.

(** Reopening the table takes the slot after [ht_idx] when it is free. *)
Lemma reopen_step (i busy from : Z) (w : world) :
  registry_state i busy from w ->
  0 <= i + 1 < max_ht_map_entries ->
  ht (slot (ht_map w) (i + 1)) = NULL ->
  shmht_open no_faults w "t.db" 0 0
  = (Returned (Some (PyInt (i + 1))),
     attached "t.db" [EvAccess (unmapped_base (maps w))] 0 4 w) /\
  ht_idx (attached "t.db" [EvAccess (unmapped_base (maps w))] 0 4 w) = i + 1 /\
  ht_map (attached "t.db" [EvAccess (unmapped_base (maps w))] 0 4 w)
  = <[Z.to_nat (i + 1) :=
        {| fd := new_fd w; mem_size := ht_memory_size 4;
           ht := unmapped_base (maps w) |}]> (ht_map w) /\
  files (attached "t.db" [EvAccess (unmapped_base (maps w))] 0 4 w) !! "t.db"
  = Some f_ab.
Proof.
  intros [Hidx Hlen Hbusy Hfree Hfile] Hi Hnext.
  destruct f_ab_facts as (Hsize & Hvalid & Hcap & Hinit).
  assert (Hprobe : probe w = (1, i + 1)).
  { rewrite <- Hidx in *. apply probe_next_free; assumption. }
  rewrite (reopen_run no_faults w "t.db" 0 f_ab eq_refl eq_refl eq_refl eq_refl eq_refl
             Hfile Hsize Hvalid);
    [|rewrite Hcap; discriminate|intros [Hne _]; apply Hne; reflexivity].
  rewrite Hcap. unfold late. rewrite Hprobe.
  change (max_ht_map_entries <=? fst (1, i + 1)) with false. cbv iota.
  cbn [snd]. split; [reflexivity|].
  unfold attached. cbn [ht_idx ht_map files]. rewrite Hprobe. cbn [snd].
  split; [reflexivity|]. split; [reflexivity|].
  rewrite (file_at_existing w "t.db" f_ab Hfile), Hinit.
  apply lookup_insert_eq.
Qed.

Lemma reopen_fills (n : nat) :
  forall (i : Z) (w : world),
    registry_state (i - 1) i i w -> 1 <= i ->
    i + Z.of_nat n <= max_ht_map_entries ->
    registry_state (i + Z.of_nat n - 1) (i + Z.of_nat n) (i + Z.of_nat n) (reopen n w).
Proof.
  induction n as [|n IH]; intros i w Hst Hi Hn.
  - cbn [reopen]. replace (i + Z.of_nat 0) with i by lia. exact Hst.
  - cbn [reopen].
    pose proof Hst as [Hidx Hlen Hbusy Hfree Hfile].
    assert (Hnext : ht (slot (ht_map w) (i - 1 + 1)) = NULL)
      by (apply Hfree; lia).
    destruct (reopen_step (i - 1) i i w Hst ltac:(lia) Hnext)
      as (Hrun & Hidx' & Hmap' & Hfile').
    unfold after. rewrite Hrun. cbn [snd].
    replace (i + Z.of_nat (S n)) with ((i + 1) + Z.of_nat n) by lia.
    apply IH; [|lia|lia].
    replace (i - 1 + 1) with i in * by lia.
    split.
    + rewrite Hidx'. lia.
    + rewrite Hmap', length_insert. exact Hlen.
    + intros j Hj. rewrite Hmap'.
      destruct (decide (j = i)) as [->|Hne].
      * rewrite slot_stored by (rewrite Hlen; unfold max_ht_map_entries in *; lia).
        cbn [ht]. pose proof (unmapped_base_ge (maps w)). unfold NULL. lia.
      * rewrite slot_other by lia. apply Hbusy. lia.
    + intros j Hj. rewrite Hmap', slot_other by lia. apply Hfree. lia.
    + exact Hfile'.
Qed.

Lemma w_full_state : registry_state 2047 2048 2048 w_full.
Proof. exact (reopen_fills 2047 1 w_ab w_ab_state ltac:(lia) ltac:(vm_compute; discriminate)). Qed.

Lemma churn_keeps (n : nat) :
  forall (j : Z) (w : world),
    registry_state j 1024 1024 w -> 1023 <= j ->
    j + Z.of_nat n < max_ht_map_entries ->
    registry_state (j + Z.of_nat n) 1024 1024 (churn n w).
Proof.
  induction n as [|n IH]; intros j w Hst Hj Hn.
  - cbn [churn]. replace (j + Z.of_nat 0) with j by lia. exact Hst.
  - cbn [churn].
    pose proof Hst as [Hidx Hlen Hbusy Hfree Hfile].
    assert (Hrange : 0 <= j + 1 < max_ht_map_entries) by lia.
    assert (Hnext : ht (slot (ht_map w) (j + 1)) = NULL)
      by (apply Hfree; unfold max_ht_map_entries in *; lia).
    destruct (reopen_step j 1024 1024 w Hst Hrange Hnext)
      as (Hrun & Hidx' & Hmap' & Hfile').
    rewrite Hrun. cbn [fst snd].
    set (w1 := attached "t.db" [EvAccess (unmapped_base (maps w))] 0 4 w) in *.
    assert (Hslot : slot (ht_map w1) (j + 1)
                    = {| fd := new_fd w; mem_size := ht_memory_size 4;
                         ht := unmapped_base (maps w) |}).
    { rewrite Hmap'. apply slot_stored. rewrite Hlen.
      unfold max_ht_map_entries in *. lia. }
    assert (Hok : bad_handle w1 (j + 1) = false).
    { apply bad_handle_false. split; [exact Hrange|]. rewrite Hslot. cbn [ht].
      pose proof (unmapped_base_ge (maps w)). unfold NULL. lia. }
    assert (Hd : deref w1 (ht (slot (ht_map w1) (j + 1))) = Some ("t.db", f_ab)).
    { rewrite Hslot. cbn [ht]. unfold deref.
      assert (Hm : maps w1 !! unmapped_base (maps w)
                   = Some {| m_file := "t.db"; m_len := ht_memory_size 4 |})
        by apply lookup_insert_eq.
      rewrite Hm. cbn [mbind option_bind m_file]. rewrite Hfile'. reflexivity. }
    unfold after. rewrite (close_run w1 (j + 1) "t.db" f_ab Hok Hd). cbn [snd].
    replace (j + Z.of_nat (S n)) with ((j + 1) + Z.of_nat n) by lia.
    apply IH; [|lia|lia].
    split; cbn [ht_idx ht_map files].
    + exact Hidx'.
    + rewrite length_insert, Hmap', length_insert. exact Hlen.
    + intros i Hi. rewrite Hmap', !slot_other by lia. apply Hbusy. exact Hi.
    + intros i Hi. destruct (decide (i = j + 1)) as [->|Hne].
      * rewrite slot_cleared. reflexivity.
      * rewrite Hmap', !slot_other by lia. apply Hfree. exact Hi.
    + exact Hfile'.
Qed.

Lemma w_half_state : registry_state 2047 1024 1024 w_half.
Proof.
  unfold w_half.
  change 2047 with (1023 + Z.of_nat 1024).
  apply churn_keeps; [|lia|vm_compute; reflexivity].
  change 1023 with (1 + Z.of_nat 1023 - 1).
  change 1024 with (1 + Z.of_nat 1023).
  apply (reopen_fills 1023 1 w_ab w_ab_state); [lia|vm_compute; discriminate].
Qed.

Lemma reopen_refused (w : world) :
  files w !! "t.db" = Some f_ab ->
  max_ht_map_entries <= fst (probe w) ->
  shmht_open no_faults w "t.db" 0 0
  = (Returned None, refused "t.db" [EvAccess (unmapped_base (maps w))] 0 4 w).
Proof.
  intros Hfile Hprobe.
  destruct f_ab_facts as (Hsize & Hvalid & Hcap & _).
  rewrite (reopen_run no_faults w "t.db" 0 f_ab eq_refl eq_refl eq_refl eq_refl eq_refl
             Hfile Hsize Hvalid);
    [|rewrite Hcap; discriminate|intros [Hne _]; apply Hne; reflexivity].
  rewrite Hcap. unfold late.
  destruct (Z.leb_spec max_ht_map_entries (fst (probe w))); [reflexivity|lia].
Qed.

(** C2.  In [w_half] the process holds 1024 handles, slots 0..1023; the
    other 1024 slots, 1024..2047, are free, and [ht_idx] is 2047.  The
    search advances [count] twice per turn, looks at slots 0..1023 only and
    gives up: [open] returns [NULL] with "exceeded max_ht_map_entries",
    with half of the registry free. *)
Theorem search_gives_up_with_free_slots :
  let r := shmht_open no_faults w_half "t.db" 0 0 in
  ht_idx w_half = 2047 /\
  Forall (fun i => ht (slot (ht_map w_half) i) <> NULL) (seqZ 0 1024) /\
  Forall (fun i => ht (slot (ht_map w_half) i) = NULL) (seqZ 1024 1024) /\
  fst r = Returned None /\
  pyerr (snd r) = Some Err_exceeded_max_ht_map_entries.
Proof.
  intros r. destruct w_half_state as [Hidx Hlen Hbusy Hfree Hfile].
  split; [exact Hidx|].
  split; [apply Forall_forall; intros i Hi; apply elem_of_seqZ in Hi; apply Hbusy; lia|].
  split; [apply Forall_forall; intros i Hi; apply elem_of_seqZ in Hi; apply Hfree;
          unfold max_ht_map_entries; lia|].
  assert (Hprobe : max_ht_map_entries <= fst (probe w_half)).
  { apply probe_window_busy; [rewrite Hidx; unfold max_ht_map_entries; lia|].
    intros k Hk. rewrite Hidx.
    replace (2047 + k) with (k - 1 + 1 * max_ht_map_entries)
      by (unfold max_ht_map_entries; lia).
    rewrite Z_mod_plus_full, Z.mod_small by (unfold max_ht_map_entries; lia).
    apply Hbusy. lia. }
  unfold r. rewrite (reopen_refused w_half Hfile Hprobe). split; reflexivity.
Qed.

(** C1, as stated, fails in [w_full]: the file holds a valid header of
    capacity 4, the request is 0, and [open] returns [NULL] -- every
    registry slot is taken. *)
Lemma reopen_can_still_fail :
  let r := shmht_open no_faults w_full "t.db" 0 0 in
  files w_full !! "t.db" = Some f_ab /\
  sizeof_hashtable <= st_size f_ab /\
  ht_is_valid (contents f_ab) = true /\
  orig_capacity (contents f_ab) = 4 /\
  PyArg_store_int 0 0 = 0 /\
  fst r = Returned None /\
  pyerr (snd r) = Some Err_exceeded_max_ht_map_entries.
Proof.
  intros r. destruct w_full_state as [Hidx Hlen Hbusy Hfree Hfile].
  destruct f_ab_facts as (Hsize & Hvalid & Hcap & _).
  split; [exact Hfile|]. split; [exact Hsize|]. split; [exact Hvalid|].
  split; [exact Hcap|]. split; [reflexivity|].
  assert (Hprobe : max_ht_map_entries <= fst (probe w_full)).
  { apply probe_all_busy; [rewrite Hidx; unfold max_ht_map_entries; lia|].
    intros i Hi. apply Hbusy. exact Hi. }
  unfold r. rewrite (reopen_refused w_full Hfile Hprobe). split; reflexivity.
Qed.

(** C10 as it is stated fails on a valid table: [open("t.db", -1)] on the
    table of [w_ab], capacity 4, returns [NULL] with "file has smaller
    capacity than requested (req -1, have 4)"; nothing is mapped. *)
Lemma negative_capacity_turned_down :
  let r := shmht_open no_faults w_ab "t.db" (-1) 0 in
  files w_ab !! "t.db" = Some f_ab /\
  ht_is_valid (contents f_ab) = true /\
  orig_capacity (contents f_ab) = 4 /\
  fst r = Returned None /\
  pyerr (snd r) = Some (Err_smaller_capacity (-1) 4) /\
  maps (snd r) = maps w_ab /\ ht_map (snd r) = ht_map w_ab.
Proof.
  intros r. pose proof (rs_file _ _ _ _ w_ab_state) as Hfile.
  destruct f_ab_facts as (Hsize & Hvalid & Hcap & _).
  split; [exact Hfile|]. split; [exact Hvalid|]. split; [exact Hcap|].
  pose proof (file_at_existing w_ab "t.db" f_ab Hfile) as Hat.
  assert (Hc : - 2 ^ 31 <= -1 < 0) by lia.
  destruct (wrapped_capacity (-1) Hc) as [Hwrap Hback].
  assert (Hsize' : sizeof_hashtable <= st_size (file_at w_ab "t.db"))
    by (rewrite Hat; exact Hsize).
  assert (Hvalid' : ht_is_valid (contents (file_at w_ab "t.db")) = true)
    by (rewrite Hat; exact Hvalid).
  pose proof (shmht_open_valid no_faults w_ab "t.db" (-1) eq_refl eq_refl Hsize' Hvalid')
    as Hrun.
  cbv zeta in Hrun. rewrite Hwrap, Hat, Hcap in Hrun.
  change (negb (-1 + 2 ^ 32 =? 0) && (4 <? -1 + 2 ^ 32)) with true in Hrun.
  cbv iota in Hrun. rewrite Hback in Hrun. change (to_int 4) with 4 in Hrun.
  destruct (header_refused "t.db" (Err_smaller_capacity (-1) 4) w_ab)
    as (w' & Hfail & Herr & _ & Hmaps & _ & Hm & _).
  unfold r. rewrite Hrun, Hfail. cbn [fst snd].
  split; [reflexivity|]. split; [exact Herr|]. split; [exact Hmaps|exact Hm].
Qed.

(** *** Witnesses *)

(** C5 at handle 0 of [w_closed], which has just been closed. *)
Lemma invalid_handle_rejected_witness :
  (exists w0, shmht_close w0 0 = (Returned (Some PyTrue), w_closed)) /\
  shmht_close w_closed 0
  = (Returned None, with_pyerr (Some (Err_invalid_ht_id 0)) w_closed) /\
  shmht_getval id w_closed 0 a
  = (Returned None, with_pyerr (Some (Err_invalid_ht_id 0)) w_closed).
Proof.
  assert (H : exists w0, shmht_close w0 0 = (Returned (Some PyTrue), w_closed)).
  { exists w_ab. by_evaluation. }
  split; [exact H|].
  destruct (invalid_handle_rejected w_closed 0 (or_intror H)) as (Hc & Hg & _).
  split; [exact Hc|apply Hg].
Defined.

(** C6 at handle 0 of [w_ab]. *)
Lemma close_detaches_only_witness :
  bad_handle w_ab 0 = false /\
  is_Some (deref w_ab (ht (slot (ht_map w_ab) 0))) /\
  exists w',
    shmht_close w_ab 0 = (Returned (Some PyTrue), w') /\
    files w' = files w_ab /\ maps w' = ∅ /\ fds w' = ∅.
Proof.
  assert (H1 : bad_handle w_ab 0 = false) by (vm_compute; reflexivity).
  assert (H2 : is_Some (deref w_ab (ht (slot (ht_map w_ab) 0))))
    by (vm_compute; eauto).
  split; [exact H1|]. split; [exact H2|].
  destruct (close_detaches_only w_ab 0 H1 H2) as (w' & Hc & Hf & Hm & Hd & _).
  exists w'. split; [exact Hc|]. split; [exact Hf|].
  rewrite Hm, Hd. split; vm_compute; reflexivity.
Defined.

(** C7 at a file that does not exist yet. *)
Lemma create_needs_capacity_witness :
  st_size (file_at w0 "new.db") < sizeof_hashtable /\
  exists w',
    shmht_open no_faults w0 "new.db" 0 0 = (Returned None, w') /\
    pyerr w' = Some Err_capacity_required /\
    ht_map w' = ht_map w0 /\ maps w' = maps w0 /\ fds w' = fds w0.
Proof.
  assert (H : st_size (file_at w0 "new.db") < sizeof_hashtable) by (vm_compute; reflexivity).
  split; [exact H|].
  destruct (create_needs_capacity no_faults w0 "new.db" 0 eq_refl
              (or_intror (or_introl H)))
    as (w' & Ho & He & Hm & _ & Hmaps & Hfds & _).
  exists w'. repeat split; assumption.
Defined.

(** C1 (amended) at the table of [w_ab], capacity 4: a request for 9 is
    refused, a request for 3 opens the table as it is. *)
Lemma reopen_keeps_stored_capacity_witness :
  let f := file_at w_ab "t.db" in
  (files w_ab !! "t.db" = Some f /\ sizeof_hashtable <= st_size f /\
   ht_is_valid (contents f) = true /\ orig_capacity (contents f) = 4) /\
  (exists w',
      shmht_open no_faults w_ab "t.db" 9 0 = (Returned None, w') /\
      pyerr w' = Some (Err_smaller_capacity 9 4) /\ files w' = files w_ab) /\
  shmht_open no_faults w_ab "t.db" 3 0
  = (Returned (Some (PyInt 1)),
     attached "t.db" [EvAccess (unmapped_base (maps w_ab))] 0 4 w_ab).
Proof.
  intros f.
  assert (H1 : files w_ab !! "t.db" = Some f) by (vm_compute; reflexivity).
  assert (H2 : sizeof_hashtable <= st_size f) by (vm_compute; discriminate).
  assert (H3 : ht_is_valid (contents f) = true) by (vm_compute; reflexivity).
  assert (H4 : orig_capacity (contents f) = 4) by (vm_compute; reflexivity).
  assert (H5 : orig_capacity (contents f) <> 0) by (rewrite H4; discriminate).
  split; [repeat split; assumption|]. split.
  - pose proof (reopen_keeps_stored_capacity no_faults w_ab "t.db" 9 f
                  eq_refl eq_refl H1 H2 H3 H5) as [Hrefuse _].
    cbv zeta in Hrefuse. rewrite H4 in Hrefuse.
    destruct Hrefuse as (w' & Ho & He & Hf & _);
      [vm_compute; split; [discriminate|reflexivity]|].
    exists w'. split; [exact Ho|]. split; [exact He|exact Hf].
  - pose proof (reopen_keeps_stored_capacity no_faults w_ab "t.db" 3 f
                  eq_refl eq_refl H1 H2 H3 H5) as [_ Hkeep].
    cbv zeta in Hkeep. rewrite H4 in Hkeep.
    assert (Hfit : ~ (PyArg_store_int 0 3 <> 0 /\ 4 < PyArg_store_int 0 3))
      by (vm_compute; intros [_ Hlt]; discriminate Hlt).
    specialize (Hkeep Hfit eq_refl eq_refl eq_refl).
    destruct Hkeep as [Hfound _].
    apply Hfound. vm_compute. reflexivity.
Defined.

(** C3 at the two entries of [w_ab] and a visitor that always raises. *)
Lemma foreach_ignores_raise_witness :
  bad_handle w_ab 0 = false /\
  deref w_ab (ht (slot (ht_map w_ab) 0)) = Some ("t.db", file_at w_ab "t.db") /\
  exists w',
    shmht_foreach w_ab 0 (Callable raise_always) = (Returned (Some PyNone), w') /\
    calls (log w') = [(b, v2); (a, v1)] /\
    is_Some (pyerr w').
Proof.
  assert (H1 : bad_handle w_ab 0 = false) by (vm_compute; reflexivity).
  assert (H2 : deref w_ab (ht (slot (ht_map w_ab) 0)) = Some ("t.db", file_at w_ab "t.db"))
    by (vm_compute; reflexivity).
  split; [exact H1|]. split; [exact H2|].
  destruct (foreach_ignores_raise w_ab 0 raise_always "t.db" (file_at w_ab "t.db") H1 H2)
    as (w' & Hrun & Hcalls & _ & Herr).
  exists w'. split; [exact Hrun|]. split.
  - rewrite Hcalls. vm_compute. reflexivity.
  - apply Herr. vm_compute. constructor. discriminate.
Defined.

(** C4 with a rival process: under the lock the table holds [v2] under
    [b]; the read made after the release returns [v1]. *)
Lemma getval_reads_mapping_unlocked_witness :
  bad_handle w_ab 0 = false /\
  ht_get (contents (file_at w_ab "t.db")) b = Some 5 /\
  ht_str_at (contents (file_at w_ab "t.db")) 5 = v2 /\
  exists w_out,
    (fd (slot (ht_map w_ab) 0) ∉ flocks w_out) /\
    shmht_getval rival w_ab 0 b
    = (Returned (Some (PyString v1)), touch (ht (slot (ht_map w_ab) 0)) w_out).
Proof.
  assert (H1 : bad_handle w_ab 0 = false) by by_evaluation.
  assert (H2 : ht_get (contents (file_at w_ab "t.db")) b = Some 5) by by_evaluation.
  assert (H3 : ht_str_at (contents (file_at w_ab "t.db")) 5 = v2) by by_evaluation.
  assert (Hd : deref w_ab (ht (slot (ht_map w_ab) 0))
               = Some ("t.db"%string, file_at w_ab "t.db")) by by_evaluation.
  assert (Hd' : deref (with_files (rival (files w_ab)) w_ab) (ht (slot (ht_map w_ab) 0))
                = Some ("t.db"%string,
                        file_at (with_files (rival (files w_ab)) w_ab) "t.db"))
    by by_evaluation.
  split; [exact H1|]. split; [exact H2|]. split; [exact H3|].
  destruct (getval_reads_mapping_unlocked rival w_ab 0 b "t.db" "t.db"
              (file_at w_ab "t.db")
              (file_at (with_files (rival (files w_ab)) w_ab) "t.db") 5 H1 Hd H2 Hd')
    as (w_in & w_out & _ & _ & _ & Hfree & Hrun).
  assert (Hv : ht_str_at
                 (contents (file_at (with_files (rival (files w_ab)) w_ab) "t.db")) 5
               = v1) by by_evaluation.
  exists w_out. split; [exact Hfree|].
  rewrite Hrun, Hv. reflexivity.
Defined.

(** C8 in [w_full]: [open("t.db", 8, 1)] fails, and the table that held
    [a] and [b] is now an empty one of capacity 8. *)
Lemma failed_open_keeps_file_changes_witness :
  let r := shmht_open no_faults w_full "t.db" 8 1 in
  (r = (Returned None, snd r) /\
   pyerr (snd r) = Some Err_exceeded_max_ht_map_entries) /\
  files w_full !! "t.db" = Some f_ab /\
  ht_get (contents f_ab) a = Some 3 /\
  files (snd r) !! "t.db"
  = Some {| st_size := 544; contents := SpecTable.fresh_table 8 |}.
Proof.
  intros r. destruct w_full_state as [Hidx Hlen Hbusy Hfree Hfile].
  assert (Hprobe : max_ht_map_entries <= fst (probe w_full)).
  { apply probe_all_busy; [rewrite Hidx; unfold max_ht_map_entries; lia|].
    intros i Hi. apply Hbusy. exact Hi. }
  assert (Hr : r = (Returned None, refused "t.db" [] 1 8 w_full)).
  { unfold r.
    assert (Hforce : 1 <> 0) by discriminate.
    assert (Hreq : PyArg_store_int 0 8 <> 0) by discriminate.
    rewrite (shmht_open_create no_faults w_full "t.db" 8 1 eq_refl Hforce Hreq
               eq_refl eq_refl eq_refl).
    change (PyArg_store_int 0 8) with 8. unfold late.
    destruct (Z.leb_spec max_ht_map_entries (fst (probe w_full))); [reflexivity|lia]. }
  assert (H1 : r = (Returned None, snd r)) by (rewrite Hr; reflexivity).
  assert (H2 : pyerr (snd r) = Some Err_exceeded_max_ht_map_entries)
    by (rewrite Hr; reflexivity).
  split; [split; assumption|]. split; [exact Hfile|].
  split; [vm_compute; reflexivity|].
  destruct (failed_open_keeps_file_changes no_faults w_full "t.db" 8 1 (snd r) H1 H2)
    as (capacity & _ & Hcap & Hfile' & _).
  assert (Hforce : 1 <> 0) by discriminate.
  rewrite Hfile', (Hcap Hforce), (file_at_existing _ _ _ Hfile).
  apply f_equal. vm_compute. reflexivity.
Defined.

(** C9 with a rival process: under the lock the value of [b] is [v2];
    [getval] returns [v1], stored by the rival after the unlock. *)
Lemma getval_copies_after_unlock_witness :
  ht_str_at (contents (file_at w_ab "t.db")) 5 = v2 /\
  exists w',
    shmht_getval rival w_ab 0 b = (Returned (Some (PyString v1)), w') /\
    log w' = EvAccess 4096 :: EvFlock 0 LOCK_UN :: EvAccess 4096
               :: EvFlock 0 LOCK_EX :: log w_ab.
Proof.
  split; [vm_compute; reflexivity|].
  destruct (getval_copies_after_unlock rival w_ab 0 b "t.db" "t.db"
              (file_at w_ab "t.db")
              (file_at (with_files (rival (files w_ab)) w_ab) "t.db") 5)
    as (w' & Hrun & Hlog & _); try (vm_compute; reflexivity).
  exists w'. split.
  - rewrite Hrun. vm_compute. reflexivity.
  - rewrite Hlog. vm_compute. reflexivity.
Defined.

(** C10 at [open("big.db", -1)] on a file that does not exist. *)
Lemma negative_capacity_wraps_witness :
  - 2 ^ 31 <= -1 < 0 /\
  st_size (file_at w0 "big.db") < sizeof_hashtable /\
  exists pre,
    shmht_open no_faults w0 "big.db" (-1) 0
    = (Returned (Some (PyInt 0)), attached "big.db" pre 0 4294967295 w0) /\
    mem_size (slot (ht_map (attached "big.db" pre 0 4294967295 w0)) 0)
    = ht_memory_size 4294967295.
Proof.
  assert (H : - 2 ^ 31 <= -1 < 0) by lia.
  assert (Hshort : st_size (file_at w0 "big.db") < sizeof_hashtable)
    by (vm_compute; reflexivity).
  split; [exact H|]. split; [exact Hshort|].
  destruct (negative_capacity_wraps no_faults w0 "big.db" (-1) 0 H eq_refl)
    as [Hnew _].
  destruct (Hnew (or_intror (or_introl Hshort))) as (pre & _ & Hrun).
  assert (Hslot : probe w0 = (1, 0)) by (vm_compute; reflexivity).
  assert (Hfound : fst (probe w0) < max_ht_map_entries)
    by (rewrite Hslot; reflexivity).
  destruct (Hrun eq_refl eq_refl eq_refl) as [Hok _].
  specialize (Hok Hfound). rewrite Hslot in Hok.
  exists pre. split; [exact Hok|].
  unfold attached. cbn [ht_map]. rewrite Hslot. cbn [snd].
  rewrite slot_stored by (vm_compute; lia). reflexivity.
Defined.

(** * The rest of the module

    Properties of the entry points beyond the ones above: the registry
    invariant, the search for a free slot, what each call leaves alone,
    and how calls compose. *)

Section SearchTurns.
Context `{E : Engine}.

(** ** The search, turn by turn *)

Lemma probe_loop_done (fuel : nat) (m : list mapnode) (count idx : Z) :
  max_ht_map_entries <= count -> probe_loop fuel m count idx = (count, idx).
Proof.
  intros Hge. destruct fuel as [|fuel]; simpl; [reflexivity|].
  destruct (Z.ltb_spec count max_ht_map_entries); [lia|reflexivity].
Qed.

Lemma probe_loop_turns (fuel : nat) (m : list mapnode) :
  forall (count idx : Z),
    (exists q, count = 2 * q) ->
    count < max_ht_map_entries ->
    max_ht_map_entries <= count + 2 * Z.of_nat fuel ->
    -1 <= idx < max_ht_map_entries ->
    (exists k, 1 <= k /\
       fst (probe_loop fuel m count idx) = count + 2 * k - 1 /\
       fst (probe_loop fuel m count idx) < max_ht_map_entries /\
       snd (probe_loop fuel m count idx) = (idx + k) mod max_ht_map_entries /\
       ht (slot m ((idx + k) mod max_ht_map_entries)) = NULL /\
       forall j, 1 <= j < k -> ht (slot m ((idx + j) mod max_ht_map_entries)) <> NULL) \/
    (exists k, 1 <= k /\
       fst (probe_loop fuel m count idx) = count + 2 * k /\
       max_ht_map_entries <= count + 2 * k /\
       count + 2 * (k - 1) < max_ht_map_entries /\
       snd (probe_loop fuel m count idx) = (idx + k) mod max_ht_map_entries /\
       forall j, 1 <= j <= k -> ht (slot m ((idx + j) mod max_ht_map_entries)) <> NULL).
Proof.
  induction fuel as [|fuel IH]; intros count idx [q Hq] Hlt Hc Hi.
  - simpl in Hc. lia.
  - simpl. destruct (Z.ltb_spec count max_ht_map_entries) as [_|]; [|lia].
    assert (Hrem : Z.rem (idx + 1) max_ht_map_entries = (idx + 1) mod max_ht_map_entries).
    { apply Z.rem_mod_nonneg; unfold max_ht_map_entries in *; lia. }
    rewrite Hrem.
    assert (Hb : 0 <= (idx + 1) mod max_ht_map_entries < max_ht_map_entries)
      by (apply Z.mod_pos_bound; unfold max_ht_map_entries; lia).
    destruct (Z.eqb_spec (ht (slot m ((idx + 1) mod max_ht_map_entries))) NULL)
      as [Hfree|Hbusy].
    + left. exists 1. simpl.
      split; [lia|]. split; [lia|]. split; [unfold max_ht_map_entries in *; lia|].
      split; [reflexivity|]. split; [exact Hfree|]. intros j Hj. lia.
    + destruct (Z.lt_ge_cases (count + 1 + 1) max_ht_map_entries) as [Hmore|Hstop].
      * destruct (IH (count + 1 + 1) ((idx + 1) mod max_ht_map_entries)) as
          [(k & Hk & Hfst & Hlt' & Hsnd & Hfree & Hbefore)
          |(k & Hk & Hfst & Hge' & Hlast & Hsnd & Hall)];
          [exists (q + 1); lia|exact Hmore|lia|lia| |].
        -- left. exists (k + 1).
           rewrite Zplus_mod_idemp_l in Hsnd, Hfree.
           replace (idx + (k + 1)) with (idx + 1 + k) by lia.
           repeat split; try lia; try assumption.
           intros j Hj. destruct (Z.eq_dec j 1) as [->|Hne]; [exact Hbusy|].
           specialize (Hbefore (j - 1) ltac:(lia)).
           rewrite Zplus_mod_idemp_l in Hbefore.
           replace (idx + 1 + (j - 1)) with (idx + j) in Hbefore by lia. exact Hbefore.
        -- right. exists (k + 1).
           rewrite Zplus_mod_idemp_l in Hsnd.
           replace (idx + (k + 1)) with (idx + 1 + k) by lia.
           repeat split; try lia; try assumption.
           intros j Hj. destruct (Z.eq_dec j 1) as [->|Hne]; [exact Hbusy|].
           specialize (Hall (j - 1) ltac:(lia)).
           rewrite Zplus_mod_idemp_l in Hall.
           replace (idx + 1 + (j - 1)) with (idx + j) in Hall by lia. exact Hall.
      * right. exists 1. rewrite probe_loop_done by exact Hstop. simpl.
        split; [lia|]. split; [lia|]. split; [lia|]. split; [lia|]. split; [reflexivity|].
        intros j Hj. assert (j = 1) as -> by lia. exact Hbusy.
Qed.

(** What the search returns, read off the slots it passes. *)
Lemma probe_turns (w : world) :
  -1 <= ht_idx w < max_ht_map_entries ->
  (exists k, 1 <= k <= 1024 /\
     probe w = (2 * k - 1, probed w k) /\
     ht (slot (ht_map w) (probed w k)) = NULL /\
     forall j, 1 <= j < k -> ht (slot (ht_map w) (probed w j)) <> NULL) \/
  (probe w = (max_ht_map_entries, probed w 1024) /\
   forall j, 1 <= j <= 1024 -> ht (slot (ht_map w) (probed w j)) <> NULL).
Proof.
  intros Hi. unfold probe, probed.
  destruct (probe_loop_turns (Z.to_nat max_ht_map_entries) (ht_map w) 0 (ht_idx w))
    as [(k & Hk & Hfst & Hlt & Hsnd & Hfree & Hbefore)
       |(k & Hk & Hfst & Hge & Hlast & Hsnd & Hall)];
    [exists 0; reflexivity|unfold max_ht_map_entries; lia
    |unfold max_ht_map_entries; lia|exact Hi| |].
  - left. exists k. split; [unfold max_ht_map_entries in *; lia|].
    split; [|split; assumption].
    destruct (probe_loop _ _ _ _) as [c i]. simpl in *. subst. f_equal.
  - right. assert (k = 1024) as -> by (unfold max_ht_map_entries in *; lia).
    split; [|exact Hall].
    destruct (probe_loop _ _ _ _) as [c i]. simpl in *. subst. reflexivity.
Qed.

Lemma probed_range (w : world) (k : Z) : 0 <= probed w k < max_ht_map_entries.
Proof. apply Z.mod_pos_bound. unfold max_ht_map_entries. lia. Qed.

End SearchTurns.

Section OpenFiles.
Context `{E : Engine}.

(** ** What [shmht_open] does to the files *)

Lemma create_failed_files (d p len : Z) (w : world) :
  files (snd (create_failed d p len w)) = files w.
Proof.
  unfold create_failed, sys_munmap. cbn [snd].
  destruct (0 <=? d); destruct (p =? NULL); try reflexivity;
    destruct (maps _ !! p); reflexivity.
Qed.

Lemma open_tail_files (os : faults) (d force_init capacity len : Z)
    (w : world) (name : string) (f : file) :
  0 <= d -> fds w !! d = Some name -> files w !! name = Some f ->
  exists f',
    files (snd (open_tail os d (st_size f) force_init capacity len w))
    = <[name := f']> (files w) /\
    st_size f <= st_size f'.
Proof.
  intros Hd Hfd Hf.
  assert (Hsame : files w = <[name := f]> (files w))
    by (symmetry; apply insert_id; exact Hf).
  destruct (Z.eqb_spec capacity 0) as [->|Hcap].
  { exists f. rewrite open_tail_zero by exact Hd. split; [exact Hsame|lia]. }
  destruct ((st_size f <? ht_memory_size capacity) && lseek_fails os) eqn:Hls.
  { exists f. unfold open_tail. rewrite (proj2 (Z.eqb_neq _ _) Hcap), Hls.
    rewrite create_failed_files. split; [exact Hsame|lia]. }
  destruct ((st_size f <? ht_memory_size capacity) && write_fails os) eqn:Hwr.
  { exists f. unfold open_tail. rewrite (proj2 (Z.eqb_neq _ _) Hcap), Hls, Hwr.
    rewrite create_failed_files. split; [exact Hsame|lia]. }
  destruct (mmap_fails os) eqn:Hmm.
  - unfold open_tail. rewrite (proj2 (Z.eqb_neq _ _) Hcap), Hls, Hwr.
    unfold sys_mmap. rewrite Hmm.
    change (MAP_FAILED =? MAP_FAILED) with true. cbv iota beta.
    rewrite create_failed_files. cbn [files PyErr_Format with_pyerr].
    destruct (Z.ltb_spec (st_size f) (ht_memory_size capacity)) as [Hlt|Hge].
    + exists {| st_size := ht_memory_size capacity; contents := contents f |}.
      unfold sys_extend. rewrite Hfd. cbn [files with_files].
      rewrite (alter_alt_Some _ _ _ _ Hf). split; [reflexivity|]. cbn [st_size]. lia.
    + exists f. split; [exact Hsame|lia].
  - exists (initialised f (st_size f) force_init capacity).
    rewrite (open_tail_run os d (st_size f) force_init capacity len w name f
               Hd Hcap Hfd Hf Hls Hwr Hmm).
    split.
    + destruct (max_ht_map_entries <=? fst (probe w)); reflexivity.
    + unfold initialised. cbn [st_size].
      destruct (Z.ltb_spec (st_size f) (ht_memory_size capacity)); lia.
Qed.

(** Either the file could not be opened and no file has changed, or the
    file [name] exists afterwards, no shorter than before, and it is the
    only one that may differ. *)
Lemma shmht_open_files (os : faults) (w : world) (name : string) (c force_init : Z) :
  (open_fails os = true /\
   files (snd (shmht_open os w name c force_init)) = files w) \/
  (open_fails os = false /\
   exists f',
     files (snd (shmht_open os w name c force_init)) = <[name := f']> (files w) /\
     st_size (file_at w name) <= st_size f').
Proof.
  destruct (open_fails os) eqn:Hop.
  { left. split; [reflexivity|]. unfold shmht_open, sys_open. rewrite Hop. reflexivity. }
  right. split; [reflexivity|].
  rewrite (shmht_open_enter os w name c force_init Hop). cbv zeta.
  pose proof (new_fd_nonneg w) as Hd.
  assert (Htail : forall capacity len pre w1, inside name pre w w1 ->
            exists f',
              files (snd (open_tail os (new_fd w) (st_size (file_at w name)) force_init
                            capacity len w1))
              = <[name := f']> (files w) /\
              st_size (file_at w name) <= st_size f').
  { intros capacity len pre w1 [Hfiles Hfds _ _ _ _ _ _].
    destruct (open_tail_files os (new_fd w) force_init capacity len w1 name
                (file_at w name) Hd) as (f' & Heq & Hle).
    - rewrite Hfds. apply lookup_insert_eq.
    - rewrite Hfiles. apply lookup_insert_eq.
    - exists f'. rewrite Heq, Hfiles, insert_insert_eq. split; [reflexivity|exact Hle]. }
  destruct (force_init =? 0); [|apply (Htail _ _ [] _ (inside_entered name w))].
  destruct (sizeof_hashtable <=? st_size (file_at w name));
    [|apply (Htail _ _ [] _ (inside_entered name w))].
  destruct (mmap_header_fails os).
  { exists (file_at w name). unfold sys_mmap. cbv iota beta.
    change (MAP_FAILED =? MAP_FAILED) with true. cbv iota.
    rewrite create_failed_files. split; [reflexivity|lia]. }
  destruct (header_round_trip name w) as (Hmap & Hderef & Hunmap).
  rewrite Hmap. destruct (mapped_not_failed (maps w)) as [HnF HnN]. rewrite HnF, Hderef.
  destruct (ht_is_valid (contents (file_at w name))).
  - destruct (negb (PyArg_store_int 0 c =? 0) &&
              (orig_capacity (contents (file_at w name)) <? PyArg_store_int 0 c)).
    + exists (file_at w name). rewrite create_failed_files. split; [reflexivity|lia].
    + rewrite Hunmap. apply (Htail _ _ _ _ (inside_touch name w _)).
  - rewrite Hunmap. apply (Htail _ _ _ _ (inside_touch name w _)).
Qed.

Lemma files_kept_refl (fs : gmap string file) : files_kept fs fs.
Proof. intros n f Hf. exists f. split; [exact Hf|lia]. Qed.

Lemma files_kept_insert (fs : gmap string file) (name : string) (f0 f' : file) :
  (forall f, fs !! name = Some f -> st_size f <= st_size f') ->
  files_kept fs (<[name := f']> fs).
Proof.
  intros Hle n f Hf. destruct (decide (n = name)) as [->|Hne].
  - exists f'. rewrite lookup_insert_eq. split; [reflexivity|]. apply Hle. exact Hf.
  - exists f. rewrite lookup_insert_ne by congruence. split; [exact Hf|lia].
Qed.

End OpenFiles.

(** X3.  However [open] ends, no file has disappeared or become shorter, and
    no file other than the one named has changed at all. *)
Theorem open_never_shrinks_files `{E : Engine} (os : faults) (w : world)
    (name : string) (c force_init : Z) :
  let w' := snd (shmht_open os w name c force_init) in
  files_kept (files w) (files w') /\
  forall n, n <> name -> files w' !! n = files w !! n.
Proof.
  intros w'. unfold w'.
  destruct (shmht_open_files os w name c force_init)
    as [[_ Heq]|[_ (f' & Heq & Hle)]]; rewrite Heq.
  - split; [apply files_kept_refl|reflexivity].
  - split.
    + apply files_kept_insert; [exact f'|].
      intros f Hf. unfold file_at in Hle. rewrite Hf in Hle. exact Hle.
    + intros n Hne. apply lookup_insert_ne. congruence.
Qed.

Section OpenFrame.
Context `{E : Engine}.

(** ** What a failed [shmht_open] leaves of the address space *)

Lemma create_failed_maps (d p len : Z) (w : world) :
  maps (snd (create_failed d p len w))
  = if p =? NULL then maps w else delete p (maps w).
Proof.
  unfold create_failed, sys_munmap. cbn [snd].
  assert (Hm : forall w0 : world,
             maps (if 0 <=? d then sys_close d (myunlock d w0) else w0) = maps w0)
    by (intros w0; destruct (0 <=? d); reflexivity).
  destruct (p =? NULL); [apply Hm|].
  destruct (maps _ !! p) eqn:Hp; cbn [snd maps with_maps]; rewrite Hm in *.
  - reflexivity.
  - symmetry. apply delete_id. exact Hp.
Qed.

Lemma open_tail_maps (os : faults) (d size force_init capacity len : Z)
    (w : world) (name : string) (f : file) :
  0 <= d -> fds w !! d = Some name -> files w !! name = Some f ->
  maps w !! MAP_FAILED = None ->
  fst (open_tail os d size force_init capacity len w) = Returned None ->
  maps (snd (open_tail os d size force_init capacity len w)) = maps w.
Proof.
  intros Hd Hfd Hf Hnone.
  destruct (Z.eqb_spec capacity 0) as [->|Hcap].
  { intros _. rewrite open_tail_zero by exact Hd. reflexivity. }
  destruct ((size <? ht_memory_size capacity) && lseek_fails os) eqn:Hls.
  { intros _. unfold open_tail. rewrite (proj2 (Z.eqb_neq _ _) Hcap), Hls.
    rewrite create_failed_maps. reflexivity. }
  destruct ((size <? ht_memory_size capacity) && write_fails os) eqn:Hwr.
  { intros _. unfold open_tail. rewrite (proj2 (Z.eqb_neq _ _) Hcap), Hls, Hwr.
    rewrite create_failed_maps. reflexivity. }
  destruct (mmap_fails os) eqn:Hmm.
  - intros _. unfold open_tail. rewrite (proj2 (Z.eqb_neq _ _) Hcap), Hls, Hwr.
    unfold sys_mmap. rewrite Hmm.
    change (MAP_FAILED =? MAP_FAILED) with true. cbv iota beta.
    rewrite create_failed_maps. change (MAP_FAILED =? NULL) with false. cbv iota.
    cbn [maps PyErr_Format with_pyerr].
    assert (Hsame : maps (if size <? ht_memory_size capacity
                          then sys_extend d (ht_memory_size capacity) w else w) = maps w).
    { unfold sys_extend. rewrite Hfd. destruct (size <? ht_memory_size capacity); reflexivity. }
    rewrite Hsame. apply delete_id. exact Hnone.
  - rewrite (open_tail_run os d size force_init capacity len w name f
               Hd Hcap Hfd Hf Hls Hwr Hmm).
    destruct (max_ht_map_entries <=? fst (probe w)); cbn [fst snd maps].
    + intros _. apply delete_insert_id. apply unmapped_base_unused.
    + discriminate.
Qed.

Lemma shmht_open_maps (os : faults) (w : world) (name : string) (c force_init : Z) :
  maps w !! MAP_FAILED = None ->
  fst (shmht_open os w name c force_init) = Returned None ->
  maps (snd (shmht_open os w name c force_init)) = maps w.
Proof.
  intros Hnone.
  destruct (open_fails os) eqn:Hop.
  { intros _. unfold shmht_open, sys_open. rewrite Hop. reflexivity. }
  rewrite (shmht_open_enter os w name c force_init Hop). cbv zeta.
  pose proof (new_fd_nonneg w) as Hd.
  assert (Htail : forall capacity len pre w1, inside name pre w w1 ->
            fst (open_tail os (new_fd w) (st_size (file_at w name)) force_init
                   capacity len w1) = Returned None ->
            maps (snd (open_tail os (new_fd w) (st_size (file_at w name)) force_init
                         capacity len w1)) = maps w).
  { intros capacity len pre w1 [Hfiles Hfds Hmaps _ _ _ _ _] Hret.
    rewrite <- Hmaps.
    apply (open_tail_maps os _ _ _ _ _ w1 name (file_at w name) Hd); [| | |exact Hret].
    - rewrite Hfds. apply lookup_insert_eq.
    - rewrite Hfiles. apply lookup_insert_eq.
    - rewrite Hmaps. exact Hnone. }
  destruct (force_init =? 0); [|apply (Htail _ _ [] _ (inside_entered name w))].
  destruct (sizeof_hashtable <=? st_size (file_at w name));
    [|apply (Htail _ _ [] _ (inside_entered name w))].
  destruct (mmap_header_fails os).
  { intros _. unfold sys_mmap. cbv iota beta.
    change (MAP_FAILED =? MAP_FAILED) with true. cbv iota.
    rewrite create_failed_maps. change (MAP_FAILED =? NULL) with false. cbv iota.
    apply delete_id. exact Hnone. }
  destruct (header_round_trip name w) as (Hmap & Hderef & Hunmap).
  rewrite Hmap. destruct (mapped_not_failed (maps w)) as [HnF HnN]. rewrite HnF, Hderef.
  destruct (ht_is_valid (contents (file_at w name))).
  - destruct (negb (PyArg_store_int 0 c =? 0) &&
              (orig_capacity (contents (file_at w name)) <? PyArg_store_int 0 c)).
    + intros _. rewrite create_failed_maps, HnN. cbn [maps PyErr_Format with_pyerr touch emit with_maps].
      apply delete_insert_id. apply unmapped_base_unused.
    + rewrite Hunmap. apply (Htail _ _ _ _ (inside_touch name w _)).
  - rewrite Hunmap. apply (Htail _ _ _ _ (inside_touch name w _)).
Qed.

(** ** The two outcomes of [shmht_open] *)

Lemma probe_idx_range (w : world) :
  -1 <= ht_idx w < max_ht_map_entries ->
  0 <= snd (probe w) < max_ht_map_entries.
Proof.
  intros Hi.
  destruct (probe_turns w Hi) as [(k & _ & Hp & _)|[Hp _]]; rewrite Hp; cbn [snd];
    apply probed_range.
Qed.

Lemma shmht_open_outcome (os : faults) (w : world) (name : string) (c force_init : Z) :
  maps w !! MAP_FAILED = None ->
  -1 <= ht_idx w < max_ht_map_entries ->
  let r := shmht_open os w name c force_init in
  (fst r = Returned None /\
   ht_map (snd r) = ht_map w /\
   (ht_idx (snd r) = ht_idx w \/ ht_idx (snd r) = snd (probe w)) /\
   maps (snd r) = maps w /\ fds (snd r) = fds w) \/
  (exists capacity pre,
      fst (probe w) < max_ht_map_entries /\
      r = (Returned (Some (PyInt (snd (probe w)))),
           attached name pre force_init capacity w)).
Proof.
  intros Hnone Hi r. subst r.
  pose proof (shmht_open_maps os w name c force_init Hnone) as Hmaps.
  pose proof (shmht_open_cases os w name c force_init) as Hcases. cbv zeta in Hcases.
  remember (shmht_open os w name c force_init) as r eqn:Hr. clear Hr.
  destruct Hcases
    as [[_ Hfail]|[_ (pre & _ & [Hrej|(capacity & _ & _ & Hlate)])]].
  - left. rewrite Hfail in *. cbn [fst snd] in *.
    repeat split; try reflexivity. left. reflexivity.
  - left. destruct Hrej as (e & w' & Heq & _ & _ & Hm & Hidx & _ & Hfds & _).
    rewrite Heq in *. cbn [fst snd] in *.
    split; [reflexivity|]. split; [exact Hm|]. split; [left; exact Hidx|].
    split; [apply Hmaps; reflexivity|exact Hfds].
  - destruct (Z.leb_spec max_ht_map_entries (fst (probe w))) as [Hfull|Hfound].
    + left.
      assert (Hl : late name pre force_init capacity w
                   = (Returned None, refused name pre force_init capacity w)).
      { unfold late.
        destruct (Z.leb_spec max_ht_map_entries (fst (probe w))); [reflexivity|lia]. }
      rewrite Hl in Hlate. rewrite Hlate. cbn [fst snd].
      split; [reflexivity|]. split; [reflexivity|].
      split; [right; reflexivity|]. split; reflexivity.
    + right. exists capacity, pre. split; [exact Hfound|].
      rewrite Hlate. unfold late.
      destruct (Z.leb_spec max_ht_map_entries (fst (probe w))); [lia|reflexivity].
Qed.

End OpenFrame.

Section RegistryOk.
Context `{E : Engine}.

(** ** The registry invariant *)

Lemma slot_replicate (n : nat) (i : Z) : slot (replicate n zero_node) i = zero_node.
Proof.
  unfold slot. destruct (replicate n zero_node !! Z.to_nat i) as [x|] eqn:Hx;
    [|reflexivity].
  apply lookup_replicate in Hx. destruct Hx as [-> _]. reflexivity.
Qed.

Lemma slot_stored_at (m : list mapnode) (i : Z) (n : mapnode) :
  (Z.to_nat i < length m)%nat -> slot (<[Z.to_nat i := n]> m) i = n.
Proof. intros H. unfold slot. rewrite list_lookup_insert_eq by exact H. reflexivity. Qed.

Lemma init_world_ok (fs : gmap string file) : registry_ok (init_world fs).
Proof.
  split; cbn [ht_map ht_idx maps init_world].
  - apply length_replicate.
  - unfold max_ht_map_entries. lia.
  - apply lookup_empty.
  - intros i _ Hbusy. rewrite slot_replicate in Hbusy. contradiction.
  - intros i j _ _ _ Hbusy. rewrite slot_replicate in Hbusy. contradiction.
Qed.

(** A call that leaves the registry, the address space and the
    descriptors alone, and deletes no file, keeps the invariant. *)
Lemma registry_ok_frame (w w' : world) :
  ht_map w' = ht_map w -> -1 <= ht_idx w' < max_ht_map_entries ->
  maps w' = maps w -> fds w' = fds w ->
  (forall n, is_Some (files w !! n) -> is_Some (files w' !! n)) ->
  registry_ok w -> registry_ok w'.
Proof.
  intros Hm Hi Hmaps Hfds Hfiles [Hlen Hidx Hfailed Hlive Hapart].
  split; rewrite ?Hm, ?Hmaps, ?Hfds; try assumption.
  intros i Hr Hbusy. destruct (Hlive i Hr Hbusy) as (r & f & H1 & H2 & H3).
  destruct (Hfiles (m_file r) (ex_intro _ f H2)) as [f' Hf'].
  exists r, f'. repeat split; assumption.
Qed.

Lemma files_kept_some (fs fs' : gmap string file) :
  files_kept fs fs' -> forall n, is_Some (fs !! n) -> is_Some (fs' !! n).
Proof. intros Hk n [f Hf]. destruct (Hk n f Hf) as (f' & Hf' & _). eauto. Qed.

Lemma shmht_open_files_kept (os : faults) (w : world) (name : string)
    (c force_init : Z) :
  files_kept (files w) (files (snd (shmht_open os w name c force_init))).
Proof.
  destruct (shmht_open_files os w name c force_init)
    as [[_ Heq]|[_ (f' & Heq & Hle)]]; rewrite Heq.
  - apply files_kept_refl.
  - apply files_kept_insert; [exact f'|].
    intros f Hf. unfold file_at in Hle. rewrite Hf in Hle. exact Hle.
Qed.

Lemma attached_ok (name : string) (pre : list event) (force_init capacity : Z)
    (w : world) :
  registry_ok w ->
  fst (probe w) < max_ht_map_entries ->
  registry_ok (attached name pre force_init capacity w).
Proof.
  intros [Hlen Hidx Hfailed Hlive Hapart] Hfound.
  destruct (probe_turns w Hidx) as [(k & Hk & Hp & Hfree & _)|[Hp _]];
    [|rewrite Hp in Hfound; cbn [fst] in Hfound; lia].
  pose proof (probed_range w k) as Hh.
  pose proof (unmapped_base_ge (maps w)) as Hbase.
  assert (Hfresh_p : forall i, 0 <= i < max_ht_map_entries ->
             ht (slot (ht_map w) i) <> NULL ->
             ht (slot (ht_map w) i) <> unmapped_base (maps w)).
  { intros i Hr Hbusy Heq. destruct (Hlive i Hr Hbusy) as (r & f & H1 & _).
    rewrite Heq, unmapped_base_unused in H1. discriminate. }
  assert (Hfresh_d : forall i, 0 <= i < max_ht_map_entries ->
             ht (slot (ht_map w) i) <> NULL ->
             fd (slot (ht_map w) i) <> new_fd w).
  { intros i Hr Hbusy Heq. destruct (Hlive i Hr Hbusy) as (r & f & _ & _ & H3).
    unfold new_fd in Heq. rewrite Heq, new_fd_unused in H3. discriminate. }
  assert (Hin : (Z.to_nat (probed w k) < length (ht_map w))%nat)
    by (rewrite Hlen; unfold max_ht_map_entries in *; lia).
  unfold attached. rewrite Hp. cbn [snd].
  split; cbn [ht_map ht_idx maps fds files].
  - rewrite length_insert. exact Hlen.
  - lia.
  - rewrite lookup_insert_ne; [exact Hfailed|]. unfold MAP_FAILED. lia.
  - intros i Hr Hbusy. destruct (decide (i = probed w k)) as [->|Hne].
    + rewrite slot_stored_at by exact Hin. cbn [ht fd].
      exists {| m_file := name; m_len := ht_memory_size capacity |}.
      eexists. cbn [m_file]. rewrite !lookup_insert_eq. repeat split.
    + rewrite slot_other in Hbusy |- * by lia.
      destruct (Hlive i Hr Hbusy) as (r & f & H1 & H2 & H3).
      pose proof (Hfresh_p i Hr Hbusy). pose proof (Hfresh_d i Hr Hbusy).
      rewrite (lookup_insert_ne (maps w)) by congruence.
      rewrite (lookup_insert_ne (fds w)) by congruence.
      destruct (decide (m_file r = name)) as [Hn|Hn].
      * exists r. eexists. split; [exact H1|]. split; [|exact H3].
        rewrite Hn. apply lookup_insert_eq.
      * exists r, f. rewrite lookup_insert_ne by congruence. repeat split; assumption.
  - intros i j Hri Hrj Hij Hbi Hbj.
    destruct (decide (i = probed w k)) as [->|Hni];
      destruct (decide (j = probed w k)) as [->|Hnj]; [contradiction| | |].
    + rewrite slot_stored_at by exact Hin. rewrite slot_other in Hbj |- * by lia.
      cbn [ht fd]. pose proof (Hfresh_p j Hrj Hbj). pose proof (Hfresh_d j Hrj Hbj).
      split; congruence.
    + rewrite slot_stored_at by exact Hin. rewrite slot_other in Hbi |- * by lia.
      cbn [ht fd]. pose proof (Hfresh_p i Hri Hbi). pose proof (Hfresh_d i Hri Hbi).
      split; congruence.
    + rewrite !slot_other in * by lia. apply Hapart; assumption.
Qed.

Lemma open_keeps_registry_ok (os : faults) (w : world) (name : string)
    (c force_init : Z) :
  registry_ok w -> registry_ok (snd (shmht_open os w name c force_init)).
Proof.
  intros Hok. pose proof Hok as [Hlen Hidx Hfailed Hlive Hapart].
  pose proof (shmht_open_files_kept os w name c force_init) as Hkept.
  destruct (shmht_open_outcome os w name c force_init Hfailed Hidx)
    as [(_ & Hm & Hi & Hmaps & Hfds)|(capacity & pre & Hfound & Heq)].
  - apply (registry_ok_frame w); try assumption.
    + destruct Hi as [-> | ->]; [exact Hidx|].
      pose proof (probe_idx_range w Hidx). lia.
    + apply files_kept_some. exact Hkept.
  - rewrite Heq. cbn [snd]. apply attached_ok; assumption.
Qed.

Lemma live_handle (w : world) (idx : Z) :
  registry_ok w -> bad_handle w idx = false ->
  exists name f, deref w (ht (slot (ht_map w) idx)) = Some (name, f).
Proof.
  intros [_ _ _ Hlive _] Hok. apply bad_handle_false in Hok. destruct Hok as [Hr Hbusy].
  destruct (Hlive idx Hr Hbusy) as (r & f & H1 & H2 & _).
  exists (m_file r), f. unfold deref. rewrite H1. cbn [mbind option_bind].
  rewrite H2. reflexivity.
Qed.

Lemma close_keeps_registry_ok (w : world) (idx : Z) :
  registry_ok w -> registry_ok (snd (shmht_close w idx)).
Proof.
  intros Hok. destruct (bad_handle w idx) eqn:Hbad.
  { unfold shmht_close. rewrite Hbad. cbn [snd].
    apply (registry_ok_frame w); try reflexivity; try exact Hok.
    - apply (ok_idx w Hok).
    - auto. }
  destruct (live_handle w idx Hok Hbad) as (name & f & Hd).
  rewrite (close_run w idx name f Hbad Hd). cbn [snd].
  pose proof Hok as [Hlen Hidx Hfailed Hlive Hapart].
  pose proof (proj1 (bad_handle_false _ _) Hbad) as [Hr Hbusy].
  split; cbn [ht_map ht_idx maps fds files].
  - rewrite length_insert. exact Hlen.
  - exact Hidx.
  - apply lookup_delete_None. right. exact Hfailed.
  - intros i Hri Hbi. destruct (decide (i = idx)) as [->|Hne].
    + rewrite slot_cleared in Hbi. contradiction.
    + rewrite slot_other in Hbi |- * by lia.
      destruct (Hlive i Hri Hbi) as (r & f' & H1 & H2 & H3).
      destruct (Hapart i idx Hri Hr Hne Hbi Hbusy) as [Hp Hf].
      exists r, f'. rewrite !lookup_delete_ne by congruence. repeat split; assumption.
  - intros i j Hri Hrj Hij Hbi Hbj.
    destruct (decide (i = idx)) as [->|Hni]; [rewrite slot_cleared in Hbi; contradiction|].
    destruct (decide (j = idx)) as [->|Hnj]; [rewrite slot_cleared in Hbj; contradiction|].
    rewrite !slot_other in * by lia. apply Hapart; assumption.
Qed.

End RegistryOk.

Section HandleRuns.
Context `{E : Engine}.

(** ** The operations on a live handle, in closed form *)

Lemma setval_run (w : world) (idx : Z) (key value : bytes) (name : string) (f : file) :
  bad_handle w idx = false ->
  deref w (ht (slot (ht_map w) idx)) = Some (name, f) ->
  let n := slot (ht_map w) idx in
  let h := fst (ht_set (contents f) key value) in
  let ok := snd (ht_set (contents f) key value) in
  shmht_setval w idx key value
  = (Returned (if ok then Some PyTrue else None),
     {| files := <[name := {| st_size := st_size f; contents := h |}]> (files w);
        fds := fds w; maps := maps w;
        flocks := ({[fd n]} ∪ flocks w) ∖ {[fd n]};
        ht_map := ht_map w; ht_idx := ht_idx w;
        pyerr := if ok then pyerr w else Some (Err_insert_failed key);
        log := EvFlock (fd n) LOCK_UN :: EvAccess (ht n)
                 :: EvFlock (fd n) LOCK_EX :: log w |}).
Proof.
  intros Hok Hd n h ok. pose proof (deref_file _ _ _ _ Hd) as Hf.
  unfold shmht_setval. rewrite Hok. fold n.
  rewrite (deref_ext (mylock (fd n) w) w) by reflexivity. fold n in Hd. rewrite Hd.
  subst h ok. destruct (ht_set (contents f) key value) as [h [|]]; cbn [fst snd];
    unfold myunlock, poke, touch, emit, mylock, with_files, with_flocks, PyErr_Format,
      with_pyerr; cbn [files fds maps flocks ht_map ht_idx pyerr log];
    rewrite (alter_alt_Some _ _ _ _ Hf); reflexivity.
Qed.

Lemma remove_run (w : world) (idx : Z) (key : bytes) (name : string) (f : file) :
  bad_handle w idx = false ->
  deref w (ht (slot (ht_map w) idx)) = Some (name, f) ->
  let n := slot (ht_map w) idx in
  let h := fst (ht_remove (contents f) key) in
  let ok := snd (ht_remove (contents f) key) in
  shmht_remove w idx key
  = (Returned (Some (if ok then PyTrue else PyFalse)),
     {| files := <[name := {| st_size := st_size f; contents := h |}]> (files w);
        fds := fds w; maps := maps w;
        flocks := ({[fd n]} ∪ flocks w) ∖ {[fd n]};
        ht_map := ht_map w; ht_idx := ht_idx w; pyerr := pyerr w;
        log := EvFlock (fd n) LOCK_UN :: EvAccess (ht n)
                 :: EvFlock (fd n) LOCK_EX :: log w |}).
Proof.
  intros Hok Hd n h ok. pose proof (deref_file _ _ _ _ Hd) as Hf.
  unfold shmht_remove. rewrite Hok. fold n.
  rewrite (deref_ext (mylock (fd n) w) w) by reflexivity. fold n in Hd. rewrite Hd.
  subst h ok. destruct (ht_remove (contents f) key) as [h [|]]; cbn [fst snd];
    unfold myunlock, poke, touch, emit, mylock, with_files, with_flocks;
    cbn [files fds maps flocks ht_map ht_idx pyerr log];
    rewrite (alter_alt_Some _ _ _ _ Hf); reflexivity.
Qed.

(** With no other process at work between the unlock and the copy. *)
Lemma getval_run (w : world) (idx : Z) (key : bytes) (name : string) (f : file) :
  bad_handle w idx = false ->
  deref w (ht (slot (ht_map w) idx)) = Some (name, f) ->
  let n := slot (ht_map w) idx in
  shmht_getval id w idx key
  = (Returned (Some (match ht_get (contents f) key with
                     | Some p => PyString (ht_str_at (contents f) p)
                     | None => PyNone
                     end)),
     {| files := files w; fds := fds w; maps := maps w;
        flocks := ({[fd n]} ∪ flocks w) ∖ {[fd n]};
        ht_map := ht_map w; ht_idx := ht_idx w; pyerr := pyerr w;
        log := match ht_get (contents f) key with
               | Some _ => [EvAccess (ht n)]
               | None => []
               end ++ EvFlock (fd n) LOCK_UN :: EvAccess (ht n)
                        :: EvFlock (fd n) LOCK_EX :: log w |}).
Proof.
  intros Hok Hd n. unfold shmht_getval. rewrite Hok. fold n.
  rewrite (deref_ext (mylock (fd n) w) w) by reflexivity. fold n in Hd. rewrite Hd.
  destruct (ht_get (contents f) key) as [p|]; [|reflexivity].
  match goal with
  | |- context [deref ?x (ht n)] => rewrite (deref_ext x w) by reflexivity
  end.
  rewrite Hd. reflexivity.
Qed.

(** ** What no operation on a handle touches *)

Lemma setval_same_process (w : world) (idx : Z) (key value : bytes) :
  same_process w (snd (shmht_setval w idx key value)).
Proof.
  unfold shmht_setval. destruct (bad_handle w idx); [repeat split|].
  destruct (deref _ _) as [[name f]|]; [|repeat split].
  destruct (ht_set (contents f) key value) as [h [|]]; repeat split.
Qed.

Lemma remove_same_process (w : world) (idx : Z) (key : bytes) :
  same_process w (snd (shmht_remove w idx key)).
Proof.
  unfold shmht_remove. destruct (bad_handle w idx); [repeat split|].
  destruct (deref _ _) as [[name f]|]; [|repeat split].
  destruct (ht_remove (contents f) key) as [h [|]]; repeat split.
Qed.

Lemma getval_same_process (others : gmap string file -> gmap string file)
    (w : world) (idx : Z) (key : bytes) :
  same_process w (snd (shmht_getval others w idx key)).
Proof.
  unfold shmht_getval. destruct (bad_handle w idx); [repeat split|].
  destruct (deref _ _) as [[name f]|]; [|repeat split].
  destruct (ht_get (contents f) key) as [p|]; [|repeat split].
  destruct (deref _ _) as [[name' f']|]; repeat split.
Qed.

Lemma foreach_same_process (w : world) (idx : Z) (cb : callback) :
  same_process w (snd (shmht_foreach w idx cb)) /\
  files (snd (shmht_foreach w idx cb)) = files w.
Proof.
  unfold shmht_foreach. destruct (bad_handle w idx); [repeat split|].
  destruct cb as [f|]; [|repeat split].
  destruct (deref _ _) as [[name file]|]; [|repeat split].
  destruct (visits_fields f (ht (slot (ht_map w) idx)) (contents file)
              (ht_iterate (contents file)) (mylock (fd (slot (ht_map w) idx)) w))
    as (_ & _ & G2 & G3 & G4 & G5 & G6 & _).
  cbn [snd]. unfold same_process, myunlock, touch, emit, with_flocks.
  cbn [files fds maps ht_map ht_idx]. rewrite G2, G3, G4, G5, G6. repeat split.
Qed.

End HandleRuns.

Section KeepOk.
Context `{E : Engine}.

Lemma files_kept_alter (fs : gmap string file) (name : string) (h : hashtable) :
  files_kept fs (alter (fun f => {| st_size := st_size f; contents := h |}) name fs).
Proof.
  intros n f Hf. destruct (decide (name = n)) as [->|Hne].
  - exists {| st_size := st_size f; contents := h |}.
    rewrite lookup_alter_eq, Hf. split; [reflexivity|cbn; lia].
  - exists f. rewrite lookup_alter_ne by exact Hne. split; [exact Hf|lia].
Qed.

Lemma setval_files_kept (w : world) (idx : Z) (key value : bytes) :
  files_kept (files w) (files (snd (shmht_setval w idx key value))).
Proof.
  unfold shmht_setval. destruct (bad_handle w idx); [apply files_kept_refl|].
  destruct (deref _ _) as [[name f]|]; [|apply files_kept_refl].
  destruct (ht_set (contents f) key value) as [h [|]]; apply files_kept_alter.
Qed.

Lemma remove_files_kept (w : world) (idx : Z) (key : bytes) :
  files_kept (files w) (files (snd (shmht_remove w idx key))).
Proof.
  unfold shmht_remove. destruct (bad_handle w idx); [apply files_kept_refl|].
  destruct (deref _ _) as [[name f]|]; [|apply files_kept_refl].
  destruct (ht_remove (contents f) key) as [h [|]]; apply files_kept_alter.
Qed.

Lemma getval_files (others : gmap string file -> gmap string file)
    (w : world) (idx : Z) (key : bytes) :
  files (snd (shmht_getval others w idx key)) = files w \/
  files (snd (shmht_getval others w idx key)) = others (files w).
Proof.
  unfold shmht_getval. destruct (bad_handle w idx); [left; reflexivity|].
  destruct (deref _ _) as [[name f]|]; [|left; reflexivity].
  destruct (ht_get (contents f) key) as [p|]; [|left; reflexivity].
  destruct (deref _ _) as [[name' f']|]; right; reflexivity.
Qed.

Lemma same_process_ok (w w' : world) :
  same_process w w' ->
  (forall n, is_Some (files w !! n) -> is_Some (files w' !! n)) ->
  registry_ok w -> registry_ok w'.
Proof.
  intros (Hm & Hi & Hmaps & Hfds) Hfiles Hok.
  apply (registry_ok_frame w); try assumption. rewrite Hi. apply (ok_idx w Hok).
Qed.

End KeepOk.

(** X1.  The registry invariant holds in the state [init_shmht] leaves and
    every entry point keeps it, whatever it returns: the slots in use
    always name live regions over existing files and open descriptors of
    those files, and no two of them share a region or a descriptor. *)
Theorem registry_stays_consistent `{E : Engine} :
  (forall fs, registry_ok (init_world fs)) /\
  (forall w, registry_ok w ->
     (forall os name c force_init,
         registry_ok (snd (shmht_open os w name c force_init))) /\
     (forall idx, registry_ok (snd (shmht_close w idx))) /\
     (forall others idx key,
         keeps_files others -> registry_ok (snd (shmht_getval others w idx key))) /\
     (forall idx key value, registry_ok (snd (shmht_setval w idx key value))) /\
     (forall idx key, registry_ok (snd (shmht_remove w idx key))) /\
     (forall idx cb, registry_ok (snd (shmht_foreach w idx cb)))).
Proof.
  split; [apply init_world_ok|]. intros w Hok.
  split; [intros; apply open_keeps_registry_ok; exact Hok|].
  split; [intros; apply close_keeps_registry_ok; exact Hok|].
  split; [|split; [|split]].
  - intros others idx key Hkeep.
    apply (same_process_ok w); [apply getval_same_process| |exact Hok].
    destruct (getval_files others w idx key) as [-> | ->]; [auto|apply Hkeep].
  - intros idx key value.
    apply (same_process_ok w); [apply setval_same_process| |exact Hok].
    apply files_kept_some, setval_files_kept.
  - intros idx key.
    apply (same_process_ok w); [apply remove_same_process| |exact Hok].
    apply files_kept_some, remove_files_kept.
  - intros idx cb. destruct (foreach_same_process w idx cb) as [Hsame Hfiles].
    apply (same_process_ok w); [exact Hsame| |exact Hok].
    rewrite Hfiles. auto.
Qed.

Section SearchOrder.
Context `{E : Engine}.

(** Every slot is reached by the cyclic walk from [ht_idx] within
    [max_ht_map_entries] steps. *)
Lemma probed_reaches (w : world) (i : Z) :
  0 <= i < max_ht_map_entries ->
  exists j, 1 <= j <= max_ht_map_entries /\ probed w j = i.
Proof.
  intros Hi. exists ((i - ht_idx w - 1) mod max_ht_map_entries + 1).
  pose proof (Z.mod_pos_bound (i - ht_idx w - 1) max_ht_map_entries) as Hb.
  split; [unfold max_ht_map_entries in *; lia|].
  unfold probed.
  replace (ht_idx w + ((i - ht_idx w - 1) mod max_ht_map_entries + 1))
    with (ht_idx w + 1 + (i - ht_idx w - 1) mod max_ht_map_entries) by lia.
  rewrite Zplus_mod_idemp_r.
  replace (ht_idx w + 1 + (i - ht_idx w - 1)) with i by lia.
  apply Z.mod_small. exact Hi.
Qed.

(** A search that gave up leaves [ht_idx] where the next search covers
    the other half of the registry. *)
Lemma search_after_failure (w w2 : world) :
  -1 <= ht_idx w < max_ht_map_entries ->
  max_ht_map_entries <= fst (probe w) ->
  ht_map w2 = ht_map w -> ht_idx w2 = snd (probe w) ->
  (exists i, 0 <= i < max_ht_map_entries /\ ht (slot (ht_map w) i) = NULL) ->
  fst (probe w2) < max_ht_map_entries /\
  ht (slot (ht_map w) (snd (probe w2))) = NULL /\
  0 <= snd (probe w2) < max_ht_map_entries.
Proof.
  intros Hidx Hfail Hm Hi (i & Hr & Hfree).
  destruct (probe_turns w Hidx) as [(k & Hk & Hp & _)|[Hp Hbusy]];
    [rewrite Hp in Hfail; cbn [fst] in Hfail; unfold max_ht_map_entries in Hfail; lia|].
  rewrite Hp in Hi. cbn [snd] in Hi.
  destruct (probed_reaches w i Hr) as (j & Hj & Hij).
  assert (Hlate : 1024 < j).
  { destruct (Z_lt_le_dec 1024 j) as [H|H]; [exact H|].
    exfalso. apply (Hbusy j); [lia|]. rewrite Hij. exact Hfree. }
  assert (Hidx2 : -1 <= ht_idx w2 < max_ht_map_entries)
    by (rewrite Hi; pose proof (probed_range w 1024); lia).
  assert (Hsame : (ht_idx w2 + (j - 1024)) mod max_ht_map_entries = i).
  { rewrite Hi. unfold probed. rewrite Zplus_mod_idemp_l.
    replace (ht_idx w + 1024 + (j - 1024)) with (ht_idx w + j) by lia. exact Hij. }
  rewrite <- Hm.
  apply (probe_window_free w2 (j - 1024) Hidx2);
    [unfold max_ht_map_entries in Hj; lia|].
  rewrite Hsame, Hm. exact Hfree.
Qed.

Lemma late_none (name : string) (pre : list event) (force_init capacity : Z)
    (w w' : world) :
  late name pre force_init capacity w = (Returned None, w') ->
  w' = refused name pre force_init capacity w /\
  max_ht_map_entries <= fst (probe w).
Proof.
  unfold late. intros Hlate.
  destruct (Z.leb_spec max_ht_map_entries (fst (probe w))) as [Hfail|Hfound];
    [|discriminate].
  injection Hlate as <-. split; [reflexivity|exact Hfail].
Qed.

Lemma probe_window_free_at (w : world) :
  -1 <= ht_idx w < max_ht_map_entries ->
  fst (probe w) < max_ht_map_entries ->
  ht (slot (ht_map w) (snd (probe w))) = NULL /\
  0 <= snd (probe w) < max_ht_map_entries.
Proof.
  intros Hidx Hfound.
  destruct (probe_turns w Hidx) as [(k & Hk & Hp & Hfree & _)|[Hp _]];
    rewrite Hp in *; cbn [fst snd] in *; [|lia].
  split; [exact Hfree|apply probed_range].
Qed.

Lemma open_maps_live (os : faults) (w : world) (name : string) (c force_init : Z)
    (p : Z) (r : mapping) :
  registry_ok w -> maps w !! p = Some r ->
  maps (snd (shmht_open os w name c force_init)) !! p = Some r.
Proof.
  intros Hok Hp.
  destruct (shmht_open_outcome os w name c force_init (ok_failed w Hok) (ok_idx w Hok))
    as [(_ & _ & _ & Hmaps & _)|(capacity & pre & _ & Heq)].
  - rewrite Hmaps. exact Hp.
  - rewrite Heq. cbn [snd attached maps].
    rewrite lookup_insert_ne; [exact Hp|].
    intros Heq'. rewrite <- Heq', unmapped_base_unused in Hp. discriminate.
Qed.

Lemma open_slot_kept (os : faults) (w : world) (name : string) (c force_init : Z)
    (j : Z) :
  registry_ok w -> bad_handle w j = false ->
  slot (ht_map (snd (shmht_open os w name c force_init))) j = slot (ht_map w) j.
Proof.
  intros Hok Hj. apply bad_handle_false in Hj. destruct Hj as [Hr Hbusy].
  pose proof (ok_idx w Hok) as Hidx.
  destruct (shmht_open_outcome os w name c force_init (ok_failed w Hok) Hidx)
    as [(_ & Hm & _)|(capacity & pre & Hfound & Heq)].
  - rewrite Hm. reflexivity.
  - rewrite Heq. cbn [snd attached ht_map].
    destruct (probe_window_free_at w Hidx Hfound) as [Hfree Hrange].
    apply slot_other; [lia|lia|]. intros ->. contradiction.
Qed.

End SearchOrder.

(** X4.  A successful [open] returns the first free slot in cyclic order
    after [ht_idx], found within 1024 steps; the handle is in range, its
    slot was free, it becomes [ht_idx] and is valid afterwards, holding a
    descriptor and a region base that were not in use; the region maps the
    named file; every other slot is as it was. *)
Theorem open_takes_first_free_slot `{E : Engine} (os : faults) (w : world)
    (name : string) (c force_init h : Z) (w' : world) :
  registry_ok w ->
  shmht_open os w name c force_init = (Returned (Some (PyInt h)), w') ->
  (exists k, 1 <= k <= 1024 /\ h = probed w k /\
     forall j, 1 <= j < k -> ht (slot (ht_map w) (probed w j)) <> NULL) /\
  0 <= h < max_ht_map_entries /\
  ht (slot (ht_map w) h) = NULL /\
  ht_idx w' = h /\ bad_handle w' h = false /\
  fds w !! fd (slot (ht_map w') h) = None /\
  maps w !! ht (slot (ht_map w') h) = None /\
  (exists f, deref w' (ht (slot (ht_map w') h)) = Some (name, f)) /\
  (forall j, 0 <= j -> j <> h -> slot (ht_map w') j = slot (ht_map w) j).
Proof.
  intros Hok Hrun. pose proof (ok_idx w Hok) as Hidx.
  destruct (shmht_open_outcome os w name c force_init (ok_failed w Hok) Hidx)
    as [(Hnone & _)|(capacity & pre & Hfound & Heq)].
  { rewrite Hrun in Hnone. discriminate. }
  rewrite Hrun in Heq. injection Heq as Hh Hw'.
  destruct (probe_turns w Hidx) as [(k & Hk & Hp & Hfree & Hbefore)|[Hp _]];
    [|rewrite Hp in Hfound; cbn [fst] in Hfound; lia].
  rewrite Hp in Hh. cbn [snd] in Hh.
  pose proof (probed_range w k) as Hrange. rewrite <- Hh in *.
  assert (Hin : (Z.to_nat h < length (ht_map w))%nat)
    by (rewrite (ok_len w Hok); unfold max_ht_map_entries in *; lia).
  assert (Hslot : slot (ht_map w') h
                  = {| fd := new_fd w; mem_size := ht_memory_size capacity;
                       ht := unmapped_base (maps w) |}).
  { rewrite Hw'. cbn [attached ht_map]. rewrite Hp. cbn [snd].
    apply slot_stored_at. exact Hin. }
  split; [exists k; split; [exact Hk|]; split; [exact Hh|exact Hbefore]|].
  split; [exact Hrange|]. split; [exact Hfree|].
  split; [rewrite Hw'; cbn [attached ht_idx]; rewrite Hp; reflexivity|].
  split.
  { apply bad_handle_false. split; [exact Hrange|]. rewrite Hslot. cbn [ht].
    pose proof (unmapped_base_ge (maps w)). unfold NULL. lia. }
  rewrite Hslot. cbn [fd ht].
  split; [apply new_fd_unused|]. split; [apply unmapped_base_unused|].
  split.
  { eexists. unfold deref. rewrite Hw'. cbn [attached maps files].
    rewrite lookup_insert_eq. cbn [mbind option_bind m_file].
    rewrite lookup_insert_eq. reflexivity. }
  intros j Hj Hne. rewrite Hw'. cbn [attached ht_map]. rewrite Hp. cbn [snd].
  apply slot_other; [lia|exact Hj|exact Hne].
Qed.

(** X5.  When [open] fails with "exceeded max_ht_map_entries" although a
    slot is free, the search has moved [ht_idx] past the half it looked
    at: the same creating call made again (system calls succeeding)
    returns a handle, on a slot that was free. *)
Theorem retry_after_failed_search `{E : Engine} (os : faults) (w : world)
    (name : string) (c force_init : Z) (w1 : world) :
  -1 <= ht_idx w < max_ht_map_entries ->
  open_fails os = false -> lseek_fails os = false ->
  write_fails os = false -> mmap_fails os = false ->
  force_init <> 0 ->
  shmht_open os w name c force_init = (Returned None, w1) ->
  pyerr w1 = Some Err_exceeded_max_ht_map_entries ->
  (exists i, 0 <= i < max_ht_map_entries /\ ht (slot (ht_map w) i) = NULL) ->
  exists h w2,
    shmht_open os w1 name c force_init = (Returned (Some (PyInt h)), w2) /\
    0 <= h < max_ht_map_entries /\
    ht (slot (ht_map w) h) = NULL.
Proof.
  intros Hidx Hop Hls Hwr Hmm Hforce Hrun Herr Hfree.
  pose proof (shmht_open_cases os w name c force_init) as Hcases. cbv zeta in Hcases.
  rewrite Hrun in Hcases.
  destruct Hcases
    as [[Hop' _]|[_ (pre & _ & [Hrej|(capacity & Hcap & Hreq & Hlate)])]].
  { rewrite Hop in Hop'. discriminate. }
  { destruct Hrej as (e & w' & Heq & He & Hne & _). injection Heq as <-.
    rewrite Herr in He. injection He as <-. contradiction. }
  specialize (Hreq Hforce). subst capacity.
  symmetry in Hlate. apply late_none in Hlate. destruct Hlate as [Hw1 Hfail].
  assert (Hm : ht_map w1 = ht_map w) by (rewrite Hw1; reflexivity).
  assert (Hi : ht_idx w1 = snd (probe w)) by (rewrite Hw1; reflexivity).
  destruct (search_after_failure w w1 Hidx Hfail Hm Hi Hfree) as (Hlt & Hnull & Hrange).
  exists (snd (probe w1)), (attached name [] force_init (PyArg_store_int 0 c) w1).
  split; [|split; [exact Hrange|exact Hnull]].
  rewrite (shmht_open_create os w1 name c force_init Hop Hforce Hcap Hls Hwr Hmm).
  unfold late.
  destruct (Z.leb_spec max_ht_map_entries (fst (probe w1))); [lia|reflexivity].
Qed.

(** X6.  [open], whether it succeeds or fails, leaves every handle that
    was valid in place: its slot is untouched, it is still valid, and its
    region still maps the same file, which has not shrunk and, unless it
    is the file being opened, has not changed. *)
Theorem open_leaves_handles_in_place `{E : Engine} (os : faults) (w : world)
    (name : string) (c force_init j : Z) :
  registry_ok w -> bad_handle w j = false ->
  let w' := snd (shmht_open os w name c force_init) in
  slot (ht_map w') j = slot (ht_map w) j /\
  bad_handle w' j = false /\
  exists n f f',
    deref w (ht (slot (ht_map w) j)) = Some (n, f) /\
    deref w' (ht (slot (ht_map w') j)) = Some (n, f') /\
    st_size f <= st_size f' /\
    (n <> name -> f' = f).
Proof.
  intros Hok Hj w'.
  pose proof (open_slot_kept os w name c force_init j Hok Hj) as Hslot.
  fold w' in Hslot.
  pose proof (proj1 (bad_handle_false _ _) Hj) as [Hr Hbusy].
  split; [exact Hslot|].
  split; [apply bad_handle_false; rewrite Hslot; split; assumption|].
  destruct (ok_live w Hok j Hr Hbusy) as (r & f & Hmap & Hfile & _).
  pose proof (open_maps_live os w name c force_init _ r Hok Hmap) as Hmap'.
  fold w' in Hmap'.
  exists (m_file r), f.
  assert (Hfiles : exists f', files w' !! m_file r = Some f' /\
             st_size f <= st_size f' /\ (m_file r <> name -> f' = f)).
  { destruct (shmht_open_files os w name c force_init)
      as [[_ Heq]|[_ (f' & Heq & Hle)]]; fold w' in Heq; rewrite Heq.
    - exists f. split; [exact Hfile|]. split; [lia|reflexivity].
    - destruct (decide (m_file r = name)) as [Hn|Hn].
      + exists f'. rewrite Hn, lookup_insert_eq. split; [reflexivity|].
        split; [|contradiction].
        unfold file_at in Hle. rewrite <- Hn, Hfile in Hle. exact Hle.
      + exists f. rewrite lookup_insert_ne by congruence.
        split; [exact Hfile|]. split; [lia|reflexivity]. }
  destruct Hfiles as (f' & Hf' & Hle & Hsame). exists f'.
  split; [unfold deref; rewrite Hmap; cbn [mbind option_bind]; rewrite Hfile; reflexivity|].
  split; [|split; [exact Hle|exact Hsame]].
  rewrite Hslot. unfold deref. rewrite Hmap'. cbn [mbind option_bind].
  rewrite Hf'. reflexivity.
Qed.

(** X7.  In the state [init_shmht] leaves no handle is valid, and an
    [open] that succeeds returns handle 0. *)
Theorem first_handle_is_zero `{E : Engine} (fs : gmap string file) :
  (forall idx, bad_handle (init_world fs) idx = true) /\
  (forall os name c force_init h w',
      shmht_open os (init_world fs) name c force_init = (Returned (Some (PyInt h)), w') ->
      h = 0).
Proof.
  split.
  - intros idx. apply bad_handle_true. right; right.
    cbn [init_world ht_map]. rewrite slot_replicate. reflexivity.
  - intros os name c force_init h w' Hrun.
    destruct (shmht_open_outcome os (init_world fs) name c force_init)
      as [(Hnone & _)|(capacity & pre & _ & Heq)].
    + apply lookup_empty.
    + cbn [init_world ht_idx]. unfold max_ht_map_entries. lia.
    + rewrite Hrun in Hnone. discriminate.
    + rewrite Hrun in Heq. injection Heq as Hh _.
      rewrite Hh. reflexivity.
Qed.

(** X8.  An [open] that fails, on whatever path, leaves nothing behind
    in the process: the registry slots, the address space and the
    descriptor table are what they were, no lock is held that was not
    held before, and the error indicator is set. *)
Theorem failed_open_leaks_nothing `{E : Engine} (os : faults) (w : world)
    (name : string) (c force_init : Z) (w' : world) :
  maps w !! MAP_FAILED = None ->
  shmht_open os w name c force_init = (Returned None, w') ->
  ht_map w' = ht_map w /\ maps w' = maps w /\ fds w' = fds w /\
  flocks w' ⊆ flocks w /\ is_Some (pyerr w').
Proof.
  intros Hfailed Hrun.
  pose proof (shmht_open_maps os w name c force_init Hfailed) as Hmaps.
  pose proof (open_disciplined os w name c force_init) as (r & _ & Hfl & _).
  pose proof (shmht_open_cases os w name c force_init) as Hcases. cbv zeta in Hcases.
  rewrite Hrun in Hmaps, Hfl, Hcases. cbn [fst snd] in Hmaps, Hfl.
  specialize (Hmaps eq_refl).
  split; [|split; [exact Hmaps|]].
  - destruct Hcases
      as [[_ Hfail]|[_ (pre & _ & [Hrej|(capacity & _ & _ & Hlate)])]].
    + injection Hfail as ->. reflexivity.
    + destruct Hrej as (e & w1 & Heq & _ & _ & Hm & _). injection Heq as <-. exact Hm.
    + symmetry in Hlate. apply late_none in Hlate.
        destruct Hlate as [-> _]. reflexivity.
  - split; [|split; [exact Hfl|]].
    + destruct Hcases
        as [[_ Hfail]|[_ (pre & _ & [Hrej|(capacity & _ & _ & Hlate)])]].
      * injection Hfail as ->. reflexivity.
      * destruct Hrej as (e & w1 & Heq & _ & _ & _ & _ & _ & Hfds & _).
        injection Heq as <-. exact Hfds.
      * symmetry in Hlate. apply late_none in Hlate.
        destruct Hlate as [-> _]. reflexivity.
    + destruct Hcases
        as [[_ Hfail]|[_ (pre & _ & [Hrej|(capacity & _ & _ & Hlate)])]].
      * injection Hfail as ->. cbn. eauto.
      * destruct Hrej as (e & w1 & Heq & He & _). injection Heq as <-.
        rewrite He. eauto.
      * symmetry in Hlate. apply late_none in Hlate.
        destruct Hlate as [-> _]. cbn. eauto.
Qed.

Section Sharing.
Context `{E : Engine}.

Lemma deref_at (w : world) (p : Z) (name : string) (f : file) :
  deref w p = Some (name, f) ->
  exists r, maps w !! p = Some r /\ m_file r = name /\ files w !! name = Some f.
Proof.
  unfold deref. intros H.
  destruct (maps w !! p) as [r|]; cbn [mbind option_bind] in H; [|discriminate].
  destruct (files w !! m_file r) as [f'|] eqn:Hf; cbn [mbind option_bind] in H;
    [|discriminate].
  injection H as <- <-. exists r. repeat split. exact Hf.
Qed.

Lemma deref_written (w w' : world) (p : Z) (name : string) (f g : file) :
  deref w p = Some (name, f) ->
  maps w' = maps w -> files w' = <[name := g]> (files w) ->
  deref w' p = Some (name, g).
Proof.
  intros Hd Hm Hf. destruct (deref_at w p name f Hd) as (r & Hr & Hn & _).
  unfold deref. rewrite Hm, Hr. cbn [mbind option_bind].
  rewrite Hf, Hn, lookup_insert_eq. reflexivity.
Qed.

Lemma getval_reads (w : world) (idx : Z) (key : bytes) (name : string) (f : file) :
  bad_handle w idx = false ->
  deref w (ht (slot (ht_map w) idx)) = Some (name, f) ->
  fst (shmht_getval id w idx key)
  = Returned (Some (match ht_get (contents f) key with
                    | Some p => PyString (ht_str_at (contents f) p)
                    | None => PyNone
                    end)).
Proof.
  intros Hok Hd. pose proof (getval_run w idx key name f Hok Hd) as Hrun.
  cbv zeta in Hrun. rewrite Hrun. reflexivity.
Qed.

End Sharing.

(** X9.  What [setval] or [remove] writes through one handle is what
    [getval] reads through any handle of the process whose region maps the
    same file, the handle written through included: the regions are shared
    mappings of the file, not copies.  Both regions are to be long enough
    for the table the file holds; a handle opened before the file was
    given a larger table has a region that is not, and is left out. *)
Theorem write_seen_through_every_handle `{E : Engine} (w : world) (i j : Z)
    (name : string) (f : file) :
  bad_handle w i = false -> bad_handle w j = false ->
  deref w (ht (slot (ht_map w) i)) = Some (name, f) ->
  deref w (ht (slot (ht_map w) j)) = Some (name, f) ->
  covers w i f -> covers w j f ->
  let found (h : hashtable) (key : bytes) :=
    Returned (Some (match ht_get h key with
                    | Some p => PyString (ht_str_at h p)
                    | None => PyNone
                    end)) in
  (forall key value key',
      fst (shmht_getval id (snd (shmht_setval w i key value)) j key')
      = found (fst (ht_set (contents f) key value)) key') /\
  (forall key key',
      fst (shmht_getval id (snd (shmht_remove w i key)) j key')
      = found (fst (ht_remove (contents f) key)) key').
Proof.
  intros Hi Hj Hdi Hdj _ _ found. split.
  - intros key value key'.
    pose proof (setval_run w i key value name f Hi Hdi) as Hrun. cbv zeta in Hrun.
    rewrite Hrun. cbn [snd].
    match goal with |- fst (shmht_getval id ?x j _) = _ => set (w1 := x) end.
    apply (getval_reads w1 j key' name
             {| st_size := st_size f; contents := fst (ht_set (contents f) key value) |}).
    + exact Hj.
    + apply (deref_written w w1 _ name f); [exact Hdj|reflexivity|reflexivity].
  - intros key key'.
    pose proof (remove_run w i key name f Hi Hdi) as Hrun. cbv zeta in Hrun.
    rewrite Hrun. cbn [snd].
    match goal with |- fst (shmht_getval id ?x j _) = _ => set (w1 := x) end.
    apply (getval_reads w1 j key' name
             {| st_size := st_size f; contents := fst (ht_remove (contents f) key) |}).
    + exact Hj.
    + apply (deref_written w w1 _ name f); [exact Hdj|reflexivity|reflexivity].
Qed.

Section WriteFrame.
Context `{E : Engine}.




End WriteFrame.


(** X11.  [getval] writes nothing: on every path the registry, the
    address space and the descriptor table are what they were, and the
    files are what they were or, on a hit, what the other processes made
    of them after the unlock. *)
Theorem getval_writes_nothing `{E : Engine}
    (others : gmap string file -> gmap string file) (w : world) (idx : Z)
    (key : bytes) :
  let w' := snd (shmht_getval others w idx key) in
  (files w' = files w \/ files w' = others (files w)) /\
  same_process w w'.
Proof.
  intros w'. split; [apply getval_files|apply getval_same_process].
Qed.

(** X12.  A capacity argument that fits a C [int] comes back unchanged
    from the cast the error message prints it with; a non-negative one is
    the capacity the code works with; and the "please specify 'capacity'"
    test sees zero exactly when the argument is zero. *)
Theorem capacity_argument_round_trip (c : Z) :
  - 2 ^ 31 <= c < 2 ^ 31 ->
  to_int (PyArg_store_int 0 c) = c /\
  (0 <= c -> PyArg_store_int 0 c = c) /\
  (PyArg_store_int 0 c = 0 <-> c = 0).
Proof.
  intros Hc. rewrite PyArg_store_int_fresh.
  assert (Hmod : c mod 2 ^ 32 = if c <? 0 then c + 2 ^ 32 else c).
  { destruct (Z.ltb_spec c 0).
    - symmetry. apply Z.mod_unique with (q := -1); lia.
    - apply Z.mod_small. lia. }
  split; [|split].
  - unfold to_int. rewrite Z.land_ones by lia. rewrite Z.mod_mod by lia.
    rewrite Hmod. cbv zeta.
    destruct (Z.ltb_spec c 0);
      match goal with |- context [?a <? ?b] => destruct (Z.ltb_spec a b) end; lia.
  - intros H0. rewrite Hmod. destruct (Z.ltb_spec c 0); lia.
  - rewrite Hmod. destruct (Z.ltb_spec c 0); lia.
Qed.

Section ErrorIndicator.
Context `{E : Engine}.







End ErrorIndicator.


Section Brackets.
Context `{E : Engine}.

Lemma bracketed_intro (d : Z) (mid : list event) (l : list event) :
  Forall quiet mid ->
  exists t, EvFlock d LOCK_UN :: mid ++ EvFlock d LOCK_EX :: l = t ++ l /\
            bracketed d t.
Proof.
  intros Hq. exists (EvFlock d LOCK_UN :: mid ++ [EvFlock d LOCK_EX]). split.
  - cbn [app]. rewrite <- app_assoc. reflexivity.
  - exists mid. split; [reflexivity|exact Hq].
Qed.

Lemma open_bracketed (os : faults) (w : world) (name : string) (c force_init : Z) :
  exists t, log (snd (shmht_open os w name c force_init)) = t ++ log w /\
            (t = [] \/ bracketed (new_fd w) t).
Proof.
  destruct (shmht_open_cases os w name c force_init)
    as [[_ Hfail]|[_ (pre & Hpre & [Hrej|(capacity & _ & _ & Hlate)])]]; cbv zeta in *.
  - rewrite Hfail. exists []. split; [reflexivity|left; reflexivity].
  - destruct Hrej as (e & w' & Heq & _ & _ & _ & _ & _ & _ & _ & Hlog).
    rewrite Heq. cbn [snd]. rewrite Hlog.
    destruct (bracketed_intro (new_fd w) pre (log w)) as (t & Ht & Hb).
    { destruct Hpre as [-> | ->]; repeat constructor. }
    exists t. split; [exact Ht|right; exact Hb].
  - rewrite Hlate. unfold late.
    destruct (bracketed_intro (new_fd w) (EvAccess (unmapped_base (maps w)) :: pre) (log w))
      as (t & Ht & Hb).
    { destruct Hpre as [-> | ->]; repeat constructor. }
    exists t. split; [|right; exact Hb].
    destruct (max_ht_map_entries <=? fst (probe w)); cbn [snd refused attached log];
      exact Ht.
Qed.

End Brackets.

(** X14.  [open], [setval] and [remove], when they return, have either
    logged nothing or logged a trace that starts with the lock being taken
    and ends with its release, with no other [flock] between: every access
    to the region falls inside.  [getval] is the exception: on a hit one
    access to the region follows the release. *)
Theorem accesses_between_lock_and_unlock `{E : Engine} (w : world) :
  let framed (d : Z) (w' : world) :=
    exists t, log w' = t ++ log w /\ (t = [] \/ bracketed d t) in
  (forall os name c force_init,
      framed (new_fd w) (snd (shmht_open os w name c force_init))) /\
  (forall idx key value,
      fst (shmht_setval w idx key value) <> Segfault ->
      framed (fd (slot (ht_map w) idx)) (snd (shmht_setval w idx key value))) /\
  (forall idx key,
      fst (shmht_remove w idx key) <> Segfault ->
      framed (fd (slot (ht_map w) idx)) (snd (shmht_remove w idx key))) /\
  (forall idx key,
      fst (shmht_getval id w idx key) <> Segfault ->
      exists t, log (snd (shmht_getval id w idx key)) = t ++ log w /\
        (t = [] \/ bracketed (fd (slot (ht_map w) idx)) t \/
         exists t', t = EvAccess (ht (slot (ht_map w) idx)) :: t' /\
                    bracketed (fd (slot (ht_map w) idx)) t')).
Proof.
  intros framed.
  assert (Hidle : forall d w', log w' = log w -> framed d w').
  { intros d w' Hl. exists []. split; [exact Hl|left; reflexivity]. }
  assert (Hone : forall d p l, exists t,
             EvFlock d LOCK_UN :: EvAccess p :: EvFlock d LOCK_EX :: l = t ++ l /\
             bracketed d t).
  { intros d p l. apply (bracketed_intro d [EvAccess p] l). repeat constructor. }
  split; [intros; apply open_bracketed|].
  split; [|split].
  - intros idx key value Hret. destruct (bad_handle w idx) eqn:Hbad.
    { apply Hidle. unfold shmht_setval. rewrite Hbad. reflexivity. }
    destruct (deref w (ht (slot (ht_map w) idx))) as [[name f]|] eqn:Hd.
    + pose proof (setval_run w idx key value name f Hbad Hd) as Hrun. cbv zeta in Hrun.
      rewrite Hrun. cbn [snd log].
      destruct (Hone (fd (slot (ht_map w) idx)) (ht (slot (ht_map w) idx)) (log w))
        as (t & Ht & Hb).
      exists t. split; [exact Ht|right; exact Hb].
    + exfalso. apply Hret. unfold shmht_setval. rewrite Hbad. cbv zeta.
      rewrite (deref_ext (mylock _ w) w) by reflexivity. rewrite Hd. reflexivity.
  - intros idx key Hret. destruct (bad_handle w idx) eqn:Hbad.
    { apply Hidle. unfold shmht_remove. rewrite Hbad. reflexivity. }
    destruct (deref w (ht (slot (ht_map w) idx))) as [[name f]|] eqn:Hd.
    + pose proof (remove_run w idx key name f Hbad Hd) as Hrun. cbv zeta in Hrun.
      rewrite Hrun. cbn [snd log].
      destruct (Hone (fd (slot (ht_map w) idx)) (ht (slot (ht_map w) idx)) (log w))
        as (t & Ht & Hb).
      exists t. split; [exact Ht|right; exact Hb].
    + exfalso. apply Hret. unfold shmht_remove. rewrite Hbad. cbv zeta.
      rewrite (deref_ext (mylock _ w) w) by reflexivity. rewrite Hd. reflexivity.
  - intros idx key Hret. destruct (bad_handle w idx) eqn:Hbad.
    { exists []. split; [|left; reflexivity].
      unfold shmht_getval. rewrite Hbad. reflexivity. }
    destruct (deref w (ht (slot (ht_map w) idx))) as [[name f]|] eqn:Hd.
    + pose proof (getval_run w idx key name f Hbad Hd) as Hrun. cbv zeta in Hrun.
      rewrite Hrun. cbn [snd log].
      destruct (Hone (fd (slot (ht_map w) idx)) (ht (slot (ht_map w) idx)) (log w))
        as (t & Ht & Hb).
      destruct (ht_get (contents f) key) as [p|].
      * exists (EvAccess (ht (slot (ht_map w) idx)) :: t).
        split; [cbn [app]; rewrite Ht; reflexivity|].
        right; right. exists t. split; [reflexivity|exact Hb].
      * exists t. split; [exact Ht|right; left; exact Hb].
    + exfalso. apply Hret. unfold shmht_getval. rewrite Hbad. cbv zeta.
      rewrite (deref_ext (mylock _ w) w) by reflexivity. rewrite Hd. reflexivity.
Qed.

(** X15.  [close] never calls [flock]: whatever it logs is no lock
    operation, and it holds no lock afterwards that was not held before.
    On a valid handle the one thing it logs is the access [ht_destroy]
    makes to the region, which therefore happens without the lock. *)
Theorem close_takes_no_lock `{E : Engine} (w : world) (idx : Z) :
  let w' := snd (shmht_close w idx) in
  (exists t, log w' = t ++ log w /\ Forall quiet t /\
     (fst (shmht_close w idx) = Returned (Some PyTrue) ->
      t = [EvAccess (ht (slot (ht_map w) idx))])) /\
  flocks w' ⊆ flocks w.
Proof.
  intros w'. unfold w'. destruct (bad_handle w idx) eqn:Hbad.
  { unfold shmht_close. rewrite Hbad. cbn [fst snd].
    split; [|reflexivity]. exists []. split; [reflexivity|].
    split; [constructor|discriminate]. }
  destruct (deref w (ht (slot (ht_map w) idx))) as [[name f]|] eqn:Hd.
  - rewrite (close_run w idx name f Hbad Hd). cbn [fst snd log flocks].
    split; [|intros x Hx; apply elem_of_difference in Hx; tauto].
    exists [EvAccess (ht (slot (ht_map w) idx))].
    split; [reflexivity|]. split; [repeat constructor|reflexivity].
  - unfold shmht_close. rewrite Hbad. cbv zeta. rewrite Hd. cbn [fst snd].
    split; [|reflexivity]. exists []. split; [reflexivity|].
    split; [constructor|discriminate].
Qed.

(** X16.  Closing one handle leaves every other valid handle usable,
    also one on the same file: its slot is untouched, its descriptor is
    still open and its region still maps the file it mapped. *)
Theorem close_leaves_other_handles `{E : Engine} (w : world) (i j : Z) :
  registry_ok w ->
  bad_handle w i = false -> bad_handle w j = false -> i <> j ->
  let w' := snd (shmht_close w i) in
  slot (ht_map w') j = slot (ht_map w) j /\
  bad_handle w' j = false /\
  fds w' !! fd (slot (ht_map w) j) = fds w !! fd (slot (ht_map w) j) /\
  deref w' (ht (slot (ht_map w) j)) = deref w (ht (slot (ht_map w) j)) /\
  is_Some (deref w' (ht (slot (ht_map w') j))).
Proof.
  intros Hok Hi Hj Hne w'.
  pose proof (proj1 (bad_handle_false _ _) Hi) as [Hri Hbi].
  pose proof (proj1 (bad_handle_false _ _) Hj) as [Hrj Hbj].
  destruct (live_handle w i Hok Hi) as (name & f & Hd).
  destruct (live_handle w j Hok Hj) as (name' & f' & Hd').
  destruct (ok_apart w Hok i j Hri Hrj Hne Hbi Hbj) as [Hht Hfd].
  assert (Hw' : w' = snd (shmht_close w i)) by reflexivity.
  rewrite (close_run w i name f Hi Hd) in Hw'. cbn [snd] in Hw'.
  assert (Hslot : slot (ht_map w') j = slot (ht_map w) j).
  { rewrite Hw'. cbn [ht_map]. apply slot_other; lia. }
  assert (Hderef : deref w' (ht (slot (ht_map w) j)) = deref w (ht (slot (ht_map w) j))).
  { unfold deref. rewrite Hw'. cbn [maps files].
    rewrite lookup_delete_ne by congruence. reflexivity. }
  split; [exact Hslot|].
  split; [apply bad_handle_false; rewrite Hslot; split; assumption|].
  split; [rewrite Hw'; cbn [fds]; apply lookup_delete_ne; congruence|].
  split; [exact Hderef|].
  rewrite Hslot, Hderef, Hd'. eauto.
Qed.

(** X17.  [foreach] with a visitor that makes no call into the module
    and touches no file -- it computes from the two strings, and returns
    or raises.  Such a [foreach] writes nothing, and when it returns it
    has either logged nothing or a trace that starts with the lock being
    taken and ends with its release, with no other [flock] between: every
    access to the region and every visitor call falls inside.  (A visitor
    that calls [getval] or [setval] on the handle would release the lock
    in the middle of the loop.) *)
Theorem foreach_with_passive_visitor `{E : Engine} (w : world) (idx : Z)
    (cb : callback) :
  let w' := snd (shmht_foreach w idx cb) in
  files w' = files w /\ same_process w w' /\
  (fst (shmht_foreach w idx cb) <> Segfault ->
   exists t, log w' = t ++ log w /\
             (t = [] \/ bracketed (fd (slot (ht_map w) idx)) t)).
Proof.
  intros w'. destruct (foreach_same_process w idx cb) as [Hsame Hfiles].
  split; [exact Hfiles|]. split; [exact Hsame|]. unfold w'.
  intros Hret. destruct (bad_handle w idx) eqn:Hbad.
  { exists []. split; [|left; reflexivity].
    unfold shmht_foreach. rewrite Hbad. reflexivity. }
  destruct cb as [f|].
  2: { exists []. split; [|left; reflexivity].
       unfold shmht_foreach. rewrite Hbad. reflexivity. }
  destruct (deref w (ht (slot (ht_map w) idx))) as [[name file]|] eqn:Hd.
  - destruct (foreach_run w idx f name file Hbad Hd)
      as (w1 & t & Hrun & Hlog & Hq & _).
    rewrite Hrun. cbn [snd]. rewrite Hlog.
    destruct (bracketed_intro (fd (slot (ht_map w) idx))
                (EvAccess (ht (slot (ht_map w) idx)) :: t) (log w))
      as (t0 & Ht0 & Hb); [constructor; [exact I|exact Hq]|].
    exists t0. split; [exact Ht0|right; exact Hb].
  - exfalso. apply Hret. unfold shmht_foreach. rewrite Hbad. cbv zeta.
    rewrite (deref_ext (mylock _ w) w) by reflexivity. rewrite Hd. reflexivity.
Qed.

(** ** The properties on the sample worlds *)

Import Shared.

(** ** The sample worlds satisfy the registry invariant *)

Lemma w_open_ok : registry_ok w_open.
Proof. apply open_keeps_registry_ok, init_world_ok. Qed.

Lemma w_ab_ok : registry_ok w_ab.
Proof.
  unfold w_ab, after.
  eapply same_process_ok;
    [apply setval_same_process|apply files_kept_some, setval_files_kept|].
  eapply same_process_ok;
    [apply setval_same_process|apply files_kept_some, setval_files_kept|].
  exact w_open_ok.
Qed.

Lemma w_two_ok : registry_ok w_two.
Proof. apply open_keeps_registry_ok, w_ab_ok. Qed.

Lemma w_two_handles :
  bad_handle w_two 0 = false /\ bad_handle w_two 1 = false /\
  deref w_two (ht (slot (ht_map w_two) 0)) = Some ("t.db", f_ab) /\
  deref w_two (ht (slot (ht_map w_two) 1)) = Some ("t.db", f_ab).
Proof.
  split; [by_evaluation|]. split; [by_evaluation|]. split; by_evaluation.
Qed.

(** X1 at the first [open] and the [close] that follows it. *)
Lemma registry_stays_consistent_witness :
  registry_ok w0 /\ registry_ok w_open /\ registry_ok (after (shmht_close w_open 0)).
Proof.
  destruct (@registry_stays_consistent spec_engine) as [Hinit Hkeep].
  pose proof (Hinit ∅) as H0.
  pose proof (proj1 (Hkeep w0 H0) no_faults "t.db"%string 4 0) as H1.
  split; [exact H0|]. split; [exact H1|].
  exact (proj1 (proj2 (Hkeep w_open H1)) 0).
Defined.

(** X4 at the second [open] of the table of [w_ab]. *)
Lemma open_takes_first_free_slot_witness :
  registry_ok w_ab /\
  exists w',
    shmht_open no_faults w_ab "t.db" 0 0 = (Returned (Some (PyInt 1)), w') /\
    ht (slot (ht_map w_ab) 1) = NULL /\
    ht_idx w' = 1 /\ bad_handle w' 1 = false.
Proof.
  assert (Hrange : 0 <= 0 + 1 < max_ht_map_entries) by (unfold max_ht_map_entries; lia).
  assert (Hnext : ht (slot (ht_map w_ab) (0 + 1)) = NULL)
    by (apply (rs_free _ _ _ _ w_ab_state); unfold max_ht_map_entries; lia).
  destruct (reopen_step 0 1 1 w_ab w_ab_state Hrange Hnext) as [Hrun _].
  split; [exact w_ab_ok|].
  exists (attached "t.db" [EvAccess (unmapped_base (maps w_ab))] 0 4 w_ab).
  split; [exact Hrun|].
  destruct (open_takes_first_free_slot no_faults w_ab "t.db" 0 0 1 _ w_ab_ok Hrun)
    as (_ & _ & Hfree & Hidx & Hvalid & _).
  split; [exact Hfree|]. split; [exact Hidx|exact Hvalid].
Defined.

(** X5 at [w_half]: the first creating [open] fails, the second one
    returns a handle. *)
Lemma retry_after_failed_search_witness :
  let r := shmht_open no_faults w_half "t.db" 4 1 in
  r = (Returned None, snd r) /\
  pyerr (snd r) = Some Err_exceeded_max_ht_map_entries /\
  ht (slot (ht_map w_half) 1024) = NULL /\
  exists h w2,
    shmht_open no_faults (snd r) "t.db" 4 1 = (Returned (Some (PyInt h)), w2) /\
    0 <= h < max_ht_map_entries /\
    ht (slot (ht_map w_half) h) = NULL.
Proof.
  intros r. destruct w_half_state as [Hidx Hlen Hbusy Hfree Hfile].
  assert (Hrange : -1 <= ht_idx w_half < max_ht_map_entries)
    by (rewrite Hidx; unfold max_ht_map_entries; lia).
  assert (Hprobe : max_ht_map_entries <= fst (probe w_half)).
  { apply probe_window_busy; [exact Hrange|].
    intros k Hk. rewrite Hidx.
    replace (2047 + k) with (k - 1 + 1 * max_ht_map_entries)
      by (unfold max_ht_map_entries; lia).
    rewrite Z_mod_plus_full, Z.mod_small by (unfold max_ht_map_entries; lia).
    apply Hbusy. lia. }
  assert (Hforce : 1 <> 0) by discriminate.
  assert (Hreq : PyArg_store_int 0 4 <> 0) by discriminate.
  assert (Hr : r = (Returned None, refused "t.db" [] 1 4 w_half)).
  { unfold r.
    rewrite (shmht_open_create no_faults w_half "t.db" 4 1 eq_refl Hforce Hreq
               eq_refl eq_refl eq_refl).
    change (PyArg_store_int 0 4) with 4. unfold late.
    destruct (Z.leb_spec max_ht_map_entries (fst (probe w_half))); [reflexivity|lia]. }
  assert (H1 : r = (Returned None, snd r)) by (rewrite Hr; reflexivity).
  assert (H2 : pyerr (snd r) = Some Err_exceeded_max_ht_map_entries)
    by (rewrite Hr; reflexivity).
  assert (H3 : ht (slot (ht_map w_half) 1024) = NULL)
    by (apply Hfree; unfold max_ht_map_entries; lia).
  assert (H4 : exists i, 0 <= i < max_ht_map_entries /\
                         ht (slot (ht_map w_half) i) = NULL)
    by (exists 1024; split; [unfold max_ht_map_entries; lia|exact H3]).
  split; [exact H1|]. split; [exact H2|]. split; [exact H3|].
  exact (retry_after_failed_search no_faults w_half "t.db" 4 1 (snd r) Hrange
           eq_refl eq_refl eq_refl eq_refl Hforce H1 H2 H4).
Defined.

(** X6 at [w_ab] and the creation of a second table. *)
Lemma open_leaves_handles_in_place_witness :
  registry_ok w_ab /\ bad_handle w_ab 0 = false /\
  bad_handle (snd (shmht_open no_faults w_ab "u.db" 8 0)) 0 = false.
Proof.
  assert (H : bad_handle w_ab 0 = false) by by_evaluation.
  split; [exact w_ab_ok|]. split; [exact H|].
  exact (proj1 (proj2 (open_leaves_handles_in_place no_faults w_ab "u.db" 8 0 0
                         w_ab_ok H))).
Defined.

(** X7 at the creation of a table in the initial state. *)
Lemma first_handle_is_zero_witness :
  exists h w',
    shmht_open no_faults w0 "t.db" 4 1 = (Returned (Some (PyInt h)), w') /\ h = 0.
Proof.
  assert (Hforce : 1 <> 0) by discriminate.
  assert (Hreq : PyArg_store_int 0 4 <> 0) by discriminate.
  assert (Hprobe : probe w0 = (1, -1 + 1)).
  { apply (probe_next_free w0).
    - unfold w0. cbn [init_world ht_idx]. unfold max_ht_map_entries. lia.
    - unfold w0. cbn [init_world ht_map ht_idx]. apply (f_equal ht (slot_replicate _ _)). }
  assert (Hrun : shmht_open no_faults w0 "t.db" 4 1
                 = (Returned (Some (PyInt (-1 + 1))),
                    attached "t.db" [] 1 (PyArg_store_int 0 4) w0)).
  { rewrite (shmht_open_create no_faults w0 "t.db" 4 1 eq_refl Hforce Hreq
               eq_refl eq_refl eq_refl).
    unfold late. rewrite Hprobe. reflexivity. }
  exists (-1 + 1), (attached "t.db" [] 1 (PyArg_store_int 0 4) w0).
  split; [exact Hrun|].
  exact (proj2 (first_handle_is_zero ∅) no_faults "t.db"%string 4 1 (-1 + 1) _ Hrun).
Defined.

(** X8 at an [open] of a new file without a capacity. *)
Lemma failed_open_leaks_nothing_witness :
  let r := shmht_open no_faults w_ab "new.db" 0 0 in
  maps w_ab !! MAP_FAILED = None /\
  r = (Returned None, snd r) /\
  ht_map (snd r) = ht_map w_ab /\ maps (snd r) = maps w_ab /\ fds (snd r) = fds w_ab.
Proof.
  intros r.
  assert (H1 : maps w_ab !! MAP_FAILED = None) by by_evaluation.
  assert (H2 : shmht_open no_faults w_ab "new.db" 0 0 = (Returned None, snd r))
    by by_evaluation.
  split; [exact H1|]. split; [exact H2|].
  destruct (failed_open_leaks_nothing no_faults w_ab "new.db" 0 0 (snd r) H1 H2)
    as (Hm & Hmaps & Hfds & _).
  split; [exact Hm|]. split; [exact Hmaps|exact Hfds].
Defined.

(** X9 at [w_two]: a value stored through handle 0 is read through
    handle 1. *)
Lemma write_seen_through_every_handle_witness :
  bad_handle w_two 0 = false /\ bad_handle w_two 1 = false /\
  covers w_two 0 f_ab /\ covers w_two 1 f_ab /\
  fst (shmht_getval id (snd (shmht_setval w_two 0 a v2)) 1 a)
  = Returned (Some (PyString v2)) /\
  fst (shmht_getval id (snd (shmht_remove w_two 0 a)) 1 a) = Returned (Some PyNone).
Proof.
  destruct w_two_handles as (H0 & H1 & Hd0 & Hd1).
  assert (Hc0 : covers w_two 0 f_ab) by (apply Z.leb_le; by_evaluation).
  assert (Hc1 : covers w_two 1 f_ab) by (apply Z.leb_le; by_evaluation).
  split; [exact H0|]. split; [exact H1|]. split; [exact Hc0|]. split; [exact Hc1|].
  destruct (write_seen_through_every_handle w_two 0 1 "t.db" f_ab H0 H1 Hd0 Hd1 Hc0 Hc1)
    as [Hset Hrem].
  split.
  - rewrite Hset. by_evaluation.
  - rewrite Hrem. by_evaluation.
Defined.


(** X12 at [-1]. *)
Lemma capacity_argument_round_trip_witness :
  - 2 ^ 31 <= -1 < 2 ^ 31 /\ to_int (PyArg_store_int 0 (-1)) = -1.
Proof.
  assert (H : - 2 ^ 31 <= -1 < 2 ^ 31) by lia.
  split; [exact H|]. exact (proj1 (capacity_argument_round_trip (-1) H)).
Defined.


(** X14 at a [setval]. *)
Lemma accesses_between_lock_and_unlock_witness :
  fst (shmht_setval w_ab 0 a v2) <> Segfault /\
  exists t, log (snd (shmht_setval w_ab 0 a v2)) = t ++ log w_ab /\
            (t = [] \/ bracketed (fd (slot (ht_map w_ab) 0)) t).
Proof.
  assert (H : fst (shmht_setval w_ab 0 a v2) <> Segfault) by (vm_compute; discriminate).
  split; [exact H|].
  exact (proj1 (proj2 (accesses_between_lock_and_unlock w_ab)) 0 a v2 H).
Defined.

(** X15 at the [close] of the handle of [w_ab]. *)
Lemma close_takes_no_lock_witness :
  fst (shmht_close w_ab 0) = Returned (Some PyTrue) /\
  log (snd (shmht_close w_ab 0)) = EvAccess (ht (slot (ht_map w_ab) 0)) :: log w_ab.
Proof.
  assert (H : fst (shmht_close w_ab 0) = Returned (Some PyTrue))
    by by_evaluation.
  split; [exact H|].
  destruct (close_takes_no_lock w_ab 0) as [(t & Hlog & _ & Ht) _].
  rewrite Hlog, (Ht H). reflexivity.
Defined.

(** X16 at [w_two]: handle 1 after the [close] of handle 0. *)
Lemma close_leaves_other_handles_witness :
  registry_ok w_two /\ bad_handle w_two 0 = false /\ bad_handle w_two 1 = false /\
  bad_handle (snd (shmht_close w_two 0)) 1 = false.
Proof.
  destruct w_two_handles as (H0 & H1 & _).
  assert (Hne : 0 <> 1) by discriminate.
  split; [exact w_two_ok|]. split; [exact H0|]. split; [exact H1|].
  exact (proj1 (proj2 (close_leaves_other_handles w_two 0 1 w_two_ok H0 H1 Hne))).
Defined.

(** X17 at [w_ab] with a visitor that raises on every entry. *)
Lemma foreach_with_passive_visitor_witness :
  fst (shmht_foreach w_ab 0 (Callable raise_always)) <> Segfault /\
  files (snd (shmht_foreach w_ab 0 (Callable raise_always))) = files w_ab /\
  exists t, log (snd (shmht_foreach w_ab 0 (Callable raise_always))) = t ++ log w_ab /\
            (t = [] \/ bracketed (fd (slot (ht_map w_ab) 0)) t).
Proof.
  assert (H : fst (shmht_foreach w_ab 0 (Callable raise_always)) <> Segfault)
    by (vm_compute; discriminate).
  destruct (foreach_with_passive_visitor w_ab 0 (Callable raise_always))
    as (Hfiles & _ & Hlog).
  split; [exact H|]. split; [exact Hfiles|exact (Hlog H)].
Defined.
